(** * pyglottolog.monsterlib._bibtex_escaping

    A shallow embedding of the LaTeX/Unicode transcoding helpers of
    [src/pyglottolog/monsterlib/_bibtex_escaping.py] and the properties
    stated about them.

    Python [unicode] objects are lists of code points ([N]); the runtime is
    CPython 2.7 in a UCS-4 build ([sys.maxunicode = 0x10FFFF]) with a C
    [int] of 32 bits.
    Exceptions are the left-to-right first failure of an error monad. *)

From Stdlib Require Import String Ascii.
From Stdlib Require Import NArith List Bool Arith Lia.
From Stdlib Require Import Sorted Permutation.
From Stdlib Require OrderedTypeEx.
Import ListNotations.

Local Open Scope N_scope.

(** ** Python values *)

Definition ustring := list N.

(** ASCII literals of the source, as code points. *)
Definition ustr (s : string) : ustring :=
  map N_of_ascii (list_ascii_of_string s).

Inductive exn : Set :=
| ValueError
| OverflowError
| UnicodeDecodeError
| UnicodeEncodeError
| KeyError.

Inductive result (A : Type) : Type :=
| Ok (a : A)
| Raise (e : exn).

Arguments Ok {A} a.
Arguments Raise {A} e.

Definition bind {A B} (r : result A) (k : A -> result B) : result B :=
  match r with
  | Ok a => k a
  | Raise e => Raise e
  end.

Notation "x <- r ;; k" := (bind r (fun x => k))
  (at level 61, r at next level, right associativity).

Definition raises {A} (r : result A) : bool :=
  match r with Ok _ => false | Raise _ => true end.

(** [s[i:j]] and [s[i:]] for non-negative indices. *)
Definition slice (s : ustring) (i j : nat) : ustring := firstn (j - i) (skipn i s).
Definition slice_from (s : ustring) (i : nat) : ustring := skipn i s.

(** [''.join(chunks)] over a generator whose items may raise. *)
Fixpoint join (chunks : list (result ustring)) : result ustring :=
  match chunks with
  | [] => Ok []
  | c :: cs => x <- c ;; xs <- join cs ;; Ok (x ++ xs)
  end.

Definition is_digit (c : N) : bool := (48 <=? c) && (c <=? 57).

(** [\s] of a pattern compiled without [re.UNICODE]: space, \t, \n, \v, \f, \r. *)
Definition is_space (c : N) : bool := (c =? 32) || ((9 <=? c) && (c <=? 13)).

(** [int(m.group(..))] on a capture of [[0-9]+] or [\d{3,5}]: the captured
    text is made of ASCII decimal digits, read most significant first. *)
Definition int_of_digits (ds : ustring) : N :=
  fold_left (fun acc d => 10 * acc + (d - 48)) ds 0.

(** ['%d' % o] for a code point [o]. *)
Fixpoint decimal_digits (fuel : nat) (n : N) (acc : ustring) : ustring :=
  match fuel with
  | O => acc
  | S f =>
      let acc' := (48 + n mod 10) :: acc in
      if n <? 10 then acc' else decimal_digits f (n / 10) acc'
  end.

Definition format_d (n : N) : ustring :=
  decimal_digits (S (N.to_nat (N.size n))) n [].

Definition maxunicode : N := 1114111.
Definition INT_MAX : N := 2147483647.

(** [unichr(i)] for [i >= 0].  The argument is parsed as a C [int]: a
    number that does not fit one raises [OverflowError], and one that fits
    but is no code point raises [ValueError]. *)
Definition unichr (i : N) : result N :=
  if i <=? maxunicode then Ok i
  else if i <=? INT_MAX then Raise ValueError
  else Raise OverflowError.

(** ** The regular expressions, as matchers

    Every pattern of the module is anchored by literal text and has one
    capture group; none has a look-behind, an anchor or an empty match.  A
    matcher tries the pattern at the head of the remaining text and
    returns the captured group and the length of the whole match. *)

Definition matcher := ustring -> option (ustring * nat).

Fixpoint strip_prefix (p s : ustring) : option ustring :=
  match p, s with
  | [], _ => Some s
  | a :: p', b :: s' => if a =? b then strip_prefix p' s' else None
  | _ :: _, [] => None
  end.

(** The longest prefix whose characters satisfy [f], and the rest: what a
    greedy [[class]*] consumes. *)
Fixpoint span (f : N -> bool) (s : ustring) : ustring * ustring :=
  match s with
  | [] => ([], [])
  | c :: r =>
      if f c then let (a, b) := span f r in (c :: a, b) else ([], s)
  end.

Record re_match := MkMatch {
  m_start : nat;
  m_end : nat;
  m_group : ustring
}.

(** [pattern.finditer(s)]: leftmost, non-overlapping matches.  [skip] counts
    the characters of the previous match still to be stepped over. *)
Fixpoint finditer_from (m : matcher) (skip pos : nat) (s : ustring)
  : list re_match :=
  match s with
  | [] => []
  | _ :: tl =>
      match skip with
      | S k => finditer_from m k (S pos) tl
      | O =>
          match m s with
          | Some (g, len) =>
              MkMatch pos (pos + len) g :: finditer_from m (len - 1) (S pos) tl
          | None => finditer_from m 0 (S pos) tl
          end
      end
  end.

Definition finditer (m : matcher) (s : ustring) : list re_match :=
  finditer_from m 0 0 s.

(** [pattern.sub(repl, s)] with a replacement function that may raise. *)
Fixpoint subE_from (m : matcher) (repl : ustring -> result ustring)
  (skip : nat) (s : ustring) : result ustring :=
  match s with
  | [] => Ok []
  | c :: tl =>
      match skip with
      | S k => subE_from m repl k tl
      | O =>
          match m s with
          | Some (g, len) =>
              r <- repl g ;; rest <- subE_from m repl (len - 1) tl ;; Ok (r ++ rest)
          | None => rest <- subE_from m repl 0 tl ;; Ok (c :: rest)
          end
      end
  end.

Definition re_subE (m : matcher) (repl : ustring -> result ustring)
  (s : ustring) : result ustring :=
  subE_from m repl 0 s.

(** [pattern.sub(repl, s)] with a total replacement. *)
Fixpoint sub_from (m : matcher) (repl : ustring -> ustring)
  (skip : nat) (s : ustring) : ustring :=
  match s with
  | [] => []
  | c :: tl =>
      match skip with
      | S k => sub_from m repl k tl
      | O =>
          match m s with
          | Some (g, len) => repl g ++ sub_from m repl (len - 1) tl
          | None => c :: sub_from m repl 0 tl
          end
      end
  end.

Definition re_sub (m : matcher) (repl : ustring -> ustring) (s : ustring)
  : ustring :=
  sub_from m repl 0 s.

(** [s.replace(old, new)] for a non-empty [old]. *)
Definition literal (old : ustring) : matcher :=
  fun s =>
    match strip_prefix old s with
    | Some _ => Some ([], length old)
    | None => None
    end.

Definition str_replace (old new : ustring) (s : ustring) : ustring :=
  re_sub (literal old) (fun _ => new) s.

(** ** Legacy ASCII escape codec *)

(** [r'?[\u'] *)
Definition u_open : ustring := Eval cbv in ustr "?[\u".

Definition u_escape (s : ustring) : ustring :=
  let iterchunks :=
    map (fun c => let o := c in
                  if o <=? 127 then [c] else u_open ++ format_d o ++ [93]) s in
  concat iterchunks.

(** [re.compile(r'\?\[\\u(\d{3,5})\]')]: the greedy [\d{3,5}] is followed by a
    non-digit, so it matches exactly when the run of digits after the opening
    is 3 to 5 long and a closing bracket follows it. *)
Definition u_pattern : matcher :=
  fun s =>
    match strip_prefix u_open s with
    | None => None
    | Some r =>
        let (ds, r') := span is_digit r in
        match r' with
        | 93 :: _ =>
            if (3 <=? length ds)%nat && (length ds <=? 5)%nat
            then Some (ds, (4 + length ds + 1)%nat)
            else None
        | _ => None
        end
    end.

Fixpoint u_iterchunks (s : ustring) (pos : nat) (matches : list re_match)
  : list (result ustring) :=
  match matches with
  | [] => [Ok (slice_from s pos)]
  | m :: ms =>
      Ok (slice s pos (m_start m))
      :: (c <- unichr (int_of_digits (m_group m)) ;; Ok [c])
      :: u_iterchunks s (m_end m) ms
  end.

(** [u_unescape] for a [unicode] argument: every chunk is a [unicode] and
    [''.join] puts them together.  For a [str] argument, where the chunks
    are of two types, see [u_unescape_str]. *)
Definition u_unescape (s : ustring) : result ustring :=
  join (u_iterchunks s 0 (finditer u_pattern s)).

(** ** The interpreter's Unicode services

    [unicodedata] is the interpreter's copy of the Unicode character
    database; the module only calls [name], [lookup] and [normalize].  They
    are parameters of the development. *)

Record Unicodedata := MkUnicodedata {
  (** [unicodedata.name(c)]; [None] when it raises [ValueError] (no name). *)
  ud_name : N -> option string;
  (** [unicodedata.lookup(name)]; [None] when it raises [KeyError]. *)
  ud_lookup : string -> option N;
  (** [unicodedata.normalize('NFC', s)]. *)
  ud_normalize_NFC : ustring -> ustring
}.

(** A [str] (bytes) or a [unicode] object. *)
Inductive py_string :=
| PyStr (b : list N)
| PyUnicode (u : ustring).

Definition is_cont (b : N) : bool := (128 <=? b) && (b <=? 191).

(** [bytes.decode('utf8')] of CPython 2.7: shortest forms only, at most
    U+10FFFF, encoded surrogates let through. *)
Fixpoint utf8_decode_from (fuel : nat) (b : list N) : result ustring :=
  match fuel with
  | O => Ok []
  | S f =>
      match b with
      | [] => Ok []
      | b0 :: r =>
          if b0 <=? 127 then
            rest <- utf8_decode_from f r ;; Ok (b0 :: rest)
          else if (194 <=? b0) && (b0 <=? 223) then
            match r with
            | b1 :: r1 =>
                if is_cont b1 then
                  rest <- utf8_decode_from f r1 ;;
                  Ok (((b0 - 192) * 64 + (b1 - 128)) :: rest)
                else Raise UnicodeDecodeError
            | _ => Raise UnicodeDecodeError
            end
          else if (224 <=? b0) && (b0 <=? 239) then
            match r with
            | b1 :: b2 :: r2 =>
                if is_cont b1 && is_cont b2 && implb (b0 =? 224) (160 <=? b1)
                then
                  rest <- utf8_decode_from f r2 ;;
                  Ok (((b0 - 224) * 4096 + (b1 - 128) * 64 + (b2 - 128)) :: rest)
                else Raise UnicodeDecodeError
            | _ => Raise UnicodeDecodeError
            end
          else if (240 <=? b0) && (b0 <=? 244) then
            match r with
            | b1 :: b2 :: b3 :: r3 =>
                if is_cont b1 && is_cont b2 && is_cont b3
                   && implb (b0 =? 240) (144 <=? b1)
                   && implb (b0 =? 244) (b1 <=? 143)
                then
                  rest <- utf8_decode_from f r3 ;;
                  Ok (((b0 - 240) * 262144 + (b1 - 128) * 4096
                       + (b2 - 128) * 64 + (b3 - 128)) :: rest)
                else Raise UnicodeDecodeError
            | _ => Raise UnicodeDecodeError
            end
          else Raise UnicodeDecodeError
      end
  end.

Definition utf8_decode (b : list N) : result ustring :=
  utf8_decode_from (length b) b.

(** [unicode.encode('ascii')], the implicit step of [u.decode(..)]. *)
Definition ascii_encode (u : ustring) : result (list N) :=
  if forallb (fun c => c <=? 127) u then Ok u else Raise UnicodeEncodeError.

(** [str.decode('ascii')]. *)
Definition ascii_decode (b : list N) : result ustring :=
  if forallb (fun c => c <=? 127) b then Ok b else Raise UnicodeDecodeError.

(** [s.decode('utf8')] *)
Definition decode_utf8 (s : py_string) : result ustring :=
  match s with
  | PyStr b => utf8_decode b
  | PyUnicode u => b <- ascii_encode u ;; utf8_decode b
  end.

(** ** Pre- and post-processing around the [ulatex] codec *)

Definition numcharref_amp : ustring := Eval cbv in ustr "&#".

(** [re.compile('\\\\?&#(?P<dec>[0-9]+);')] *)
Definition numcharref_pattern1 : matcher :=
  fun s =>
    let amp r :=
      match strip_prefix numcharref_amp r with
      | None => None
      | Some r1 =>
          let (dec, r2) := span is_digit r1 in
          match dec, r2 with
          | _ :: _, 59 :: _ => Some (dec, (2 + length dec + 1)%nat)
          | _, _ => None
          end
      end in
    match s with
    | 92 :: r => option_map (fun '(dec, len) => (dec, S len)) (amp r)
    | _ => amp s
    end.

(** [re.compile('\?\[\\\\u\s*(?P<dec>[0-9]+)\]')] *)
Definition numcharref_pattern2 : matcher :=
  fun s =>
    match strip_prefix u_open s with
    | None => None
    | Some r =>
        let (ws, r1) := span is_space r in
        let (dec, r2) := span is_digit r1 in
        match dec, r2 with
        | _ :: _, 93 :: _ => Some (dec, (4 + length ws + length dec + 1)%nat)
        | _, _ => None
        end
    end.

Definition numcharref_patterns : list matcher :=
  [numcharref_pattern1; numcharref_pattern2].

(** [re.compile('\\\\%s \{(?P<arg>[^\}]+)\}' % name)]: backslash, the name, one
    space, an opening brace, a non-empty run without closing brace, and the
    closing brace. *)
Definition braced_arg (opening : ustring) : matcher :=
  fun s =>
    match strip_prefix opening s with
    | None => None
    | Some r =>
        let (arg, r') := span (fun c => negb (c =? 125)) r in
        match arg, r' with
        | _ :: _, 125 :: _ => Some (arg, (length opening + length arg + 1)%nat)
        | _, _ => None
        end
    end.

Definition command_pattern (name : ustring) : matcher :=
  braced_arg (92 :: name ++ [32; 123]).

Definition command_names : list ustring :=
  Eval cbv in map ustr ["url"; "emph"; "textit"; "texttt"]%string.

Definition command_patterns : list matcher :=
  map command_pattern command_names.

(** The default argument [debracket=re.compile(u"\{([^\}]+)\}")]. *)
Definition debracket : matcher := braced_arg [123].

Definition numcharref_repl (dec : ustring) : result ustring :=
  c <- unichr (int_of_digits dec) ;; Ok [c].

Definition language_tags : list (ustring * ustring) :=
  Eval cbv in
  map (fun '(k, v) => (ustr k, ustr v))
    [ ("latin", "lat"); ("zh", "zho"); ("hindi", "hin"); ("eng", "eng");
      ("viet", "vie"); ("tib", "bod"); ("skt", "san"); ("gujarati", "guj");
      ("pacoh", "pac"); ("thai", "tha"); ("dutch", "nld"); ("burm", "mya");
      ("dan", "dan"); ("norw", "nor"); ("oldkhmer", "qok"); ("ital", "ita");
      ("santali", "sat"); ("span", "spa"); ("germ", "deu"); ("fr", "fra");
      ("rus", "rus") ]%string.

(** The alternation [(?P<tag>k1|k2|...)] followed by [\s+]: the first key, in
    the order of [language_tags.keys()], that is followed by whitespace. *)
Fixpoint match_tags (keys : list ustring) (s : ustring) : option (ustring * nat) :=
  match keys with
  | [] => None
  | k :: ks =>
      match strip_prefix k s with
      | Some r =>
          match fst (span is_space r) with
          | [] => match_tags ks s
          | ws => Some (k, (length k + length ws)%nat)
          end
      | None => match_tags ks s
      end
  end.

(** [re.compile(u"\\\\(?P<tag>%s)\s+" % '|'.join(list(language_tags.keys())))] *)
Definition language_tag_pattern : matcher :=
  fun s =>
    match s with
    | 92 :: r =>
        option_map (fun '(tag, len) => (tag, S len)) (match_tags (map fst language_tags) r)
    | _ => None
    end.

Definition ueqb (a b : ustring) : bool :=
  if list_eq_dec N.eq_dec a b then true else false.

(** [language_tags[tag]]; the pattern only captures keys of the table. *)
Definition language_tags_get (tag : ustring) : ustring :=
  match find (fun kv => ueqb (fst kv) tag) language_tags with
  | Some kv => snd kv
  | None => []
  end.

Definition recode_language_tags (s : ustring) : ustring :=
  let repl tag := [91] ++ language_tags_get tag ++ [93; 32] in
  re_sub language_tag_pattern repl s.

(** The commands deleted together with the space that follows them. *)
Definition stripped_commands : list ustring :=
  Eval cbv in
  map ustr ["relax"; "it"; "em"; "textsc"; "cite"; "citet"]%string.

Definition strip_commands (s : ustring) : ustring :=
  fold_left (fun s cmd => str_replace (92 :: cmd ++ [32]) [] s) stripped_commands s.

(** [debracket.sub(u"\\1", debracket.sub(u"\\1", s.replace('{}', '')))] *)
Definition strip_braces (s : ustring) : ustring :=
  re_sub debracket (fun g => g)
    (re_sub debracket (fun g => g) (str_replace [123; 125] [] s)).

(** The two [numcharref_patterns], one after the other. *)
Definition resolve_numcharrefs (s : ustring) : result ustring :=
  s1 <- re_subE numcharref_pattern1 numcharref_repl s ;;
  re_subE numcharref_pattern2 numcharref_repl s1.

Section Transcoding.

Variable ud : Unicodedata.

Definition is_combining (c : N) : bool :=
  match ud_name ud c with
  | Some name => prefix "COMBINING" name
  | None => false
  end.

(** Whether the standard output can encode a text: with the encoding of
    the terminal, or with ASCII when the output has no encoding (a pipe or
    a file). *)
Variable stdout_encodes : ustring -> bool.

(** [print s] for a [unicode]: the text is encoded for the standard output,
    which raises [UnicodeEncodeError] when the output cannot encode it.
    What is written is not part of the result. *)
Definition print_unicode (s : ustring) : result unit :=
  if stdout_encodes s then Ok tt else Raise UnicodeEncodeError.

(** The loop of [ulatex_preprocess] over the characters [rest] of [s]: at
    the first combining character it prints [s] and raises. *)
Fixpoint reject_combining (s rest : ustring) : result unit :=
  match rest with
  | [] => Ok tt
  | c :: r =>
      if is_combining c
      then _ <- print_unicode s ;; Raise ValueError
      else reject_combining s r
  end.

Definition ulatex_preprocess (s : py_string) : result ustring :=
  d <- decode_utf8 s ;;
  let s := ud_normalize_NFC ud d in
  _ <- reject_combining s s ;;
  Ok s.

(** [while comb: n.append(comb.pop())].  [comb] is kept with its last
    element first, so that [append] is a cons and [pop] takes the head. *)
Fixpoint drain (n comb : ustring) : ustring :=
  match comb with
  | [] => n
  | c :: comb' => drain (n ++ [c]) comb'
  end.

(** One iteration of the loop over [s], on the state [(n, comb)]. *)
Definition reorder_step (st : ustring * ustring) (c : N) : ustring * ustring :=
  let (n, comb) := st in
  if is_combining c then (n, c :: comb)
  else (drain (n ++ [c]) comb, []).

(** Lines 220 to 229: the loop and [u''.join(n)]. *)
Definition reorder_combining (s : ustring) : ustring :=
  fst (fold_left reorder_step s ([], [])).

Definition ulatex_postprocess (s : py_string) : result ustring :=
  s <- match s with
       | PyUnicode u => Ok u
       | PyStr b => ascii_decode b
       end ;;
  let s := fold_left (fun s p => re_sub p (fun arg => arg) s) command_patterns s in
  let s := strip_braces s in
  let s := reorder_combining s in
  s <- resolve_numcharrefs s ;;
  let s := strip_commands s in
  let s := recode_language_tags s in
  Ok (ud_normalize_NFC ud s).

(** [u.decode('ulatex')] belongs to the [latexcodec] package. *)
Variable ulatex_codec_decode : ustring -> result ustring.

Definition ulatex_decode (s : py_string) : result ustring :=
  u <- ulatex_preprocess s ;;
  d <- ulatex_codec_decode u ;;
  ulatex_postprocess (PyUnicode d).

End Transcoding.

(** ** Symbol table

    The values of [LATEX_TABLE] are one spelling or a list of spellings. *)

Inductive table_value :=
| One (latex_text : ustring)
| Many (latex_texts : list ustring).

(** [if not isinstance(latex_text, (list, tuple)): latex_text = [latex_text]] *)
Definition as_list (v : table_value) : list ustring :=
  match v with
  | One lt => [lt]
  | Many lts => lts
  end.

Definition LATEX_TABLE : list (string * table_value) :=
  [
    ("COMBINING DOT BELOW", One (ustr "\textsubdot"));
    ("COMBINING MACRON", Many [ustr "\="; ustr "\textbar"]);
    ("COMBINING MACRON BELOW", Many [ustr "\textsubbar"; ustr "\textsubline"]);
    ("COMBINING COMMA BELOW", Many [ustr "\,"; ustr "\cb"]);
    ("COMBINING TILDE BELOW", One (ustr "\textsubtilde"));
    ("COMBINING CARON", One (ustr "\v"));
    ("COMBINING CARON BELOW", One (ustr "\textsubwedge"));
    ("COMBINING CIRCUMFLEX ACCENT", One (ustr "\^"));
    ("COMBINING ACUTE ACCENT", One (ustr "\'"));
    ("COMBINING GRAVE ACCENT", One (ustr "\`"));
    ("COMBINING DIAERESIS", One [92; 34]);
    ("COMBINING LATIN SMALL LETTER C", One (ustr "\textsuperscript{c}"));
    ("COMBINING RING BELOW", One (ustr "\textsubring"));
    ("COMBINING OGONEK", One (ustr "\textpolhook"));
    ("COMBINING TILDE", One (ustr "\~"));
    ("COMBINING DOUBLE GRAVE ACCENT", One (ustr "\textdoublegrave"));
    ("COMBINING BREVE BELOW", One (ustr "\textsubu"));
    ("COMBINING BRIDGE BELOW", One (ustr "\textsubbridge"));
    ("COMBINING HORN", One (ustr "\;"));
    ("COMBINING DOT ABOVE", Many [ustr "\."; ustr "\textdot"; ustr "\:"]);
    ("MASCULINE ORDINAL INDICATOR", One (ustr "\textordmasculine"));
    ("LEFT SINGLE QUOTATION MARK", Many [ustr "\textquoteleft"; ustr "\grq"]);
    ("SINGLE LOW-9 QUOTATION MARK", One (ustr "\glq"));
    ("RIGHT SINGLE QUOTATION MARK", One (ustr "\textquoteright"));
    ("NOT SIGN", One (ustr "\textlnot"));
    ("VULGAR FRACTION THREE QUARTERS", One (ustr "\textthreequarters"));
    ("LATIN SMALL LETTER A WITH RING ABOVE", One (ustr "\r{a}"));
    ("LATIN CAPITAL LETTER A WITH RING ABOVE", One (ustr "\r{A}"));
    ("MODIFIER LETTER SMALL W", One (ustr "\textsuperscript{w}"));
    ("SUPERSCRIPT ONE", One (ustr "\textsuperscript{1}"));
    ("SUPERSCRIPT TWO", One (ustr "\textsuperscript{2}"));
    ("SUPERSCRIPT THREE", One (ustr "\textsuperscript{3}"));
    ("SUPERSCRIPT FOUR", One (ustr "\textsuperscript{4}"));
    ("SUPERSCRIPT LATIN SMALL LETTER N", One (ustr "\textsuperscript{n}"));
    ("PERCENT SIGN", One (ustr "\%"));
    ("LATIN SMALL LETTER D WITH HOOK", Many [ustr "\texthtd"; ustr "\texthooktopd"; ustr "\textrhooktopd";
            ustr "\!d"]);
    ("LATIN SMALL LETTER D WITH TAIL", One (ustr "\:{d}"));
    ("LATIN SMALL LETTER B WITH HOOK", Many [ustr "\texthtb"; ustr "\texthooktopb"]);
    ("LATIN SMALL LETTER N WITH LEFT HOOK", One (ustr "\textltailn"));
    ("LATIN SMALL LETTER S WITH HOOK", One (ustr "\textrtails"));
    ("LATIN SMALL LETTER ETH", Many [ustr "\dh"; ustr "\textdh"]);
    ("LATIN CAPITAL LETTER ETH", One (ustr "\DH"));
    ("LATIN SMALL LETTER ENG", Many [ustr "\ng"; ustr "\textipa{N}"]);
    ("LATIN CAPITAL LETTER ENG", One (ustr "\NG"));
    ("LATIN SMALL LETTER OPEN O", One (ustr "\textopeno"));
    ("LATIN CAPITAL LETTER THORN", One (ustr "\TH"));
    ("LATIN SMALL LETTER THORN", Many [ustr "\textthorn"; ustr "\th"]);
    ("LATIN LETTER GLOTTAL STOP", One (ustr "\textglotstop"));
    ("LATIN LETTER INVERTED GLOTTAL STOP", One (ustr "\textrevglotstop"));
    ("LATIN SMALL LETTER SCHWA", One (ustr "\textschwa"));
    ("LATIN SMALL LETTER R WITH TAIL", One (ustr "\textrtailr"));
    ("LATIN SMALL LETTER BARRED O", One (ustr "\texttheta"));
    ("LATIN SMALL LETTER O WITH HORN", One (ustr "\ohorn"));
    ("MODIFIER LETTER GLOTTAL STOP", One (ustr "\textraiseglotstop"));
    ("LATIN SMALL LETTER I WITH STROKE", One (ustr "\textbari"));
    ("LATIN SMALL LETTER E WITH TILDE", One (ustr "\~e"));
    ("INVERTED QUESTION MARK", One (ustr "\textquestiondown"));
    ("INVERTED EXCLAMATION MARK", Many [ustr "\textexclamationdown"; ustr "\textexclamdown"]);
    ("HORIZONTAL ELLIPSIS", One (ustr "\dots"));
    ("RIGHT DOUBLE QUOTATION MARK", One (ustr "\textquotedblright"));
    ("LEFT DOUBLE QUOTATION MARK", One (ustr "\textquotedblleft"));
    ("LEFT-POINTING DOUBLE ANGLE QUOTATION MARK", One (ustr "\guillemotleft"));
    ("RIGHT-POINTING DOUBLE ANGLE QUOTATION MARK", One (ustr "\guillemotright"));
    ("LATIN LETTER ALVEOLAR CLICK", Many [ustr "\textdoublebarpipe"; ustr "\textdoublebarpipevar"]);
    ("PLUS-MINUS SIGN", One (ustr "\plusminus"));
    ("LATIN SMALL LETTER E WITH MACRON AND ACUTE", One (ustr "\textacutemacron e"));
    ("LATIN SMALL LETTER E WITH OGONEK", One (ustr "\textpolhook e"));
    ("LATIN SMALL LETTER A WITH OGONEK", One (ustr "\c{a}"));
    ("LATIN SMALL LETTER TURNED M", One (ustr "\textturnm"));
    ("MODIFIER LETTER TRIANGULAR COLON", One (ustr "\textlengthmark"));
    ("LESS-THAN SIGN", One (ustr "\textless"));
    ("GREATER-THAN SIGN", One (ustr "\textgreater"));
    ("LATIN CROSS", One (ustr "\textbarpipe"));
    ("LATIN SMALL LETTER OPEN E", One (ustr "\textepsilon"));
    ("LATIN SMALL LETTER GAMMA", Many [ustr "\textgamma"; ustr "\gamma"]);
    ("LATIN SMALL LETTER TURNED V", One (ustr "\textturnv"));
    ("GREEK SMALL LETTER BETA", One (ustr "\textbeta"));
    ("GREEK CAPITAL LETTER ETA", One (ustr "\textEta"));
    ("GREEK SMALL LETTER OMEGA", One (ustr "\textomega"));
    ("LATIN SMALL LETTER UPSILON", One (ustr "\textupsilon"));
    ("LATIN SMALL LETTER ESH", One (ustr "\textesh"));
    ("CYRILLIC SMALL LETTER HARD SIGN", One (ustr "\texthardsign"));
    ("EURO SIGN", One (ustr "\eurosign"));
    ("DEGREE SIGN", One (ustr "\circ"));
    ("VERTICAL LINE", One (ustr "\textvertline"));
    ("DOUBLE VERTICAL LINE", One (ustr "\textdoublevertline"));
    ("LATIN SMALL LETTER T WITH RETROFLEX HOOK", One (ustr "\:{t}"));
    ("LATIN SMALL LETTER H WITH STROKE", One (ustr "\textcrh"));
    ("LATIN SMALL LETTER REVERSED OPEN E", One (ustr "\textrevepsilon"));
    ("LATIN SMALL LETTER PHI", One (ustr "\textphi"));
    ("GREEK SMALL LETTER CHI", One (ustr "\textchi"))
  ]%string.

(** [sorted(items, key=lambda t: t[0], reverse=True)]: a stable sort on the
    names, largest first. *)
Fixpoint insert_desc {V} (x : string * V) (l : list (string * V)) : list (string * V) :=
  match l with
  | [] => [x]
  | y :: r =>
      if String.ltb (fst x) (fst y) then y :: insert_desc x r else x :: l
  end.

Fixpoint sorted_reverse {V} (items : list (string * V)) : list (string * V) :=
  match items with
  | [] => []
  | x :: r => insert_desc x (sorted_reverse r)
  end.

Section Registration.

Variable ud : Unicodedata.

(** A table of [latexcodec] and its method [register(uchar, lt)], which
    updates the table in place. *)
Variable table : Type.
Variable register : table -> N -> ustring -> table.

(** The two inner loops, over [_LC_TABLES] and over the spellings. *)
Definition register_entry (tables : list table) (uchar : N)
  (latex_text : list ustring) : list table :=
  map (fun t => fold_left (fun t lt => register t uchar lt) latex_text t) tables.

Fixpoint register_entries (entries : list (string * table_value))
  (tables : list table) : result (list table) :=
  match entries with
  | [] => Ok tables
  | (unicode_text, latex_text) :: rest =>
      match ud_lookup ud unicode_text with
      | None => Raise KeyError
      | Some uchar =>
          register_entries rest (register_entry tables uchar (as_list latex_text))
      end
  end.

(** The registration loop at import time, for any dict of overrides. *)
Definition register_table (items : list (string * table_value))
  (tables : list table) : result (list table) :=
  register_entries (sorted_reverse items) tables.

End Registration.

(** The calls [table.register(uchar, lt)] that the loop makes on each table,
    in the order in which it makes them. *)
Fixpoint registration_calls (ud : Unicodedata)
  (entries : list (string * table_value)) : list (N * ustring) :=
  match entries with
  | [] => []
  | (unicode_text, latex_text) :: rest =>
      match ud_lookup ud unicode_text with
      | None => []
      | Some uchar =>
          map (pair uchar) (as_list latex_text) ++ registration_calls ud rest
      end
  end.

(** A table after a list of calls of its [register]. *)
Definition replay {table : Type} (register : table -> N -> ustring -> table)
  (calls : list (N * ustring)) (t : table) : table :=
  fold_left (fun t c => register t (fst c) (snd c)) calls t.

(** Modelled from the spec: the table that [register] of [latexcodec]
    updates is not part of the module.  Section 3 of the specification
    describes its inverse mapping, from LaTeX spelling to code point. *)
Definition inverse_table := ustring -> option N.

(** Modelled from the spec: [table.register(uchar, lt)], which is not part
    of the module.  Section 3 of the specification makes the inverse mapping
    last-write-wins: a later registration of a spelling shadows an earlier
    one. *)
Definition spec_register (t : inverse_table) (uchar : N) (lt : ustring)
  : inverse_table :=
  fun spelling => if ueqb spelling lt then Some uchar else t spelling.

(** ** An excerpt of the Unicode character database

    Names, canonical decompositions and compositions of the few characters
    the examples below use.  On the text of those examples [is_combining] and NFC
    computed from the excerpt agree with the interpreter's. *)

Definition ucd_names : list (N * string) :=
  [ (97, "LATIN SMALL LETTER A");
    (101, "LATIN SMALL LETTER E");
    (228, "LATIN SMALL LETTER A WITH DIAERESIS");
    (233, "LATIN SMALL LETTER E WITH ACUTE");
    (768, "COMBINING GRAVE ACCENT");
    (769, "COMBINING ACUTE ACCENT");
    (770, "COMBINING CIRCUMFLEX ACCENT");
    (771, "COMBINING TILDE");
    (775, "COMBINING DOT ABOVE");
    (776, "COMBINING DIAERESIS");
    (937, "GREEK CAPITAL LETTER OMEGA");
    (8486, "OHM SIGN") ]%string.

Definition ucd_compositions : list (N * N * N) :=
  [ (101, 769, 233); (97, 776, 228) ].

Definition ucd_compose (base mark : N) : option N :=
  option_map snd
    (find (fun e => (fst (fst e) =? base) && (snd (fst e) =? mark)) ucd_compositions).

(** Characters with a canonical decomposition into one other character. *)
Definition ucd_singletons : list (N * N) :=
  [ (8486, 937) ].

Definition ucd_decompose (c : N) : N :=
  match find (fun e => fst e =? c) ucd_singletons with
  | Some e => snd e
  | None => c
  end.

Fixpoint ucd_recompose (s : ustring) : ustring :=
  match s with
  | base :: ((mark :: r) as t) =>
      match ucd_compose base mark with
      | Some c => c :: ucd_recompose r
      | None => base :: ucd_recompose t
      end
  | _ => s
  end.

Definition ucd_nfc (s : ustring) : ustring :=
  ucd_recompose (map ucd_decompose s).

Definition ucd_excerpt : Unicodedata :=
  {| ud_name := fun c => option_map snd (find (fun e => fst e =? c) ucd_names);
     ud_lookup := fun name =>
       option_map fst (find (fun e => String.eqb (snd e) name) ucd_names);
     ud_normalize_NFC := ucd_nfc |}.

(** Two standard outputs: one without encoding, which takes ASCII text
    only, and a terminal with UTF-8. *)
Definition stdout_ascii : ustring -> bool := forallb (fun c => c <=? 127).
Definition stdout_utf8 : ustring -> bool := fun _ => true.

(** ** [u_unescape] on a [str] *)

Definition py_chars (s : py_string) : list N :=
  match s with
  | PyStr b => b
  | PyUnicode u => u
  end.

Definition is_unicode (s : py_string) : bool :=
  match s with
  | PyUnicode _ => true
  | PyStr _ => false
  end.

(** The chunks of [iterchunks] for a [str]: the text between the matches is
    a [str], what [unichr] returns is a [unicode]. *)
Fixpoint u_iterchunks_str (s : list N) (pos : nat) (matches : list re_match)
  : list (result py_string) :=
  match matches with
  | [] => [Ok (PyStr (slice_from s pos))]
  | m :: ms =>
      Ok (PyStr (slice s pos (m_start m)))
      :: (c <- unichr (int_of_digits (m_group m)) ;; Ok (PyUnicode [c]))
      :: u_iterchunks_str s (m_end m) ms
  end.

(** [join] first makes a list of the generator's items, which stops at the
    first item that raises. *)
Fixpoint items {A} (g : list (result A)) : result (list A) :=
  match g with
  | [] => Ok []
  | x :: r => a <- x ;; l <- items r ;; Ok (a :: l)
  end.

(** An item of the sequence, made a [unicode]: a [str] is decoded with the
    default codec, which is ASCII. *)
Definition coerce_unicode (x : py_string) : result ustring :=
  match x with
  | PyUnicode u => Ok u
  | PyStr b => ascii_decode b
  end.

Fixpoint join_unicode (seq : list py_string) : result ustring :=
  match seq with
  | [] => Ok []
  | x :: r => u <- coerce_unicode x ;; us <- join_unicode r ;; Ok (u ++ us)
  end.

(** [''.join(seq)]: a sequence of [str] only gives a [str]; as soon as one
    item is a [unicode], every item is made a [unicode] and the result is
    one. *)
Definition py_join (seq : list py_string) : result py_string :=
  if existsb is_unicode seq
  then u <- join_unicode seq ;; Ok (PyUnicode u)
  else Ok (PyStr (concat (map py_chars seq))).

Definition u_unescape_str (s : list N) : result py_string :=
  seq <- items (u_iterchunks_str s 0 (finditer u_pattern s)) ;;
  py_join seq.

(** ** The [ascii+u_escape] codec and [latex_to_utf8] *)

(** [len(input)] *)
Definition py_len (s : py_string) : nat := length (py_chars s).

(** [input.encode('ascii')]: a [str] is first decoded with the default
    codec, which is ASCII. *)
Definition encode_ascii (input : py_string) : result (list N) :=
  match input with
  | PyUnicode u => ascii_encode u
  | PyStr b => u <- ascii_decode b ;; ascii_encode u
  end.

(** [input.decode('ascii')]: a [unicode] is first encoded with the default
    codec. *)
Definition decode_ascii (input : py_string) : result ustring :=
  match input with
  | PyStr b => ascii_decode b
  | PyUnicode u => b <- ascii_encode u ;; ascii_decode b
  end.

(** [U_escapeCodec.encode]; the argument [erors] is not used. *)
Definition U_escapeCodec_encode (input : py_string) : result (ustring * nat) :=
  b <- encode_ascii input ;;
  Ok (u_escape b, py_len input).

(** [U_escapeCodec.decode] *)
Definition U_escapeCodec_decode (input : py_string) : result (ustring * nat) :=
  u <- decode_ascii input ;;
  r <- u_unescape u ;;
  Ok (r, py_len input).

(** The default argument [debracket=re.compile("\{(.)\}")] of
    [latex_to_utf8]: one character other than a newline between braces. *)
Definition braced_char : matcher :=
  fun s =>
    match s with
    | 123 :: c :: 125 :: _ => if c =? 10 then None else Some ([c], 3%nat)
    | _ => None
    end.

Section Legacy.

(** [s.decode("latex")] belongs to the [latexcodec] package. *)
Variable latex_codec_decode : py_string -> result ustring.

(** With [verbose], [remaininglatex(us)] prints the commands it still
    finds; it returns nothing and the text is not changed by it. *)
Definition latex_to_utf8 (s : py_string) (verbose : bool) : result ustring :=
  us <- latex_codec_decode s ;;
  let us := re_sub braced_char (fun g => g) us in
  Ok us.

End Legacy.

(** ** Predicates used in the statements *)

(** A match is never empty and lies within the text it was found in. *)
Definition matcher_wf (m : matcher) : Prop :=
  forall s g len, m s = Some (g, len) -> (1 <= len <= length s)%nat.

(** Whether an escape [?[\uDDD]] of the legacy codec starts somewhere in [s]. *)
Fixpoint has_escape (s : ustring) : bool :=
  match s with
  | [] => false
  | _ :: r =>
      match u_pattern s with Some _ => true | None => false end || has_escape r
  end.


(** Text without backslash, opening brace, ampersand or question mark: no
    pattern of [ulatex_postprocess] can start in it. *)
Definition is_plain (c : N) : bool :=
  negb ((c =? 92) || (c =? 123) || (c =? 38) || (c =? 63)).

(** Two texts that differ at a position both have: neither is a prefix of
    the other. *)
Fixpoint diverge (a b : ustring) : bool :=
  match a, b with
  | x :: a', y :: b' => if x =? y then diverge a' b' else true
  | _, _ => false
  end.

Definition starts_with_space (s : ustring) : bool :=
  match s with
  | c :: _ => is_space c
  | [] => false
  end.

(** The stages of section 4.2 of the specification from command stripping
    on, in the order in which the specification lists them: stage 4 (the
    commands with an argument, then the commands deleted outright), stage 5
    (braces), stage 6 (combining marks), stage 7 (numeric references),
    stage 8 (language tags), stage 9 (NFC). *)
Definition spec_postprocess (ud : Unicodedata) (s : ustring) : result ustring :=
  let s := fold_left (fun s p => re_sub p (fun arg => arg) s) command_patterns s in
  let s := strip_commands s in
  let s := strip_braces s in
  let s := reorder_combining ud s in
  s <- resolve_numcharrefs s ;;
  let s := recode_language_tags s in
  Ok (ud_normalize_NFC ud s).

(** The passes of [ulatex_postprocess] over a [unicode], up to the final
    normalisation. *)
Definition ulatex_passes (ud : Unicodedata) (s : ustring) : result ustring :=
  let s := fold_left (fun s p => re_sub p (fun arg => arg) s) command_patterns s in
  let s := strip_braces s in
  let s := reorder_combining ud s in
  s <- resolve_numcharrefs s ;;
  Ok (recode_language_tags (strip_commands s)).

(** What the proofs below need of each entry of [language_tags]; checked by
    evaluation over the table. *)
Definition tag_entry_ok (kv : ustring * ustring) : bool :=
  let k := fst kv in
  forallb (fun k' => ueqb k' k || diverge k' k) (map fst language_tags)
  && forallb (fun name => diverge (name ++ [32; 123]) k) command_names
  && forallb (fun cmd => diverge (cmd ++ [32]) k) stripped_commands
  && diverge numcharref_amp k
  && forallb is_plain k
  && ueqb (language_tags_get k) (snd kv).

(** An order of registration: names from the largest down. *)
Definition name_ge (a b : string) : Prop := a = b \/ String.ltb b a = true.

Definition entry_ge (V : Type) (a b : string * V) : Prop :=
  name_ge (fst a) (fst b).

(** A code point table with no entry, and a small dict of overrides in
    which two names list the spelling [\:]. *)
Definition empty_table : inverse_table := fun _ => None.

Definition colliding_items : list (string * table_value) :=
  [ ("COMBINING DIAERESIS", One (ustr "\:"));
    ("COMBINING DOT ABOVE", Many [ustr "\."; ustr "\:"]) ]%string.

(** No name of the dict [items] lists a spelling that another name lists
    as well. *)
Definition spellings_unshared (items : list (string * table_value)) : bool :=
  forallb (fun e =>
    forallb (fun e' =>
      String.eqb (fst e) (fst e')
      || forallb (fun lt => negb (existsb (ueqb lt) (as_list (snd e'))))
           (as_list (snd e)))
      items)
    items.

Fixpoint distinct (names : list string) : bool :=
  match names with
  | [] => true
  | n :: r => negb (existsb (String.eqb n) r) && distinct r
  end.

(** * Properties *)

(** ** Decimal formatting *)

Lemma decimal_digits_acc (f : nat) : forall n acc,
  decimal_digits f n acc = decimal_digits f n [] ++ acc.
Proof.
  induction f as [|f IH]; intros n acc; simpl; [reflexivity|].
  destruct (n <? 10); [reflexivity|].
  rewrite IH, (IH _ [_]), <- app_assoc. reflexivity.
Qed.

Lemma decimal_digits_step (f : nat) (n : N) :
  decimal_digits (S f) n [] =
  if n <? 10 then [48 + n] else decimal_digits f (n / 10) [] ++ [48 + n mod 10].
Proof.
  simpl. destruct (n <? 10) eqn:E.
  - apply N.ltb_lt in E. rewrite N.mod_small by exact E. reflexivity.
  - apply decimal_digits_acc.
Qed.

Lemma is_digit_iff (c : N) : is_digit c = true <-> 48 <= c <= 57.
Proof.
  unfold is_digit. rewrite andb_true_iff, !N.leb_le. reflexivity.
Qed.

Lemma decimal_digits_are_digits (f : nat) : forall n,
  Forall (fun c => is_digit c = true) (decimal_digits f n []).
Proof.
  induction f as [|f IH]; intros n; [constructor|].
  rewrite decimal_digits_step. destruct (n <? 10) eqn:E.
  - apply N.ltb_lt in E. repeat constructor. apply is_digit_iff. lia.
  - apply Forall_app. split; [apply IH|].
    repeat constructor. apply is_digit_iff.
    assert (n mod 10 < 10) by (apply N.mod_lt; lia).
    generalize dependent (n mod 10). intros; lia.
Qed.

Lemma int_of_digits_snoc (ds : ustring) (d : N) :
  int_of_digits (ds ++ [d]) = 10 * int_of_digits ds + (d - 48).
Proof. unfold int_of_digits. rewrite fold_left_app. reflexivity. Qed.

Lemma int_of_decimal_digits (f : nat) : forall n,
  n < 2 ^ N.of_nat f -> int_of_digits (decimal_digits f n []) = n.
Proof.
  induction f as [|f IH]; intros n Hn.
  - change (2 ^ N.of_nat 0) with 1 in Hn. cbv [decimal_digits int_of_digits fold_left]. lia.
  - rewrite decimal_digits_step. destruct (n <? 10) eqn:E.
    + apply N.ltb_lt in E. cbv [int_of_digits fold_left]. lia.
    + apply N.ltb_ge in E. rewrite int_of_digits_snoc, IH.
      * replace (48 + n mod 10 - 48) with (n mod 10)
          by (generalize (n mod 10); intros; lia).
        symmetry. apply N.div_mod. lia.
      * rewrite Nat2N.inj_succ, N.pow_succ_r' in Hn.
        apply N.Div0.div_lt_upper_bound. lia.
Qed.

Lemma decimal_digits_length_le (f : nat) : forall n k,
  n < 10 ^ N.of_nat (S k) -> (length (decimal_digits f n []) <= S k)%nat.
Proof.
  induction f as [|f IH]; intros n k Hn; [simpl; lia|].
  rewrite decimal_digits_step. destruct (n <? 10) eqn:E; [simpl; lia|].
  apply N.ltb_ge in E. rewrite length_app. simpl.
  destruct k as [|k].
  - simpl in Hn. lia.
  - assert (n / 10 < 10 ^ N.of_nat (S k)).
    { rewrite (Nat2N.inj_succ (S k)), N.pow_succ_r' in Hn.
      apply N.Div0.div_lt_upper_bound. lia. }
    specialize (IH _ _ H). lia.
Qed.

Lemma decimal_digits_length_gt (f : nat) : forall n k,
  n < 2 ^ N.of_nat f -> 10 ^ N.of_nat k <= n ->
  (k < length (decimal_digits f n []))%nat.
Proof.
  induction f as [|f IH]; intros n k Hf Hn.
  - simpl in Hf. assert (10 ^ N.of_nat k <> 0) by (apply N.pow_nonzero; lia). lia.
  - rewrite decimal_digits_step. destruct (n <? 10) eqn:E.
    + apply N.ltb_lt in E. destruct k as [|k]; [simpl; lia|].
      rewrite Nat2N.inj_succ, N.pow_succ_r' in Hn.
      assert (10 ^ N.of_nat k <> 0) by (apply N.pow_nonzero; lia). lia.
    + apply N.ltb_ge in E. rewrite length_app. simpl.
      destruct k as [|k]; [lia|].
      rewrite Nat2N.inj_succ, N.pow_succ_r' in Hn, Hf.
      assert (Hlt : n / 10 < 2 ^ N.of_nat f)
        by (apply N.Div0.div_lt_upper_bound; lia).
      assert (Hge : 10 ^ N.of_nat k <= n / 10)
        by (apply N.div_le_lower_bound; lia).
      specialize (IH _ _ Hlt Hge). lia.
Qed.

Lemma format_d_fuel (n : N) : n < 2 ^ N.of_nat (S (N.to_nat (N.size n))).
Proof.
  rewrite Nat2N.inj_succ, N2Nat.id, N.pow_succ_r'.
  pose proof (N.size_gt n). lia.
Qed.

Lemma int_of_format_d (n : N) : int_of_digits (format_d n) = n.
Proof. apply int_of_decimal_digits, format_d_fuel. Qed.

Lemma format_d_digits (n : N) : Forall (fun c => is_digit c = true) (format_d n).
Proof. apply decimal_digits_are_digits. Qed.

Lemma format_d_length (n : N) :
  128 <= n <= 99999 -> (3 <= length (format_d n) <= 5)%nat.
Proof.
  intros [Hlo Hhi]. split.
  - apply (decimal_digits_length_gt _ n 2); [apply format_d_fuel|].
    change (10 ^ N.of_nat 2) with 100. lia.
  - apply (decimal_digits_length_le _ n 4).
    change (10 ^ N.of_nat 5) with 100000. lia.
Qed.

(** ** The matching engine *)

Lemma span_app_stop (f : N -> bool) (ds : ustring) (x : N) (r : ustring) :
  Forall (fun c => f c = true) ds -> f x = false ->
  span f (ds ++ x :: r) = (ds, x :: r).
Proof.
  intros Hds Hx. induction Hds as [|d ds Hd _ IH]; simpl.
  - rewrite Hx. reflexivity.
  - rewrite Hd, IH. reflexivity.
Qed.

Lemma span_all (f : N -> bool) (ds : ustring) :
  Forall (fun c => f c = true) ds -> span f ds = (ds, []).
Proof.
  intros Hds. induction Hds as [|d ds Hd _ IH]; simpl; [reflexivity|].
  rewrite Hd, IH. reflexivity.
Qed.

Lemma span_spec (f : N -> bool) (s : ustring) :
  fst (span f s) ++ snd (span f s) = s
  /\ Forall (fun c => f c = true) (fst (span f s)).
Proof.
  induction s as [|c s [IH1 IH2]]; simpl; [split; [reflexivity | constructor]|].
  destruct (f c) eqn:E; [|split; [reflexivity | constructor]].
  destruct (span f s) as [a b]; simpl in *. split.
  - f_equal. exact IH1.
  - constructor; assumption.
Qed.

Lemma strip_prefix_app (p r : ustring) : strip_prefix p (p ++ r) = Some r.
Proof.
  induction p as [|a p IH]; simpl; [reflexivity|].
  rewrite N.eqb_refl. exact IH.
Qed.

Lemma strip_prefix_Some (p s r : ustring) :
  strip_prefix p s = Some r -> s = p ++ r.
Proof.
  revert s. induction p as [|a p IH]; intros s H; simpl in *.
  - congruence.
  - destruct s as [|b s]; [discriminate|].
    destruct (a =? b) eqn:E; [|discriminate].
    apply N.eqb_eq in E. subst b. f_equal. apply IH, H.
Qed.

Section Engine.

Variable m : matcher.

Lemma sub_from_skipn (repl : ustring -> ustring) (k : nat) : forall s,
  sub_from m repl k s = sub_from m repl 0 (skipn k s).
Proof.
  induction k as [|k IH]; intros s; [reflexivity|].
  destruct s as [|c s]; [reflexivity|]. simpl. apply IH.
Qed.

Lemma subE_from_skipn (repl : ustring -> result ustring) (k : nat) : forall s,
  subE_from m repl k s = subE_from m repl 0 (skipn k s).
Proof.
  induction k as [|k IH]; intros s; [reflexivity|].
  destruct s as [|c s]; [reflexivity|]. simpl. apply IH.
Qed.

Lemma re_sub_miss repl (c : N) (s : ustring) :
  m (c :: s) = None -> re_sub m repl (c :: s) = c :: re_sub m repl s.
Proof. unfold re_sub. simpl. intros ->. reflexivity. Qed.

Lemma re_sub_hit repl (s g : ustring) (len : nat) :
  s <> [] -> m s = Some (g, len) -> (1 <= len)%nat ->
  re_sub m repl s = repl g ++ re_sub m repl (skipn len s).
Proof.
  unfold re_sub. intros Hs Hm Hlen. destruct s as [|c s]; [congruence|].
  simpl. rewrite Hm, sub_from_skipn.
  destruct len as [|len]; [lia|]. simpl. rewrite Nat.sub_0_r. reflexivity.
Qed.

Lemma re_subE_miss repl (c : N) (s : ustring) :
  m (c :: s) = None ->
  re_subE m repl (c :: s) = (rest <- re_subE m repl s ;; Ok (c :: rest)).
Proof. unfold re_subE. simpl. intros ->. reflexivity. Qed.

Lemma re_subE_hit repl (s g : ustring) (len : nat) :
  s <> [] -> m s = Some (g, len) -> (1 <= len)%nat ->
  re_subE m repl s =
  (r <- repl g ;; rest <- re_subE m repl (skipn len s) ;; Ok (r ++ rest)).
Proof.
  unfold re_subE. intros Hs Hm Hlen. destruct s as [|c s]; [congruence|].
  simpl. rewrite Hm, subE_from_skipn.
  destruct len as [|len]; [lia|]. simpl. rewrite Nat.sub_0_r. reflexivity.
Qed.

(** Text none of whose characters can start a match is left as it is. *)
Lemma re_sub_inert repl (P : N -> Prop) (s : ustring) :
  (forall c t, P c -> m (c :: t) = None) ->
  Forall P s -> re_sub m repl s = s.
Proof.
  intros HP Hs. induction Hs as [|c s Hc _ IH]; [reflexivity|].
  rewrite re_sub_miss by (apply HP, Hc). f_equal. exact IH.
Qed.

Lemma re_subE_inert repl (P : N -> Prop) (s : ustring) :
  (forall c t, P c -> m (c :: t) = None) ->
  Forall P s -> re_subE m repl s = Ok s.
Proof.
  intros HP Hs. induction Hs as [|c s Hc _ IH]; [reflexivity|].
  rewrite re_subE_miss by (apply HP, Hc). rewrite IH. reflexivity.
Qed.

End Engine.

(** [finditer] and the explicit chunking of [u_unescape] compute the
    substitution [pattern.sub]. *)

Lemma slice_snoc (pre : ustring) (c : N) (tl : ustring) (p0 : nat) :
  (p0 <= length pre)%nat ->
  slice (pre ++ c :: tl) p0 (S (length pre)) =
  slice (pre ++ c :: tl) p0 (length pre) ++ [c].
Proof.
  intros Hp. unfold slice.
  rewrite skipn_app. replace (p0 - length pre)%nat with 0%nat by lia.
  simpl skipn at 2 4.
  assert (Hl : length (skipn p0 pre) = (length pre - p0)%nat) by apply length_skipn.
  replace (S (length pre) - p0)%nat with (length (skipn p0 pre) + 1)%nat by lia.
  replace (length pre - p0)%nat with (length (skipn p0 pre) + 0)%nat by lia.
  rewrite !firstn_app_2. simpl. rewrite app_nil_r. reflexivity.
Qed.

Lemma slice_empty (s : ustring) (i : nat) : slice s i i = [].
Proof. unfold slice. rewrite Nat.sub_diag. reflexivity. Qed.

Lemma slice_to_end (s : ustring) (p0 : nat) :
  slice_from s p0 = slice s p0 (length s).
Proof.
  unfold slice, slice_from. rewrite firstn_all2; [reflexivity|].
  rewrite length_skipn. lia.
Qed.

Lemma u_iterchunks_finditer (m : matcher) (s : ustring) :
  matcher_wf m ->
  forall suf pre k pos p0,
    s = pre ++ suf -> pos = length pre ->
    (p0 <= pos + k)%nat -> (0 < k -> p0 = pos + k)%nat -> (k <= length suf)%nat ->
    join (u_iterchunks s p0 (finditer_from m k pos suf)) =
    (rest <- subE_from m numcharref_repl k suf ;; Ok (slice s p0 (pos + k) ++ rest)).
Proof.
  intros Hwf. induction suf as [|c tl IH]; intros pre k pos p0 Hs Hpos Hp0 Hk Hlen.
  - simpl in Hlen. assert (k = 0)%nat by lia. subst k. simpl.
    rewrite slice_to_end, Hs, app_nil_r, Nat.add_0_r, Hpos, !app_nil_r.
    reflexivity.
  - destruct k as [|k].
    + simpl. destruct (m (c :: tl)) as [[g len]|] eqn:Hm.
      * destruct (Hwf _ _ _ Hm) as [H1 H2]. simpl in H2.
        simpl. rewrite Nat.add_0_r.
        unfold numcharref_repl at 1.
        destruct (unichr (int_of_digits g)) as [u|e]; simpl; [|reflexivity].
        rewrite (IH (pre ++ [c]) (len - 1)%nat (S pos) (pos + len)%nat).
        -- replace (S pos + (len - 1))%nat with (pos + len)%nat by lia.
           rewrite slice_empty.
           destruct (subE_from m numcharref_repl (len - 1) tl); reflexivity.
        -- rewrite Hs, <- app_assoc. reflexivity.
        -- rewrite length_app. simpl. lia.
        -- lia.
        -- lia.
        -- lia.
      * rewrite (IH (pre ++ [c]) 0%nat (S pos) p0).
        -- rewrite !Nat.add_0_r.
           destruct (subE_from m numcharref_repl 0 tl); simpl; [|reflexivity].
           f_equal. subst pos s. rewrite slice_snoc by lia.
           rewrite <- app_assoc. reflexivity.
        -- rewrite Hs, <- app_assoc. reflexivity.
        -- rewrite length_app. simpl. lia.
        -- lia.
        -- lia.
        -- lia.
    + simpl. rewrite (IH (pre ++ [c]) k (S pos) p0).
      * replace (S pos + k)%nat with (pos + S k)%nat by lia. reflexivity.
      * rewrite Hs, <- app_assoc. reflexivity.
      * rewrite length_app. simpl. lia.
      * lia.
      * lia.
      * simpl in Hlen. lia.
Qed.

Lemma u_pattern_wf : matcher_wf u_pattern.
Proof.
  intros s g len. unfold u_pattern.
  destruct (strip_prefix u_open s) as [r|] eqn:Hp; [|discriminate].
  apply strip_prefix_Some in Hp.
  pose proof (span_spec is_digit r) as [Hr _].
  destruct (span is_digit r) as [ds r']. simpl in Hr.
  destruct r' as [|x r']; [discriminate|].
  destruct (x =? 93) eqn:Ex.
  2:{ destruct x as [|p]; [discriminate|].
      do 7 (destruct p; try discriminate). }
  apply N.eqb_eq in Ex. subst x.
  destruct ((3 <=? length ds)%nat && (length ds <=? 5)%nat); [|discriminate].
  intros H. injection H as <- <-. subst s r.
  rewrite !length_app. simpl. lia.
Qed.

(** [u_unescape] is the substitution of each escape by its character. *)
Lemma u_unescape_sub (s : ustring) :
  u_unescape s = re_subE u_pattern numcharref_repl s.
Proof.
  unfold u_unescape, finditer, re_subE.
  rewrite (u_iterchunks_finditer u_pattern s u_pattern_wf s [] 0 0 0)%nat;
    try reflexivity; try lia.
  rewrite slice_empty. destruct (subE_from _ _ _ _); reflexivity.
Qed.

(** ** Legacy codec *)

Example u_escape_ex :
  u_escape (ustr "caf" ++ [233] ++ ustr " ok") = ustr "caf?[\u233] ok".
Proof. reflexivity. Qed.

Example u_unescape_ex :
  u_unescape (ustr "caf?[\u233] ok?[\u12]")
  = Ok (ustr "caf" ++ [233] ++ ustr " ok?[\u12]").
Proof. reflexivity. Qed.

Lemma u_escape_cons (c : N) (s : ustring) :
  u_escape (c :: s) =
  (if c <=? 127 then [c] else u_open ++ format_d c ++ [93]) ++ u_escape s.
Proof. reflexivity. Qed.

Lemma u_escape_ascii_cons (c : N) (s : ustring) :
  c <= 127 -> u_escape (c :: s) = c :: u_escape s.
Proof.
  intros Hc. rewrite u_escape_cons.
  apply N.leb_le in Hc. rewrite Hc. reflexivity.
Qed.

Lemma u_escape_high_cons (c : N) (s : ustring) :
  127 < c -> u_escape (c :: s) = u_open ++ format_d c ++ 93 :: u_escape s.
Proof.
  intros Hc. rewrite u_escape_cons.
  apply N.leb_gt in Hc. rewrite Hc, <- !app_assoc. reflexivity.
Qed.

(** C9: every character of [u_escape s] is a code point of at most 127,
    whatever the input string [s]: a character up to 127 is copied, any
    other becomes the ASCII token [?[\u<decimal>]]. *)
Theorem u_escape_is_ascii (s : ustring) :
  Forall (fun c => c <= 127) (u_escape s).
Proof.
  induction s as [|c s IH]; [constructor|].
  rewrite u_escape_cons. apply Forall_app. split; [|exact IH].
  destruct (c <=? 127) eqn:E.
  - apply N.leb_le in E. repeat constructor. exact E.
  - apply Forall_app. split; [|apply Forall_app; split].
    + unfold u_open. repeat constructor; lia.
    + eapply Forall_impl; [|apply format_d_digits].
      intros d Hd. apply is_digit_iff in Hd. lia.
    + repeat constructor. lia.
Qed.

Lemma strip_prefix_u_escape (p : ustring) :
  Forall (fun x => x <= 127 /\ x <> 63) p ->
  forall t, strip_prefix p (u_escape t) = option_map u_escape (strip_prefix p t).
Proof.
  induction 1 as [|a p [Ha Ha'] _ IH]; intros t; [reflexivity|].
  destruct t as [|c t]; [reflexivity|].
  destruct (N.le_gt_cases c 127) as [Hc|Hc].
  - rewrite u_escape_ascii_cons by exact Hc. simpl.
    destruct (a =? c); [apply IH | reflexivity].
  - rewrite u_escape_high_cons by exact Hc. simpl.
    replace (a =? 63) with false by (symmetry; apply N.eqb_neq; exact Ha').
    replace (a =? c) with false by (symmetry; apply N.eqb_neq; lia).
    reflexivity.
Qed.

Lemma strip_prefix_cons (a : N) (p : ustring) (c : N) (t : ustring) :
  strip_prefix (a :: p) (c :: t) = if a =? c then strip_prefix p t else None.
Proof. reflexivity. Qed.

Lemma span_digit_u_escape (t : ustring) :
  span is_digit (u_escape t) =
  (fst (span is_digit t), u_escape (snd (span is_digit t))).
Proof.
  induction t as [|c t IH]; [reflexivity|].
  destruct (N.le_gt_cases c 127) as [Hc|Hc].
  - rewrite u_escape_ascii_cons by exact Hc. simpl.
    destruct (is_digit c) eqn:E.
    + rewrite IH. destruct (span is_digit t). reflexivity.
    + simpl. rewrite u_escape_ascii_cons by exact Hc. reflexivity.
  - assert (E : is_digit c = false).
    { destruct (is_digit c) eqn:E; [|reflexivity].
      apply is_digit_iff in E. lia. }
    simpl span at 2 3. rewrite E. simpl fst. simpl snd.
    rewrite u_escape_high_cons by exact Hc. reflexivity.
Qed.

Lemma u_escape_head (x : N) (t : ustring) :
  x <= 127 -> x <> 63 ->
  match u_escape t with y :: _ => y =? x | [] => false end
  = match t with y :: _ => y =? x | [] => false end.
Proof.
  intros Hx Hx'. destruct t as [|c t]; [reflexivity|].
  destruct (N.le_gt_cases c 127) as [Hc|Hc].
  - rewrite u_escape_ascii_cons by exact Hc. reflexivity.
  - rewrite u_escape_high_cons by exact Hc.
    change ((63 =? x) = (c =? x)).
    replace (c =? x) with false by (symmetry; apply N.eqb_neq; lia).
    apply N.eqb_neq. congruence.
Qed.

(** The pattern, written with a test of the character after the digits. *)
Lemma u_pattern_unfold (s : ustring) :
  u_pattern s =
  match strip_prefix u_open s with
  | None => None
  | Some r =>
      let ds := fst (span is_digit r) in
      if match snd (span is_digit r) with y :: _ => y =? 93 | [] => false end
      then if (3 <=? length ds)%nat && (length ds <=? 5)%nat
           then Some (ds, (4 + length ds + 1)%nat) else None
      else None
  end.
Proof.
  unfold u_pattern. destruct (strip_prefix u_open s) as [r|]; [|reflexivity].
  destruct (span is_digit r) as [ds r']. simpl.
  destruct r' as [|y r']; [reflexivity|].
  destruct (y =? 93) eqn:E.
  - apply N.eqb_eq in E. subst y. reflexivity.
  - destruct y as [|q]; [reflexivity|].
    do 7 (destruct q; try reflexivity); discriminate.
Qed.

(** Escaping the text after an ASCII character neither creates nor removes
    a match at that character. *)
Lemma u_pattern_u_escape (c : N) (t : ustring) :
  c <= 127 -> u_pattern (u_escape (c :: t)) = u_pattern (c :: t).
Proof.
  intros Hc. rewrite u_escape_ascii_cons by exact Hc.
  rewrite !u_pattern_unfold.
  change u_open with (63 :: [91; 92; 117]). rewrite !strip_prefix_cons.
  destruct (63 =? c); [|reflexivity].
  rewrite (strip_prefix_u_escape [91; 92; 117]) by (repeat constructor; lia).
  destruct (strip_prefix [91; 92; 117] t) as [r|]; [|reflexivity].
  simpl option_map. cbv iota beta.
  rewrite span_digit_u_escape. simpl fst. simpl snd.
  rewrite (u_escape_head 93) by lia. reflexivity.
Qed.

Lemma u_pattern_token (c : N) (rest : ustring) :
  128 <= c <= 99999 ->
  u_pattern (u_open ++ format_d c ++ 93 :: rest) =
  Some (format_d c, (4 + length (format_d c) + 1)%nat).
Proof.
  intros Hc. unfold u_pattern. rewrite strip_prefix_app.
  rewrite span_app_stop by (apply format_d_digits || reflexivity).
  destruct (format_d_length c Hc) as [H3 H5].
  apply Nat.leb_le in H3, H5. rewrite H3, H5. reflexivity.
Qed.

Lemma skipn_token (c : N) (rest : ustring) :
  skipn (4 + length (format_d c) + 1) (u_open ++ format_d c ++ 93 :: rest) = rest.
Proof.
  replace (u_open ++ format_d c ++ 93 :: rest)
    with ((u_open ++ format_d c ++ [93]) ++ rest)
    by (rewrite <- !app_assoc; reflexivity).
  replace (4 + length (format_d c) + 1)%nat
    with (length (u_open ++ format_d c ++ [93]))
    by (rewrite !length_app; simpl; lia).
  rewrite skipn_app, skipn_all, Nat.sub_diag. reflexivity.
Qed.

(** C2, as the code has it: [u_unescape (u_escape s)] gives back [s] for
    every string [s] that holds no escape token [?[\uDDD]] (3 to 5 digits)
    of its own and whose code points are at most 99999, the largest number
    the 5 digits of the pattern can spell. *)
Theorem u_unescape_u_escape (s : ustring) :
  has_escape s = false ->
  Forall (fun c => c <= 99999) s ->
  u_unescape (u_escape s) = Ok s.
Proof.
  rewrite u_unescape_sub. intros Hesc Hs.
  induction Hs as [|c s Hc _ IH]; [reflexivity|].
  simpl in Hesc. apply orb_false_iff in Hesc. destruct Hesc as [Hhd Htl].
  specialize (IH Htl).
  destruct (N.le_gt_cases c 127) as [Hlo|Hhi].
  - assert (Hm : u_pattern (u_escape (c :: s)) = None).
    { rewrite u_pattern_u_escape by exact Hlo.
      destruct (u_pattern (c :: s)); [discriminate | reflexivity]. }
    rewrite u_escape_ascii_cons in * by exact Hlo.
    rewrite re_subE_miss by exact Hm. rewrite IH. reflexivity.
  - rewrite u_escape_high_cons by exact Hhi.
    rewrite (re_subE_hit _ _ _ (format_d c) (4 + length (format_d c) + 1)).
    + rewrite skipn_token, IH. unfold numcharref_repl, unichr.
      rewrite int_of_format_d.
      replace (c <=? maxunicode) with true
        by (symmetry; apply N.leb_le; unfold maxunicode; lia).
      reflexivity.
    + discriminate.
    + apply u_pattern_token. lia.
    + lia.
Qed.

(** The round trip on a string with a non-ASCII letter and text that only
    resembles an escape. *)
Lemma u_unescape_u_escape_witness :
  u_unescape (u_escape (ustr "caf" ++ [233; 8364] ++ ustr " ?[\u12] ?[u233]"))
  = Ok (ustr "caf" ++ [233; 8364] ++ ustr " ?[\u12] ?[u233]").
Proof.
  apply u_unescape_u_escape.
  - reflexivity.
  - repeat constructor; vm_compute; discriminate.
Defined.

(** C2 as stated fails: a string that already holds an escape token comes
    back changed, the token being read as the character it spells. *)
Lemma u_unescape_u_escape_counterexample :
  u_unescape (u_escape (ustr "?[\u233]")) <> Ok (ustr "?[\u233]").
Proof. vm_compute. discriminate. Qed.

(** A code point above 99999 is escaped with 6 or more digits, which
    [\d{3,5}] does not read back. *)
Lemma u_unescape_six_digits :
  u_unescape (u_escape [128512]) = Ok (u_open ++ ustr "128512]").
Proof. reflexivity. Qed.

(** ** Combining marks *)

Section Combining.

Variable ud : Unicodedata.

Lemma drain_app (comb n : ustring) : drain n comb = n ++ comb.
Proof.
  revert n. induction comb as [|c comb IH]; intros n; simpl.
  - symmetry. apply app_nil_r.
  - rewrite IH, <- app_assoc. reflexivity.
Qed.

(** A run of combining marks only grows the buffer. *)
Lemma reorder_marks (marks : ustring) :
  Forall (fun c => is_combining ud c = true) marks ->
  forall n comb,
    fold_left (reorder_step ud) marks (n, comb) = (n, rev marks ++ comb).
Proof.
  induction 1 as [|c marks Hc _ IH]; intros n comb; [reflexivity|].
  simpl. rewrite Hc, IH, <- app_assoc. reflexivity.
Qed.

(** What was emitted stays in front of everything emitted later. *)
Lemma reorder_emitted (s : ustring) : forall n comb,
  fold_left (reorder_step ud) s (n, comb) =
  (n ++ fst (fold_left (reorder_step ud) s ([], comb)),
   snd (fold_left (reorder_step ud) s ([], comb))).
Proof.
  induction s as [|c s IH]; intros n comb; simpl.
  - rewrite app_nil_r. reflexivity.
  - destruct (is_combining ud c).
    + apply IH.
    + rewrite IH, (IH (drain _ _)). simpl.
      rewrite !drain_app, <- !app_assoc. reflexivity.
Qed.

Lemma reorder_base (marks : ustring) (base : N) (rest : ustring) :
  Forall (fun c => is_combining ud c = true) marks ->
  is_combining ud base = false ->
  reorder_combining ud (marks ++ base :: rest) =
  base :: rev marks ++ reorder_combining ud rest.
Proof.
  intros Hm Hb. unfold reorder_combining.
  rewrite fold_left_app, (reorder_marks _ Hm). simpl.
  rewrite Hb, reorder_emitted, drain_app, app_nil_r. reflexivity.
Qed.

Lemma reorder_inert (s : ustring) :
  Forall (fun c => is_combining ud c = false) s -> reorder_combining ud s = s.
Proof.
  induction 1 as [|c s Hc _ IH]; [reflexivity|].
  pose proof (reorder_base [] c s (Forall_nil _) Hc) as E.
  simpl in E. rewrite E, IH. reflexivity.
Qed.

Lemma reject_combining_existsb (out : ustring -> bool) (s rest : ustring) :
  reject_combining ud out s rest =
  if existsb (is_combining ud) rest
  then if out s then Raise ValueError else Raise UnicodeEncodeError
  else Ok tt.
Proof.
  induction rest as [|c rest IH]; [reflexivity|]. simpl.
  destruct (is_combining ud c); [|exact IH].
  unfold print_unicode. destruct (out s); reflexivity.
Qed.

End Combining.

Lemma reorder_state_perm (ud : Unicodedata) (s : ustring) :
  forall st : ustring * ustring,
  Permutation
    (fst (fold_left (reorder_step ud) s st) ++ snd (fold_left (reorder_step ud) s st))
    (fst st ++ snd st ++ s).
Proof.
  induction s as [|c s IH]; intros [n comb]; simpl.
  - rewrite app_nil_r. reflexivity.
  - destruct (is_combining ud c).
    + rewrite IH. apply Permutation_app_head.
      apply (Permutation_middle comb s c).
    + rewrite IH, drain_app. simpl. rewrite <- !app_assoc. simpl.
      apply Permutation_app_head. apply (Permutation_middle comb s c).
Qed.

(** C10: when a string ends in combining marks that no base character
    follows, the reordering pass of [ulatex_postprocess] drops them: the
    output is the one of the string without those marks (nothing at all
    for a string of marks alone), and it is made of the characters that
    stand before the marks and of nothing else. *)
Theorem reorder_drops_trailing_marks (ud : Unicodedata) (s marks : ustring) :
  Forall (fun c => is_combining ud c = true) marks ->
  reorder_combining ud (s ++ marks) = reorder_combining ud s
  /\ reorder_combining ud marks = []
  /\ (forall s' base, s = s' ++ [base] -> is_combining ud base = false ->
      Permutation (reorder_combining ud (s ++ marks)) s).
Proof.
  intros Hm.
  assert (Hdrop : reorder_combining ud (s ++ marks) = reorder_combining ud s).
  { unfold reorder_combining. rewrite fold_left_app.
    destruct (fold_left (reorder_step ud) s ([], [])) as [n comb].
    rewrite (reorder_marks ud _ Hm). reflexivity. }
  split; [exact Hdrop|]. split.
  - unfold reorder_combining. rewrite (reorder_marks ud _ Hm). reflexivity.
  - intros s' base -> Hbase. rewrite Hdrop.
    unfold reorder_combining. rewrite fold_left_app.
    match goal with
    | |- context [fold_left (reorder_step ud) s' ?st0] =>
        pose proof (reorder_state_perm ud s' st0) as Hperm;
        destruct (fold_left (reorder_step ud) s' st0) as [n comb]
    end.
    simpl in *. rewrite Hbase, drain_app. simpl. rewrite <- app_assoc. simpl.
    rewrite <- Permutation_middle, Hperm. apply Permutation_cons_append.
Qed.

Lemma reorder_drops_trailing_marks_witness :
  reorder_combining ucd_excerpt (ustr "ae" ++ [769; 776])
  = reorder_combining ucd_excerpt (ustr "ae")
  /\ reorder_combining ucd_excerpt [769; 776] = []
  /\ (forall s' base, ustr "ae" = s' ++ [base] ->
      is_combining ucd_excerpt base = false ->
      Permutation (reorder_combining ucd_excerpt (ustr "ae" ++ [769; 776]))
        (ustr "ae")).
Proof.
  apply (reorder_drops_trailing_marks ucd_excerpt (ustr "ae") [769; 776]).
  repeat constructor.
Defined.

(** C4, as the code has it: the marks buffered in front of a base character
    are emitted after it last-buffered first ([comb.pop()]), that is in the
    reverse of the order in which they stand in the text; with two marks
    the one written next to the base letter comes first. *)
Theorem reorder_reverses_stacked_marks (ud : Unicodedata)
  (marks : ustring) (base : N) (rest : ustring) :
  Forall (fun c => is_combining ud c = true) marks ->
  is_combining ud base = false ->
  reorder_combining ud (marks ++ base :: rest) =
  base :: rev marks ++ reorder_combining ud rest.
Proof.
  intros Hm Hb. unfold reorder_combining.
  rewrite fold_left_app, (reorder_marks _ _ Hm). simpl.
  rewrite Hb, reorder_emitted, drain_app, app_nil_r. reflexivity.
Qed.

Lemma reorder_reverses_stacked_marks_witness :
  reorder_combining ucd_excerpt ([769; 770] ++ 97 :: ustr "e") =
  97 :: rev [769; 770] ++ reorder_combining ucd_excerpt (ustr "e").
Proof.
  apply (reorder_reverses_stacked_marks ucd_excerpt [769; 770] 97 (ustr "e")).
  - repeat constructor.
  - reflexivity.
Defined.

(** C4 as stated fails: acute then circumflex before [a] come out as [a],
    circumflex, acute, so the order of the two marks is not kept. *)
Lemma reorder_keeps_order_counterexample :
  reorder_combining ucd_excerpt [769; 770; 97] <> [97; 769; 770].
Proof. vm_compute. discriminate. Qed.

(** ** Pre-processing *)

(** C3, as the code has it: for input that is valid UTF-8,
    [ulatex_preprocess] raises exactly when the NFC form of the decoded text
    still holds a character whose Unicode name starts with COMBINING, and
    otherwise returns that NFC form.  What it raises is [ValueError], after
    it has printed the text; when the standard output cannot encode the
    text, the [print] raises [UnicodeEncodeError], a subclass of
    [ValueError], in its place.  A mark that NFC composes with the letter
    before it is not reported. *)
Theorem ulatex_preprocess_raises (ud : Unicodedata) (out : ustring -> bool)
  (s : py_string) (u : ustring) :
  decode_utf8 s = Ok u ->
  (raises (ulatex_preprocess ud out s) = true
   <-> exists c, In c (ud_normalize_NFC ud u) /\ is_combining ud c = true)
  /\ ulatex_preprocess ud out s =
     if existsb (is_combining ud) (ud_normalize_NFC ud u)
     then if out (ud_normalize_NFC ud u)
          then Raise ValueError
          else Raise UnicodeEncodeError
     else Ok (ud_normalize_NFC ud u).
Proof.
  intros Hd.
  assert (E : ulatex_preprocess ud out s =
              if existsb (is_combining ud) (ud_normalize_NFC ud u)
              then if out (ud_normalize_NFC ud u)
                   then Raise ValueError
                   else Raise UnicodeEncodeError
              else Ok (ud_normalize_NFC ud u)).
  { unfold ulatex_preprocess. rewrite Hd. cbn [bind].
    rewrite reject_combining_existsb.
    destruct (existsb (is_combining ud) (ud_normalize_NFC ud u));
      [destruct (out (ud_normalize_NFC ud u))|]; reflexivity. }
  split; [|exact E]. rewrite E.
  destruct (existsb (is_combining ud) (ud_normalize_NFC ud u)) eqn:Ex.
  - split.
    + intros _. apply existsb_exists in Ex. exact Ex.
    + intros _. destruct (out (ud_normalize_NFC ud u)); reflexivity.
  - split; [discriminate|].
    intros Hex. apply existsb_exists in Hex. congruence.
Qed.

Lemma ulatex_preprocess_raises_witness :
  ((raises (ulatex_preprocess ucd_excerpt stdout_utf8 (PyStr [120; 204; 129])) = true
    <-> exists c, In c (ud_normalize_NFC ucd_excerpt [120; 769])
                  /\ is_combining ucd_excerpt c = true)
   /\ ulatex_preprocess ucd_excerpt stdout_utf8 (PyStr [120; 204; 129])
      = Raise ValueError)
  /\ ((raises (ulatex_preprocess ucd_excerpt stdout_ascii (PyStr [120; 204; 129])) = true
       <-> exists c, In c (ud_normalize_NFC ucd_excerpt [120; 769])
                     /\ is_combining ucd_excerpt c = true)
      /\ ulatex_preprocess ucd_excerpt stdout_ascii (PyStr [120; 204; 129])
         = Raise UnicodeEncodeError).
Proof.
  split.
  - apply (ulatex_preprocess_raises ucd_excerpt stdout_utf8
             (PyStr [120; 204; 129]) [120; 769]).
    reflexivity.
  - apply (ulatex_preprocess_raises ucd_excerpt stdout_ascii
             (PyStr [120; 204; 129]) [120; 769]).
    reflexivity.
Defined.

(** C3 as stated fails: the UTF-8 bytes of [e] followed by U+0301 COMBINING
    ACUTE ACCENT hold a combining mark, yet nothing is raised, because NFC
    has already composed the two into U+00E9. *)
Lemma ulatex_preprocess_counterexample :
  utf8_decode [101; 204; 129] = Ok [101; 769]
  /\ is_combining ucd_excerpt 769 = true
  /\ ulatex_preprocess ucd_excerpt stdout_ascii (PyStr [101; 204; 129]) = Ok [233]
  /\ ulatex_preprocess ucd_excerpt stdout_utf8 (PyStr [101; 204; 129]) = Ok [233].
Proof. repeat split. Qed.

(** ** Text the post-processing passes leave alone *)

Lemma strip_prefix_head (h : N) (p : ustring) (c : N) (t : ustring) :
  c <> h -> strip_prefix (h :: p) (c :: t) = None.
Proof.
  intros Hc. simpl. replace (h =? c) with false; [reflexivity|].
  symmetry. apply N.eqb_neq. congruence.
Qed.

Lemma braced_arg_head (h : N) (p : ustring) (c : N) (t : ustring) :
  c <> h -> braced_arg (h :: p) (c :: t) = None.
Proof. intros Hc. unfold braced_arg. rewrite strip_prefix_head by exact Hc. reflexivity. Qed.

Lemma literal_head (h : N) (p : ustring) (c : N) (t : ustring) :
  c <> h -> literal (h :: p) (c :: t) = None.
Proof. intros Hc. unfold literal. rewrite strip_prefix_head by exact Hc. reflexivity. Qed.

Lemma numcharref_pattern1_head (c : N) (t : ustring) :
  c <> 92 -> c <> 38 -> numcharref_pattern1 (c :: t) = None.
Proof.
  intros H1 H2. unfold numcharref_pattern1, numcharref_amp.
  rewrite strip_prefix_head by exact H2.
  destruct c as [|q]; [reflexivity|].
  do 7 (destruct q; try reflexivity). congruence.
Qed.

Lemma numcharref_pattern2_head (c : N) (t : ustring) :
  c <> 63 -> numcharref_pattern2 (c :: t) = None.
Proof.
  intros H. unfold numcharref_pattern2, u_open.
  rewrite strip_prefix_head by exact H. reflexivity.
Qed.

Lemma language_tag_pattern_head (c : N) (t : ustring) :
  c <> 92 -> language_tag_pattern (c :: t) = None.
Proof.
  intros H. unfold language_tag_pattern.
  destruct c as [|q]; [reflexivity|].
  do 7 (destruct q; try reflexivity). congruence.
Qed.

(** An inert prefix is copied. *)
Lemma re_sub_prefix (m : matcher) repl (P : N -> Prop) (pre s : ustring) :
  (forall c t, P c -> m (c :: t) = None) ->
  Forall P pre -> re_sub m repl (pre ++ s) = pre ++ re_sub m repl s.
Proof.
  intros HP Hpre. induction Hpre as [|c pre Hc _ IH]; [reflexivity|].
  simpl. rewrite re_sub_miss by (apply HP, Hc). f_equal. exact IH.
Qed.

Lemma re_subE_prefix (m : matcher) repl (P : N -> Prop) (pre s : ustring) :
  (forall c t, P c -> m (c :: t) = None) ->
  Forall P pre ->
  re_subE m repl (pre ++ s) = (rest <- re_subE m repl s ;; Ok (pre ++ rest)).
Proof.
  intros HP Hpre. induction Hpre as [|c pre Hc _ IH].
  - simpl. destruct (re_subE m repl s); reflexivity.
  - simpl. rewrite re_subE_miss by (apply HP, Hc). rewrite IH.
    destruct (re_subE m repl s); reflexivity.
Qed.

Lemma is_plain_spec (c : N) :
  is_plain c = true -> c <> 92 /\ c <> 123 /\ c <> 38 /\ c <> 63.
Proof.
  unfold is_plain. rewrite negb_true_iff, !orb_false_iff, !N.eqb_neq. tauto.
Qed.

Lemma Forall_plain (t : ustring) :
  Forall (fun c => is_plain c = true) t ->
  Forall (fun c => c <> 92) t /\ Forall (fun c => c <> 123) t
  /\ Forall (fun c => c <> 92 /\ c <> 38) t /\ Forall (fun c => c <> 63) t.
Proof.
  intros H. repeat split; eapply Forall_impl; try exact H;
    intros c Hc; apply is_plain_spec in Hc; tauto.
Qed.

(** A command pattern on text whose only backslash, if any, is the first
    character: it matches at the head or not at all. *)
Lemma braced_arg_clean_tail (p : ustring) (s : ustring) :
  Forall (fun c => c <> 92) (tl s) ->
  braced_arg (92 :: p) s = None ->
  re_sub (braced_arg (92 :: p)) (fun arg => arg) s = s.
Proof.
  intros Htl Hm. destruct s as [|c s]; [reflexivity|].
  rewrite re_sub_miss by exact Hm. f_equal.
  apply (re_sub_inert _ _ (fun c => c <> 92)); [|exact Htl].
  intros; apply braced_arg_head; assumption.
Qed.

Lemma braced_arg_inert (h : N) (p s : ustring) :
  Forall (fun c => c <> h) s ->
  re_sub (braced_arg (h :: p)) (fun arg => arg) s = s.
Proof.
  intros Hs. apply (re_sub_inert _ _ (fun c => c <> h)); [|exact Hs].
  intros; apply braced_arg_head; assumption.
Qed.

Lemma command_patterns_inert (s : ustring) :
  Forall (fun c => c <> 92) s ->
  fold_left (fun s p => re_sub p (fun arg => arg) s) command_patterns s = s.
Proof.
  intros Hs. unfold command_patterns, command_pattern. simpl.
  repeat rewrite (braced_arg_inert _ _ s) by exact Hs. reflexivity.
Qed.

Lemma str_replace_inert (h : N) (p new s : ustring) :
  Forall (fun c => c <> h) s -> str_replace (h :: p) new s = s.
Proof.
  intros Hs. unfold str_replace.
  apply (re_sub_inert _ _ (fun c => c <> h)); [|exact Hs].
  intros; apply literal_head; assumption.
Qed.

Lemma strip_braces_inert (s : ustring) :
  Forall (fun c => c <> 123) s -> strip_braces s = s.
Proof.
  intros Hs. unfold strip_braces, debracket.
  rewrite str_replace_inert by exact Hs.
  repeat rewrite (braced_arg_inert _ _ s) by exact Hs. reflexivity.
Qed.

Lemma strip_commands_inert (s : ustring) :
  Forall (fun c => c <> 92) s -> strip_commands s = s.
Proof.
  intros Hs. unfold strip_commands, stripped_commands. simpl.
  repeat rewrite (str_replace_inert _ _ _ s) by exact Hs. reflexivity.
Qed.

Lemma recode_language_tags_inert (s : ustring) :
  Forall (fun c => c <> 92) s -> recode_language_tags s = s.
Proof.
  intros Hs. unfold recode_language_tags.
  apply (re_sub_inert _ _ (fun c => c <> 92)); [|exact Hs].
  intros; apply language_tag_pattern_head; assumption.
Qed.

Lemma numcharref1_inert (s : ustring) :
  Forall (fun c => c <> 92 /\ c <> 38) s ->
  re_subE numcharref_pattern1 numcharref_repl s = Ok s.
Proof.
  apply re_subE_inert. intros c t [H1 H2].
  apply numcharref_pattern1_head; assumption.
Qed.

Lemma numcharref2_inert (s : ustring) :
  Forall (fun c => c <> 63) s ->
  re_subE numcharref_pattern2 numcharref_repl s = Ok s.
Proof.
  apply re_subE_inert. intros c t H.
  apply numcharref_pattern2_head; assumption.
Qed.

(** [s.replace('\\' + cmd + ' ', '')] on text whose only backslash, if any,
    is the first character. *)
Lemma str_replace_clean_tail (p : ustring) (s : ustring) :
  Forall (fun c => c <> 92) (tl s) ->
  str_replace (92 :: p) [] s =
  match strip_prefix (92 :: p) s with Some r => r | None => s end.
Proof.
  intros Htl. unfold str_replace.
  destruct s as [|c s]; [reflexivity|]. simpl tl in Htl.
  destruct (strip_prefix (92 :: p) (c :: s)) as [r|] eqn:E.
  - rewrite (re_sub_hit _ _ _ [] (length (92 :: p))).
    + apply strip_prefix_Some in E. rewrite E at 1.
      rewrite skipn_app, skipn_all, Nat.sub_diag. simpl.
      apply (re_sub_inert _ _ (fun c => c <> 92)).
      * intros; apply literal_head; assumption.
      * injection E as _ E. rewrite E in Htl.
        apply Forall_app in Htl. tauto.
    + discriminate.
    + unfold literal. rewrite E. reflexivity.
    + simpl. lia.
  - rewrite re_sub_miss by (unfold literal; rewrite E; reflexivity).
    f_equal. apply (re_sub_inert _ _ (fun c => c <> 92)); [|exact Htl].
    intros; apply literal_head; assumption.
Qed.

Lemma strip_prefix_clean (p t : ustring) :
  Forall (fun c => c <> 92) t -> strip_prefix (92 :: p) t = None.
Proof.
  intros Ht. destruct Ht as [|c t Hc _]; [reflexivity|].
  apply strip_prefix_head. exact Hc.
Qed.

(** ** Post-processing *)

(** Closes [Forall P (c1 :: .. :: cn :: t)] for explicit characters [ci],
    given [Forall P t] among the hypotheses. *)
Ltac forall_chars :=
  repeat (apply Forall_cons; [solve [discriminate | split; discriminate | reflexivity] |]);
  solve [assumption | apply Forall_nil].

Lemma strip_prefix_nil (s : ustring) : strip_prefix [] s = Some s.
Proof. destruct s; reflexivity. Qed.

(** Evaluates [strip_prefix] of explicit prefixes on text that is explicit up
    to a tail [t] without backslash. *)
Ltac strip_prefixes t H92 :=
  repeat first
    [ rewrite (strip_prefix_clean _ t) by exact H92
    | rewrite strip_prefix_cons; cbn [N.eqb Pos.eqb]
    | rewrite strip_prefix_nil ].

Lemma strip_prefix_suffix (p s r : ustring) (P : N -> Prop) :
  strip_prefix p s = Some r -> Forall P s -> Forall P r.
Proof.
  intros E Hs. apply strip_prefix_Some in E. subst s.
  apply Forall_app in Hs. tauto.
Qed.

Lemma Forall_tl (P : N -> Prop) (s : ustring) : Forall P s -> Forall P (tl s).
Proof. intros [|c s' _ H]; [constructor | exact H]. Qed.

(** The loop over the commands to delete, on text whose only backslash, if
    any, is the first character. *)
Lemma strip_commands_clean_tail (s : ustring) :
  Forall (fun c => c <> 92) (tl s) ->
  strip_commands s =
  fold_left (fun s cmd =>
               match strip_prefix (92 :: cmd ++ [32]) s with
               | Some r => r
               | None => s
               end) stripped_commands s.
Proof.
  unfold strip_commands. generalize stripped_commands as cmds.
  intros cmds. revert s. induction cmds as [|cmd cmds IH]; intros s Hs; [reflexivity|].
  cbn [fold_left]. rewrite str_replace_clean_tail by exact Hs. apply IH.
  destruct (strip_prefix (92 :: cmd ++ [32]) s) as [r|] eqn:E; [|exact Hs].
  apply Forall_tl. destruct s as [|c s]; [discriminate|].
  rewrite strip_prefix_cons in E. destruct (92 =? c); [|discriminate].
  simpl in Hs. eapply strip_prefix_suffix; eassumption.
Qed.

(** The passes before the numeric references, on text with at most one
    backslash that starts no command taking an argument. *)
Lemma command_patterns_one_backslash (pre s : ustring) :
  Forall (fun c => c <> 92) pre ->
  Forall (fun c => c <> 92) (tl s) ->
  Forall (fun p : matcher => p s = None) command_patterns ->
  fold_left (fun s p => re_sub p (fun arg => arg) s) command_patterns (pre ++ s)
  = pre ++ s.
Proof.
  intros Hpre Htl Hm. unfold command_patterns, command_names, command_pattern in *.
  cbn [map fold_left app] in *.
  repeat match goal with
  | H : Forall _ (_ :: _) |- _ => inversion H; clear H; subst
  end.
  repeat (rewrite (re_sub_prefix _ _ (fun c => c <> 92) pre s);
          [ rewrite (braced_arg_clean_tail _ s) by assumption
          | intros; apply braced_arg_head; assumption
          | exact Hpre ]).
  reflexivity.
Qed.

Lemma early_stages (ud : Unicodedata) (s : ustring) :
  fold_left (fun s p => re_sub p (fun arg => arg) s) command_patterns s = s ->
  Forall (fun c => c <> 123) s ->
  Forall (fun c => is_combining ud c = false) s ->
  ulatex_postprocess ud (PyUnicode s) =
  (r <- resolve_numcharrefs s ;;
   Ok (ud_normalize_NFC ud (recode_language_tags (strip_commands r)))).
Proof.
  intros H1 H2 H3. unfold ulatex_postprocess. cbn [bind].
  rewrite H1, strip_braces_inert, reorder_inert by assumption. reflexivity.
Qed.

Lemma is_digit_not (d x : N) :
  is_digit d = true -> (x < 48 \/ 57 < x) -> d <> x.
Proof. intros Hd Hx. apply is_digit_iff in Hd. lia. Qed.

Lemma digits_avoid (x : N) (dec : ustring) :
  Forall (fun c => is_digit c = true) dec -> (x < 48 \/ 57 < x) ->
  Forall (fun c => c <> x) dec.
Proof.
  intros Hd Hx. eapply Forall_impl; [|exact Hd].
  intros d H. apply (is_digit_not d x H Hx).
Qed.

Lemma numcharref_pattern1_amp (dec rest : ustring) :
  dec <> [] -> Forall (fun c => is_digit c = true) dec ->
  numcharref_pattern1 (numcharref_amp ++ dec ++ 59 :: rest)
  = Some (dec, (2 + length dec + 1)%nat).
Proof.
  intros Hne Hd. unfold numcharref_pattern1.
  change (numcharref_amp ++ dec ++ 59 :: rest) with (38 :: 35 :: dec ++ 59 :: rest).
  cbv iota. change (38 :: 35 :: dec ++ 59 :: rest) with (numcharref_amp ++ dec ++ 59 :: rest).
  rewrite strip_prefix_app, span_app_stop by (assumption || reflexivity).
  destruct dec; [congruence | reflexivity].
Qed.

Lemma numcharref_pattern1_backslash_amp (dec rest : ustring) :
  dec <> [] -> Forall (fun c => is_digit c = true) dec ->
  numcharref_pattern1 (92 :: numcharref_amp ++ dec ++ 59 :: rest)
  = Some (dec, S (2 + length dec + 1)%nat).
Proof.
  intros Hne Hd. unfold numcharref_pattern1. cbv iota.
  rewrite strip_prefix_app, span_app_stop by (assumption || reflexivity).
  destruct dec; [congruence | reflexivity].
Qed.

Lemma numcharref_pattern2_u (dec rest : ustring) :
  dec <> [] -> Forall (fun c => is_digit c = true) dec ->
  numcharref_pattern2 (u_open ++ dec ++ 93 :: rest)
  = Some (dec, (4 + 0 + length dec + 1)%nat).
Proof.
  intros Hne Hd. unfold numcharref_pattern2. rewrite strip_prefix_app.
  destruct dec as [|d dec]; [congruence|].
  assert (Hsp : span is_space ((d :: dec) ++ 93 :: rest) = ([], (d :: dec) ++ 93 :: rest)).
  { simpl. replace (is_space d) with false; [reflexivity|].
    inversion Hd as [|? ? Hd1 _]; subst. apply is_digit_iff in Hd1.
    symmetry. unfold is_space. apply orb_false_iff. split.
    - apply N.eqb_neq. lia.
    - apply andb_false_iff. right. apply N.leb_gt. lia. }
  rewrite Hsp, span_app_stop by (assumption || reflexivity). reflexivity.
Qed.


Lemma numcharref_repl_ok (dec : ustring) :
  int_of_digits dec <= maxunicode ->
  numcharref_repl dec = Ok [int_of_digits dec].
Proof.
  intros H. unfold numcharref_repl, unichr.
  apply N.leb_le in H. rewrite H. reflexivity.
Qed.

(** C5 as stated fails: [\relax ] spelled with the numeric reference
    [&#92;] is deleted, where the order of stages given in the
    specification would leave it in the text. *)
Lemma stage_order_counterexample :
  ulatex_postprocess ucd_excerpt (PyUnicode (ustr "&#92;relax x")) = Ok (ustr "x")
  /\ spec_postprocess ucd_excerpt (ustr "&#92;relax x") = Ok (ustr "\relax x").
Proof. split; reflexivity. Qed.

(** The two examples of the specification: both spellings of 233 give
    U+00E9. *)
Example numcharref_233 :
  ulatex_postprocess ucd_excerpt (PyUnicode (ustr "&#233;")) = Ok [233]
  /\ ulatex_postprocess ucd_excerpt (PyUnicode (ustr "?[\u233]")) = Ok [233].
Proof. split; reflexivity. Qed.

(** A reference to a number above [sys.maxunicode] makes [unichr] raise. *)
Example numcharref_out_of_range :
  ulatex_postprocess ucd_excerpt (PyUnicode (ustr "&#1114112;")) = Raise ValueError.
Proof. reflexivity. Qed.

(** ** Language tags *)

Lemma diverge_strip_prefix (a b r : ustring) :
  diverge a b = true -> strip_prefix a (b ++ r) = None.
Proof.
  revert b. induction a as [|x a IH]; intros b H; [discriminate|].
  destruct b as [|y b]; [discriminate|]. simpl in *.
  destruct (x =? y); [apply IH, H | reflexivity].
Qed.

Lemma diverge_irrefl (a : ustring) : diverge a a = false.
Proof.
  induction a as [|x a IH]; [reflexivity|]. simpl. rewrite N.eqb_refl. exact IH.
Qed.

Lemma ueqb_eq (a b : ustring) : ueqb a b = true <-> a = b.
Proof.
  unfold ueqb. destruct (list_eq_dec N.eq_dec a b); split; congruence.
Qed.

Lemma span_space_app (ws r : ustring) :
  Forall (fun c => is_space c = true) ws -> starts_with_space r = false ->
  span is_space (ws ++ r) = (ws, r).
Proof.
  intros Hws Hr. destruct r as [|c r].
  - rewrite app_nil_r. apply span_all, Hws.
  - apply span_app_stop; assumption.
Qed.

(** Among keys none of which is a prefix of another, the alternation picks
    the key that is there, whatever their order. *)
Lemma match_tags_hit (keys : list ustring) (k ws r : ustring) :
  In k keys ->
  (forall k', In k' keys -> ueqb k' k || diverge k' k = true) ->
  Forall (fun c => is_space c = true) ws -> ws <> [] ->
  starts_with_space r = false ->
  match_tags keys (k ++ ws ++ r) = Some (k, (length k + length ws)%nat).
Proof.
  intros Hin Hfree Hws Hne Hr. induction keys as [|k' ks IH]; [contradiction|].
  simpl. pose proof (Hfree k' (or_introl eq_refl)) as Hk'.
  apply orb_true_iff in Hk'. destruct Hk' as [Heq|Hdiv].
  - apply ueqb_eq in Heq. subst k'.
    rewrite strip_prefix_app, span_space_app by assumption. simpl.
    destruct ws; [congruence | reflexivity].
  - rewrite diverge_strip_prefix by exact Hdiv. apply IH.
    + destruct Hin as [->|Hin]; [|exact Hin].
      rewrite diverge_irrefl in Hdiv. discriminate.
    + intros k'' H. apply Hfree. right. exact H.
Qed.

Lemma language_tags_ok : forallb tag_entry_ok language_tags = true.
Proof. vm_compute. reflexivity. Qed.

Lemma is_space_plain (c : N) : is_space c = true -> is_plain c = true.
Proof.
  unfold is_space, is_plain. intros H.
  apply orb_true_iff in H. rewrite andb_true_iff, N.eqb_eq, !N.leb_le in H.
  apply negb_true_iff. rewrite !orb_false_iff, !N.eqb_neq. lia.
Qed.

Lemma skipn_app_exact (n : nat) (a b : ustring) :
  n = length a -> skipn n (a ++ b) = b.
Proof. intros ->. rewrite skipn_app, skipn_all, Nat.sub_diag. reflexivity. Qed.

Lemma language_tag_hit (k v ws rest : ustring) :
  In (k, v) language_tags ->
  Forall (fun c => is_space c = true) ws -> ws <> [] ->
  starts_with_space rest = false ->
  recode_language_tags (92 :: k ++ ws ++ rest) =
  91 :: v ++ 93 :: 32 :: recode_language_tags rest.
Proof.
  intros Hin Hws Hne Hrest.
  pose proof language_tags_ok as Hok. rewrite forallb_forall in Hok.
  specialize (Hok _ Hin). unfold tag_entry_ok in Hok. simpl fst in Hok. simpl snd in Hok.
  rewrite !andb_true_iff in Hok.
  destruct Hok as (((((Hfree & _) & _) & _) & _) & Hget).
  rewrite forallb_forall in Hfree. apply ueqb_eq in Hget.
  unfold recode_language_tags.
  rewrite (re_sub_hit _ _ _ k (S (length k + length ws))).
  - rewrite Hget. simpl skipn.
    rewrite (app_assoc k ws rest).
    rewrite skipn_app_exact by (rewrite length_app; reflexivity).
    simpl. rewrite <- app_assoc. reflexivity.
  - discriminate.
  - unfold language_tag_pattern.
    rewrite (match_tags_hit _ k ws rest); try assumption; [reflexivity|].
    apply in_map_iff. exists (k, v). split; [reflexivity | exact Hin].
  - lia.
Qed.

(** The example of the specification. *)
Example latin_foo :
  ulatex_postprocess ucd_excerpt (PyUnicode (ustr "\latin foo"))
  = Ok (ustr "[lat] foo").
Proof. reflexivity. Qed.

(** ** Registration of the symbol table *)

Lemma ltb_lt (a b : string) :
  String.ltb a b = true <-> OrderedTypeEx.String_as_OT.lt a b.
Proof.
  rewrite <- OrderedTypeEx.String_as_OT.cmp_lt.
  unfold String.ltb, OrderedTypeEx.String_as_OT.cmp.
  destruct (String.compare a b); split; congruence.
Qed.

Lemma ltb_trans (a b c : string) :
  String.ltb a b = true -> String.ltb b c = true -> String.ltb a c = true.
Proof.
  rewrite !ltb_lt. apply OrderedTypeEx.String_as_OT.lt_trans.
Qed.

Lemma ltb_irrefl (a : string) : String.ltb a a = false.
Proof.
  destruct (String.ltb a a) eqn:E; [|reflexivity].
  apply ltb_lt in E. exfalso.
  exact (OrderedTypeEx.String_as_OT.lt_not_eq _ _ E eq_refl).
Qed.

Lemma not_ltb_ge (a b : string) : String.ltb a b = false -> name_ge a b.
Proof.
  unfold name_ge, String.ltb.
  destruct (String.compare a b) eqn:E; intros H.
  - left. apply String.compare_eq_iff, E.
  - discriminate.
  - right. rewrite String.compare_antisym, E. reflexivity.
Qed.

Lemma name_ge_trans (a b c : string) : name_ge a b -> name_ge b c -> name_ge a c.
Proof.
  intros [->|H1] [->|H2]; unfold name_ge; auto.
  right. eapply ltb_trans; eassumption.
Qed.

Section Sorting.

Variable V : Type.

Lemma insert_desc_perm (x : string * V) (l : list (string * V)) :
  Permutation (insert_desc x l) (x :: l).
Proof.
  induction l as [|y l IH]; simpl; [reflexivity|].
  destruct (String.ltb (fst x) (fst y)); [|reflexivity].
  rewrite IH. apply perm_swap.
Qed.

Lemma sorted_reverse_perm (items : list (string * V)) :
  Permutation (sorted_reverse items) items.
Proof.
  induction items as [|x items IH]; simpl; [reflexivity|].
  rewrite insert_desc_perm, IH. reflexivity.
Qed.

Lemma insert_desc_sorted (x : string * V) (l : list (string * V)) :
  StronglySorted (entry_ge V) l -> StronglySorted (entry_ge V) (insert_desc x l).
Proof.
  induction 1 as [|y l Hl IH Hy]; simpl; [repeat constructor|].
  destruct (String.ltb (fst x) (fst y)) eqn:E.
  - constructor; [exact IH|].
    eapply Permutation_Forall; [symmetry; apply insert_desc_perm|].
    constructor; [|exact Hy]. right. exact E.
  - apply not_ltb_ge in E. constructor; [constructor; assumption|].
    constructor; [exact E|].
    eapply Forall_impl; [|exact Hy].
    intros z Hz. eapply name_ge_trans; eassumption.
Qed.

Lemma sorted_reverse_sorted (items : list (string * V)) :
  StronglySorted (entry_ge V) (sorted_reverse items).
Proof.
  induction items as [|x items IH]; simpl; [constructor|].
  apply insert_desc_sorted, IH.
Qed.

(** With the distinct keys of a dict the order is strict. *)
Lemma sorted_reverse_strict (items : list (string * V)) :
  NoDup (map fst items) ->
  StronglySorted (fun a b => String.ltb (fst b) (fst a) = true)
    (sorted_reverse items).
Proof.
  intros Hnd.
  assert (Hnd' : NoDup (map fst (sorted_reverse items))).
  { eapply Permutation_NoDup; [|exact Hnd].
    apply Permutation_map. symmetry. apply sorted_reverse_perm. }
  pose proof (sorted_reverse_sorted items) as Hs.
  induction Hs as [|y l Hl IH Hy]; [constructor|].
  simpl in Hnd'. inversion Hnd' as [|? ? Hnotin Hnd'']; subst.
  constructor; [apply IH, Hnd''|].
  rewrite Forall_forall in *. intros z Hz.
  destruct (Hy z Hz) as [Heq|Hlt]; [|exact Hlt].
  exfalso. apply Hnotin. rewrite Heq. apply in_map, Hz.
Qed.

End Sorting.

Lemma spec_register_fold_notin (u : N) (lt : ustring) (lts : list ustring) :
  ~ In lt lts -> forall t,
  fold_left (fun t l => spec_register t u l) lts t lt = t lt.
Proof.
  induction lts as [|l lts IH]; intros Hn t; [reflexivity|].
  simpl. rewrite IH by (intros H; apply Hn; right; exact H).
  unfold spec_register. destruct (ueqb lt l) eqn:E; [|reflexivity].
  apply ueqb_eq in E. exfalso. apply Hn. left. congruence.
Qed.

Lemma spec_register_fold_in (u : N) (lt : ustring) (lts : list ustring) :
  In lt lts -> forall t,
  fold_left (fun t l => spec_register t u l) lts t lt = Some u.
Proof.
  induction lts as [|l lts IH]; intros Hin t; [contradiction|].
  simpl. destruct (in_dec (list_eq_dec N.eq_dec) lt lts) as [Hi|Hn].
  - apply IH, Hi.
  - rewrite spec_register_fold_notin by exact Hn.
    destruct Hin as [->|Hi]; [|contradiction].
    unfold spec_register. replace (ueqb lt lt) with true; [reflexivity|].
    symmetry. apply ueqb_eq. reflexivity.
Qed.

Lemma StronglySorted_app_r {A} (R : A -> A -> Prop) (l1 l2 : list A) :
  StronglySorted R (l1 ++ l2) -> StronglySorted R l2.
Proof.
  induction l1 as [|x l1 IH]; simpl; [trivial|].
  intros H. inversion H; subst. apply IH. assumption.
Qed.

Section Winner.

Variable ud : Unicodedata.
Variable lt : ustring.

Lemma register_entries_app (l1 l2 : list (string * table_value)) :
  forall ts ts', register_entries ud inverse_table spec_register (l1 ++ l2) ts = Ok ts' ->
  exists ts1, register_entries ud inverse_table spec_register l1 ts = Ok ts1 /\ register_entries ud inverse_table spec_register l2 ts1 = Ok ts'.
Proof.
  induction l1 as [|[n v] l1 IH]; intros ts ts' H; simpl in *.
  - eauto.
  - destruct (ud_lookup ud n); [|discriminate]. apply IH, H.
Qed.

Lemma register_entries_untouched (l : list (string * table_value)) :
  Forall (fun e => ~ In lt (as_list (snd e))) l ->
  forall ts ts', register_entries ud inverse_table spec_register l ts = Ok ts' ->
  map (fun t : inverse_table => t lt) ts' = map (fun t : inverse_table => t lt) ts.
Proof.
  induction 1 as [|[n v] l Hn _ IH]; intros ts ts' H; simpl in *.
  - congruence.
  - destruct (ud_lookup ud n) as [u|]; [|discriminate].
    rewrite (IH _ _ H). unfold register_entry. rewrite map_map.
    apply map_ext. intros t. apply spec_register_fold_notin, Hn.
Qed.

Lemma register_entry_sets (ts : list inverse_table) (u : N) (lts : list ustring) :
  In lt lts ->
  Forall (fun t : inverse_table => t lt = Some u)
    (register_entry inverse_table spec_register ts u lts).
Proof.
  intros Hin. unfold register_entry. apply Forall_forall. intros t Ht.
  apply in_map_iff in Ht. destruct Ht as (t0 & <- & _).
  apply spec_register_fold_in, Hin.
Qed.

End Winner.

Lemma Forall_map_eq {A B} (f : A -> B) (b : B) (l l' : list A) :
  map f l' = map f l -> Forall (fun x => f x = b) l -> Forall (fun x => f x = b) l'.
Proof.
  intros E H. rewrite <- (Forall_map f (fun y => y = b)) in *.
  rewrite E. exact H.
Qed.

Lemma register_table_winner (ud : Unicodedata)
  (items : list (string * table_value)) (tables tables' : list inverse_table)
  (lt : ustring) (name : string) (v : table_value) (uchar : N) :
  NoDup (map fst items) ->
  register_table ud inverse_table spec_register items tables = Ok tables' ->
  In (name, v) items -> In lt (as_list v) ->
  ud_lookup ud name = Some uchar ->
  (forall name' v', In (name', v') items -> In lt (as_list v') ->
                    String.ltb name' name = false) ->
  Forall (fun t : inverse_table => t lt = Some uchar) tables'.
Proof.
  intros Hnd Hreg Hin Hlt Hlook Hleast.
  pose proof (sorted_reverse_strict _ items Hnd) as Hsorted.
  pose proof (sorted_reverse_perm _ items) as Hperm.
  unfold register_table in Hreg.
  assert (Hin' : In (name, v) (sorted_reverse items))
    by (eapply Permutation_in; [symmetry; exact Hperm | exact Hin]).
  apply in_split in Hin'. destruct Hin' as (l1 & l2 & Hsplit).
  rewrite Hsplit in Hreg, Hsorted.
  apply register_entries_app in Hreg. destruct Hreg as (ts1 & _ & Hreg).
  simpl in Hreg. rewrite Hlook in Hreg.
  apply StronglySorted_app_r in Hsorted.
  inversion Hsorted as [|? ? _ Hall]; subst.
  assert (Hl2 : Forall (fun e => ~ In lt (as_list (snd e))) l2).
  { rewrite Forall_forall in *. intros [n' v'] Hn' Hlists.
    specialize (Hall _ Hn'). simpl in Hall, Hlists.
    rewrite (Hleast n' v') in Hall; [discriminate| |exact Hlists].
    eapply Permutation_in; [exact Hperm|].
    rewrite Hsplit. apply in_or_app. right. right. exact Hn'. }
  pose proof (register_entries_untouched ud lt l2 Hl2 _ _ Hreg) as Hsame.
  eapply Forall_map_eq; [exact Hsame|].
  apply register_entry_sets, Hlt.
Qed.

Lemma distinct_NoDup (names : list string) :
  distinct names = true -> NoDup names.
Proof.
  induction names as [|n r IH]; simpl; [constructor|].
  rewrite andb_true_iff, negb_true_iff. intros [Hn Hr].
  constructor; [|apply IH, Hr].
  intros Hin. assert (existsb (String.eqb n) r = true); [|congruence].
  apply existsb_exists. exists n. split; [exact Hin | apply String.eqb_refl].
Qed.

Lemma LATEX_TABLE_keys_distinct : NoDup (map fst LATEX_TABLE).
Proof. apply distinct_NoDup. vm_compute. reflexivity. Qed.

Lemma LATEX_TABLE_spellings_unshared : spellings_unshared LATEX_TABLE = true.
Proof. vm_compute. reflexivity. Qed.

(** In [LATEX_TABLE] itself no spelling is listed under two names: once the
    loop has run, every spelling of the table stands for the code point of
    the name that lists it, whatever the codec's table held for it before. *)
Lemma LATEX_TABLE_registered (ud : Unicodedata)
  (tables tables' : list inverse_table)
  (lt : ustring) (name : string) (v : table_value) (uchar : N) :
  register_table ud inverse_table spec_register LATEX_TABLE tables = Ok tables' ->
  In (name, v) LATEX_TABLE -> In lt (as_list v) ->
  ud_lookup ud name = Some uchar ->
  Forall (fun t : inverse_table => t lt = Some uchar) tables'.
Proof.
  intros Hreg Hin Hlt Hlook.
  eapply register_table_winner; try eassumption.
  - exact LATEX_TABLE_keys_distinct.
  - intros name' v' Hin' Hlt'.
    pose proof LATEX_TABLE_spellings_unshared as Hun.
    unfold spellings_unshared in Hun. rewrite forallb_forall in Hun.
    specialize (Hun _ Hin'). rewrite forallb_forall in Hun.
    specialize (Hun _ Hin). simpl fst in Hun. simpl snd in Hun.
    apply orb_true_iff in Hun. destruct Hun as [Heq|Hno].
    + apply String.eqb_eq in Heq. subst name'. apply ltb_irrefl.
    + rewrite forallb_forall in Hno. specialize (Hno _ Hlt').
      apply negb_true_iff in Hno.
      assert (existsb (ueqb lt) (as_list v) = true); [|congruence].
      apply existsb_exists. exists lt. split; [exact Hlt|].
      apply ueqb_eq. reflexivity.
Qed.

(** The override table of the module: its keys are distinct, and the loop
    starts with the largest name and ends with the smallest. *)
Example LATEX_TABLE_registration_order :
  hd_error (map fst (sorted_reverse LATEX_TABLE))
  = Some "VULGAR FRACTION THREE QUARTERS"%string
  /\ last (map fst (sorted_reverse LATEX_TABLE)) ""%string
     = "COMBINING ACUTE ACCENT"%string
  /\ length (sorted_reverse LATEX_TABLE) = 91%nat.
Proof. repeat split. Qed.

(** * Further properties *)

(** ** The legacy codec, continued *)

Lemma u_escape_app (a b : ustring) : u_escape (a ++ b) = u_escape a ++ u_escape b.
Proof. unfold u_escape. rewrite map_app, concat_app. reflexivity. Qed.

Lemma u_escape_ascii_id (s : ustring) :
  Forall (fun c => c <= 127) s -> u_escape s = s.
Proof.
  induction 1 as [|c s Hc _ IH]; [reflexivity|].
  rewrite u_escape_ascii_cons by exact Hc. f_equal. exact IH.
Qed.

Lemma u_escape_chars_ascii (s : ustring) :
  Forall (fun c => c <= 127) (u_escape s).
Proof.
  induction s as [|c s IH]; [constructor|].
  destruct (N.le_gt_cases c 127) as [Hc|Hc].
  - rewrite u_escape_ascii_cons by exact Hc. constructor; assumption.
  - rewrite u_escape_high_cons by exact Hc. unfold u_open.
    repeat (apply Forall_cons; [lia|]).
    apply Forall_app. split.
    + eapply Forall_impl; [|apply format_d_digits].
      intros d Hd. apply is_digit_iff in Hd. lia.
    + constructor; [lia | exact IH].
Qed.

Lemma int_of_digits_bound (ds : ustring) :
  Forall (fun c => is_digit c = true) ds ->
  int_of_digits ds < 10 ^ N.of_nat (length ds).
Proof.
  induction ds as [|d ds IH] using rev_ind; intros H.
  - cbv. reflexivity.
  - apply Forall_app in H. destruct H as [H Hd].
    inversion Hd as [|? ? Hd1 _]; subst. apply is_digit_iff in Hd1.
    rewrite int_of_digits_snoc, length_app. simpl length.
    rewrite Nat.add_1_r, Nat2N.inj_succ, N.pow_succ_r'.
    specialize (IH H). lia.
Qed.

(** What a match of the escape pattern looks like. *)
Lemma u_pattern_Some (s g : ustring) (len : nat) :
  u_pattern s = Some (g, len) ->
  exists rest, s = u_open ++ g ++ 93 :: rest
    /\ Forall (fun c => is_digit c = true) g
    /\ (3 <= length g <= 5)%nat /\ len = (4 + length g + 1)%nat.
Proof.
  unfold u_pattern.
  destruct (strip_prefix u_open s) as [r|] eqn:Hp; [|discriminate].
  apply strip_prefix_Some in Hp.
  pose proof (span_spec is_digit r) as [Hr Hd].
  destruct (span is_digit r) as [ds r']. cbn [fst snd] in Hr, Hd.
  destruct r' as [|x r']; [discriminate|].
  destruct (x =? 93) eqn:Ex.
  2:{ destruct x as [|p]; [discriminate|].
      do 7 (destruct p; try discriminate). }
  apply N.eqb_eq in Ex. subst x.
  destruct ((3 <=? length ds)%nat && (length ds <=? 5)%nat) eqn:El; [|discriminate].
  intros H. injection H as <- <-. exists r'.
  apply andb_true_iff in El. destruct El as [E3 E5].
  apply Nat.leb_le in E3, E5. subst. repeat split; assumption || lia.
Qed.

Lemma u_pattern_repl_ok (s g : ustring) (len : nat) :
  u_pattern s = Some (g, len) -> numcharref_repl g = Ok [int_of_digits g].
Proof.
  intros H. apply u_pattern_Some in H.
  destruct H as (rest & _ & Hd & [_ H5] & _).
  apply numcharref_repl_ok. pose proof (int_of_digits_bound g Hd) as Hb.
  assert (10 ^ N.of_nat (length g) <= 10 ^ 5).
  { apply N.pow_le_mono_r; lia. }
  unfold maxunicode. change (10 ^ 5) with 100000 in *. lia.
Qed.

Lemma subE_u_pattern_total (s : ustring) : forall k,
  exists r, subE_from u_pattern numcharref_repl k s = Ok r.
Proof.
  induction s as [|c s IH]; intros k; simpl; [eauto|].
  destruct k as [|k]; [|apply IH].
  destruct (u_pattern (c :: s)) as [[g len]|] eqn:E.
  - rewrite (u_pattern_repl_ok _ _ _ E).
    destruct (IH (len - 1)%nat) as [r ->]. simpl. eauto.
  - destruct (IH 0%nat) as [r ->]. simpl. eauto.
Qed.

Lemma re_subE_no_escape (s : ustring) :
  has_escape s = false -> re_subE u_pattern numcharref_repl s = Ok s.
Proof.
  induction s as [|c s IH]; intros H; [reflexivity|].
  simpl in H. apply orb_false_iff in H. destruct H as [Hhd Htl].
  rewrite re_subE_miss, IH by
    (assumption || (destruct (u_pattern (c :: s)); [discriminate | reflexivity])).
  reflexivity.
Qed.

Lemma skipn_u_escape_match (s g : ustring) (len : nat) :
  u_pattern s = Some (g, len) ->
  skipn len (u_escape s) = u_escape (skipn len s)
  /\ (length (skipn len s) < length s)%nat.
Proof.
  intros H. apply u_pattern_Some in H.
  destruct H as (rest & -> & Hd & Hl & ->).
  assert (Hm : Forall (fun c => c <= 127) (u_open ++ g ++ [93])).
  { apply Forall_app. split; [unfold u_open; repeat constructor; lia|].
    apply Forall_app. split; [|repeat constructor; lia].
    eapply Forall_impl; [|exact Hd]. intros d H. apply is_digit_iff in H. lia. }
  replace (u_open ++ g ++ 93 :: rest) with ((u_open ++ g ++ [93]) ++ rest)
    by (rewrite <- !app_assoc; reflexivity).
  rewrite u_escape_app, (u_escape_ascii_id _ Hm).
  rewrite !skipn_app_exact by (rewrite !length_app; simpl; lia).
  split; [reflexivity|]. rewrite length_app. simpl. lia.
Qed.

Lemma re_subE_u_escape (n : nat) : forall s,
  (length s <= n)%nat ->
  Forall (fun c => c <= 99999) s ->
  re_subE u_pattern numcharref_repl (u_escape s)
  = re_subE u_pattern numcharref_repl s.
Proof.
  induction n as [|n IH]; intros s Hn Hs.
  - destruct s; [reflexivity | simpl in Hn; lia].
  - destruct s as [|c s]; [reflexivity|].
    inversion Hs as [|? ? Hc Hs']; subst. simpl in Hn.
    destruct (N.le_gt_cases c 127) as [Hlo|Hhi].
    + pose proof (u_pattern_u_escape c s Hlo) as Hp.
      destruct (u_pattern (c :: s)) as [[g len]|] eqn:E;
        try rewrite E in Hp.
      * destruct (skipn_u_escape_match _ _ _ E) as [Hsk Hlt].
        destruct (u_pattern_Some _ _ _ E) as (_ & _ & _ & _ & Hlen).
        assert (H1 : (1 <= len)%nat) by lia.
        rewrite (re_subE_hit _ _ (c :: s) g len);
          [ | discriminate | exact E | exact H1 ].
        rewrite (re_subE_hit _ _ (u_escape (c :: s)) g len);
          [ | rewrite u_escape_ascii_cons by exact Hlo; discriminate
            | exact Hp | exact H1 ].
        rewrite Hsk, IH; [reflexivity| |].
        -- simpl in Hlt. lia.
        -- clear - Hs. revert Hs. generalize (c :: s) as l. intros l.
           revert l. induction len as [|len IHl]; intros l Hl; [exact Hl|].
           destruct l; simpl; [constructor|]. apply IHl. inversion Hl; assumption.
      * rewrite (re_subE_miss _ _ c s) by exact E.
        rewrite u_escape_ascii_cons in * by exact Hlo.
        rewrite re_subE_miss by exact Hp.
        rewrite IH by (assumption || lia). reflexivity.
    + rewrite u_escape_high_cons by exact Hhi.
      rewrite (re_subE_hit _ _ _ (format_d c) (4 + length (format_d c) + 1));
        [ | discriminate | apply u_pattern_token; lia | lia ].
      rewrite skipn_token, IH by (assumption || lia).
      rewrite re_subE_miss.
      * unfold numcharref_repl, unichr. rewrite int_of_format_d.
        replace (c <=? maxunicode) with true
          by (symmetry; apply N.leb_le; unfold maxunicode; lia).
        reflexivity.
      * unfold u_pattern, u_open. rewrite strip_prefix_head by lia. reflexivity.
Qed.

(** X2: on text whose code points are at most 99999, escaping first does
    not change what [u_unescape] returns: the escapes that [u_escape] adds
    are read back as the characters they stand for, and the escapes that
    were already in the text are read as without it. *)
Theorem u_unescape_after_u_escape (s : ustring) :
  Forall (fun c => c <= 99999) s ->
  u_unescape (u_escape s) = u_unescape s.
Proof.
  intros Hs. rewrite !u_unescape_sub.
  apply (re_subE_u_escape (length s)); [lia | exact Hs].
Qed.

Lemma u_unescape_after_u_escape_witness :
  u_unescape (u_escape (ustr "a?[\u233]" ++ [8364]))
  = u_unescape (ustr "a?[\u233]" ++ [8364]).
Proof.
  apply u_unescape_after_u_escape. repeat constructor; vm_compute; discriminate.
Defined.

(** X3: text in which no escape [?[\uDDD]] (3 to 5 digits) starts is
    returned by [u_unescape] as it is. *)
Theorem u_unescape_without_escape (s : ustring) :
  has_escape s = false -> u_unescape s = Ok s.
Proof. intros H. rewrite u_unescape_sub. apply re_subE_no_escape, H. Qed.

Lemma u_unescape_without_escape_witness :
  u_unescape (ustr "?[\u12] [\u233] ?[\u1x3]" ++ [233])
  = Ok (ustr "?[\u12] [\u233] ?[\u1x3]" ++ [233]).
Proof. apply u_unescape_without_escape. reflexivity. Defined.

(** X4: [u_escape] returns a text as it is exactly when the text is ASCII,
    and escaping twice gives the same as escaping once. *)
Theorem u_escape_idempotent (s : ustring) :
  (u_escape s = s <-> Forall (fun c => c <= 127) s)
  /\ u_escape (u_escape s) = u_escape s.
Proof.
  split; [split|].
  - intros H. rewrite <- H. apply u_escape_chars_ascii.
  - apply u_escape_ascii_id.
  - apply u_escape_ascii_id, u_escape_chars_ascii.
Qed.

(** ** The [ascii+u_escape] codec *)

Lemma forallb_ascii (s : ustring) :
  forallb (fun c => c <=? 127) s = true <-> Forall (fun c => c <= 127) s.
Proof.
  rewrite forallb_forall, Forall_forall.
  split; intros H c Hc; apply N.leb_le, H, Hc.
Qed.

Lemma u_unescape_u_escape_plain (s : ustring) :
  has_escape s = false -> Forall (fun c => c <= 99999) s ->
  u_unescape (u_escape s) = Ok s.
Proof.
  intros He Hs. rewrite u_unescape_sub.
  rewrite (re_subE_u_escape (length s)) by (lia || exact Hs).
  apply re_subE_no_escape, He.
Qed.

(** X5: [U_escapeCodec.encode] never writes an escape: it calls [u_escape]
    on the result of [input.encode('ascii')], which is ASCII already.  ASCII
    input comes back unchanged with its length; any other input raises,
    [UnicodeEncodeError] for a [unicode] and [UnicodeDecodeError] for a
    [str]. *)
Theorem U_escapeCodec_encode_ascii_only (input : py_string) :
  U_escapeCodec_encode input =
  if forallb (fun c => c <=? 127) (py_chars input)
  then Ok (py_chars input, py_len input)
  else Raise (match input with
              | PyStr _ => UnicodeDecodeError
              | PyUnicode _ => UnicodeEncodeError
              end).
Proof.
  unfold U_escapeCodec_encode, encode_ascii, ascii_decode, ascii_encode.
  destruct input as [b|u]; cbn [py_chars].
  - destruct (forallb (fun c => c <=? 127) b) eqn:E; [|reflexivity].
    cbn [bind]. rewrite E. cbn [bind].
    rewrite u_escape_ascii_id by (apply forallb_ascii, E). reflexivity.
  - destruct (forallb (fun c => c <=? 127) u) eqn:E; [|reflexivity].
    cbn [bind]. rewrite u_escape_ascii_id by (apply forallb_ascii, E).
    reflexivity.
Qed.

(** X6: [U_escapeCodec.decode] reads back what [u_escape] wrote: for a text
    of code points up to 99999 in which no escape starts, decoding its
    escaped form, as a [str] or as a [unicode], returns the text and the
    length of the input. *)
Theorem U_escapeCodec_decode_u_escape (s : ustring) :
  has_escape s = false -> Forall (fun c => c <= 99999) s ->
  U_escapeCodec_decode (PyStr (u_escape s)) = Ok (s, length (u_escape s))
  /\ U_escapeCodec_decode (PyUnicode (u_escape s)) = Ok (s, length (u_escape s)).
Proof.
  intros He Hs.
  pose proof (proj2 (forallb_ascii _) (u_escape_chars_ascii s)) as Ha.
  unfold U_escapeCodec_decode, decode_ascii, ascii_decode, ascii_encode, py_len.
  cbn [py_chars]. rewrite Ha. cbn [bind]. rewrite Ha. cbn [bind].
  rewrite (u_unescape_u_escape_plain s He Hs). split; reflexivity.
Qed.

Lemma U_escapeCodec_decode_u_escape_witness :
  U_escapeCodec_decode (PyStr (u_escape (ustr "na" ++ [239] ++ ustr "ve " ++ [8364; 99999])))
  = Ok (ustr "na" ++ [239] ++ ustr "ve " ++ [8364; 99999],
        length (u_escape (ustr "na" ++ [239] ++ ustr "ve " ++ [8364; 99999])))
  /\ U_escapeCodec_decode (PyUnicode (u_escape (ustr "na" ++ [239] ++ ustr "ve " ++ [8364; 99999])))
     = Ok (ustr "na" ++ [239] ++ ustr "ve " ++ [8364; 99999],
           length (u_escape (ustr "na" ++ [239] ++ ustr "ve " ++ [8364; 99999]))).
Proof.
  apply U_escapeCodec_decode_u_escape; [reflexivity|].
  repeat constructor; vm_compute; discriminate.
Defined.

(** X7: [U_escapeCodec.decode] raises exactly on input that is not ASCII,
    [UnicodeDecodeError] for a [str] and [UnicodeEncodeError] for a
    [unicode]; on ASCII input it returns a text together with the length
    of the input. *)
Theorem U_escapeCodec_decode_errors (input : py_string) :
  (forallb (fun c => c <=? 127) (py_chars input) = true ->
   exists r, U_escapeCodec_decode input = Ok (r, py_len input)
             /\ u_unescape (py_chars input) = Ok r)
  /\ (forallb (fun c => c <=? 127) (py_chars input) = false ->
      U_escapeCodec_decode input =
      Raise (match input with
             | PyStr _ => UnicodeDecodeError
             | PyUnicode _ => UnicodeEncodeError
             end)).
Proof.
  unfold U_escapeCodec_decode, decode_ascii, ascii_decode, ascii_encode.
  destruct input as [b|u]; cbn [py_chars]; split; intros E; rewrite E;
    cbn [bind]; try rewrite E; cbn [bind]; try reflexivity.
  - destruct (subE_u_pattern_total b 0) as [r Hr].
    exists r. rewrite u_unescape_sub. unfold re_subE. rewrite Hr. split; reflexivity.
  - destruct (subE_u_pattern_total u 0) as [r Hr].
    exists r. rewrite u_unescape_sub. unfold re_subE. rewrite Hr. split; reflexivity.
Qed.

(** X8: every escape of the legacy codec is also a numeric reference of the
    second form that [ulatex_postprocess] resolves, with the same digits and
    the same extent, and its number is always a valid code point. *)
Theorem u_pattern_is_numcharref (s g : ustring) (len : nat) :
  u_pattern s = Some (g, len) ->
  numcharref_pattern2 s = Some (g, len)
  /\ numcharref_repl g = Ok [int_of_digits g].
Proof.
  intros H. split; [|exact (u_pattern_repl_ok _ _ _ H)].
  apply u_pattern_Some in H. destruct H as (rest & -> & Hd & Hl & ->).
  rewrite numcharref_pattern2_u; [reflexivity| |exact Hd].
  intros ->. simpl in Hl. lia.
Qed.

Lemma u_pattern_is_numcharref_witness :
  numcharref_pattern2 (ustr "?[\u233] x") = Some (ustr "233", 8%nat)
  /\ numcharref_repl (ustr "233") = Ok [int_of_digits (ustr "233")].
Proof. apply u_pattern_is_numcharref. reflexivity. Defined.

(** ** Pre-processing of text that is decoded already *)

Lemma utf8_decode_from_ascii (b : list N) : forall fuel,
  (length b <= fuel)%nat -> Forall (fun c => c <= 127) b ->
  utf8_decode_from fuel b = Ok b.
Proof.
  induction b as [|c b IH]; intros fuel Hf Hb.
  - destruct fuel; reflexivity.
  - destruct fuel as [|fuel]; [simpl in Hf; lia|].
    inversion Hb as [|? ? Hc Hb']; subst.
    cbn [utf8_decode_from]. apply N.leb_le in Hc. rewrite Hc.
    rewrite IH by (assumption || simpl in Hf; lia). reflexivity.
Qed.

Lemma utf8_decode_ascii (b : list N) :
  Forall (fun c => c <= 127) b -> utf8_decode b = Ok b.
Proof. intros H. apply utf8_decode_from_ascii; [lia | exact H]. Qed.

(** X9: [ulatex_preprocess], and so [ulatex_decode], raise
    [UnicodeEncodeError] on a [unicode] that holds a character above 127:
    [s.decode('utf8')] first encodes it with the ASCII codec.  An ASCII
    [unicode] is treated as the same [str], which is NFC-normalised and
    rejected when a combining character is left: with [ValueError], or
    with the [UnicodeEncodeError] of the [print] when the standard output
    cannot encode the text. *)
Theorem ulatex_preprocess_unicode (ud : Unicodedata) (out : ustring -> bool)
  (ulatex_codec_decode : ustring -> result ustring) (u : ustring) :
  (forallb (fun c => c <=? 127) u = false ->
   ulatex_preprocess ud out (PyUnicode u) = Raise UnicodeEncodeError
   /\ ulatex_decode ud out ulatex_codec_decode (PyUnicode u) = Raise UnicodeEncodeError)
  /\ (forallb (fun c => c <=? 127) u = true ->
      ulatex_preprocess ud out (PyUnicode u) = ulatex_preprocess ud out (PyStr u)
      /\ ulatex_preprocess ud out (PyStr u) =
         if existsb (is_combining ud) (ud_normalize_NFC ud u)
         then if out (ud_normalize_NFC ud u)
              then Raise ValueError
              else Raise UnicodeEncodeError
         else Ok (ud_normalize_NFC ud u)).
Proof.
  unfold ulatex_decode, ulatex_preprocess, decode_utf8, ascii_encode.
  split; intros E; rewrite E; cbn [bind]; split; try reflexivity.
  rewrite utf8_decode_ascii by (apply forallb_ascii, E). cbn [bind].
  rewrite reject_combining_existsb.
  destruct (existsb (is_combining ud) (ud_normalize_NFC ud u));
    [destruct (out (ud_normalize_NFC ud u))|]; reflexivity.
Qed.

(** ** Post-processing: text without markup, and errors *)

Lemma resolve_numcharrefs_inert (s : ustring) :
  Forall (fun c => c <> 92 /\ c <> 38) s -> Forall (fun c => c <> 63) s ->
  resolve_numcharrefs s = Ok s.
Proof.
  intros H1 H2. unfold resolve_numcharrefs.
  rewrite numcharref1_inert by exact H1. cbn [bind].
  apply numcharref2_inert, H2.
Qed.

(** X10: text without backslash, opening brace, ampersand and question mark,
    and without combining character, leaves [ulatex_postprocess] as its NFC
    form; passed as an ASCII [str] it gives the same. *)
Theorem ulatex_postprocess_plain (ud : Unicodedata) (s : ustring) :
  Forall (fun c => is_plain c = true) s ->
  Forall (fun c => is_combining ud c = false) s ->
  ulatex_postprocess ud (PyUnicode s) = Ok (ud_normalize_NFC ud s)
  /\ (forallb (fun c => c <=? 127) s = true ->
      ulatex_postprocess ud (PyStr s) = Ok (ud_normalize_NFC ud s)).
Proof.
  intros Hp Hc. destruct (Forall_plain s Hp) as (H92 & H123 & H9238 & H63).
  assert (H : ulatex_postprocess ud (PyUnicode s) = Ok (ud_normalize_NFC ud s)).
  { rewrite early_stages by (try apply command_patterns_inert; assumption).
    rewrite resolve_numcharrefs_inert by assumption. cbn [bind].
    rewrite strip_commands_inert, recode_language_tags_inert by assumption.
    reflexivity. }
  split; [exact H|]. intros Ha. rewrite <- H.
  unfold ulatex_postprocess, ascii_decode. rewrite Ha. reflexivity.
Qed.

Lemma ulatex_postprocess_plain_witness :
  ulatex_postprocess ucd_excerpt (PyUnicode (ustr "Grammar of } [x]; #3"))
  = Ok (ud_normalize_NFC ucd_excerpt (ustr "Grammar of } [x]; #3"))
  /\ (forallb (fun c => c <=? 127) (ustr "Grammar of } [x]; #3") = true ->
      ulatex_postprocess ucd_excerpt (PyStr (ustr "Grammar of } [x]; #3"))
      = Ok (ud_normalize_NFC ucd_excerpt (ustr "Grammar of } [x]; #3"))).
Proof.
  apply ulatex_postprocess_plain; repeat constructor.
Defined.

(** ** The reordering loop, on any text *)

Lemma reorder_state_bases (ud : Unicodedata) (s : ustring) : forall n comb,
  Forall (fun c => is_combining ud c = true) comb ->
  filter (fun c => negb (is_combining ud c)) (fst (fold_left (reorder_step ud) s (n, comb)))
  = filter (fun c => negb (is_combining ud c)) n
    ++ filter (fun c => negb (is_combining ud c)) s.
Proof.
  induction s as [|c s IH]; intros n comb Hcomb; cbn [fold_left fst].
  - cbn [filter]. rewrite app_nil_r. reflexivity.
  - unfold reorder_step at 2. cbn [filter].
    destruct (is_combining ud c) eqn:E; cbn [negb].
    + apply IH. constructor; assumption.
    + rewrite IH by constructor. rewrite drain_app, !filter_app.
      cbn [filter]. rewrite E. cbn [negb].
      assert (Hnil : filter (fun c => negb (is_combining ud c)) comb = []).
      { clear - Hcomb. induction Hcomb as [|x comb Hx _ IHc]; [reflexivity|].
        cbn [filter]. rewrite Hx. exact IHc. }
      rewrite Hnil, app_nil_r, <- app_assoc. reflexivity.
Qed.

(** X12: the loop over the text moves and drops combining characters only:
    the other characters come out as they went in, in the same order, and
    the result is never longer than the text. *)
Theorem reorder_keeps_bases (ud : Unicodedata) (s : ustring) :
  filter (fun c => negb (is_combining ud c)) (reorder_combining ud s)
  = filter (fun c => negb (is_combining ud c)) s
  /\ (length (reorder_combining ud s) <= length s)%nat.
Proof.
  split.
  - unfold reorder_combining. rewrite reorder_state_bases by constructor.
    reflexivity.
  - unfold reorder_combining.
    pose proof (reorder_state_perm ud s ([], [])) as H. cbn [fst snd app] in H.
    apply Permutation_length in H. rewrite length_app in H. lia.
Qed.

(** ** The alternation of language tags *)

Lemma span_rest (f : N -> bool) (s : ustring) :
  match snd (span f s) with
  | c :: _ => f c = false
  | [] => True
  end.
Proof.
  induction s as [|c s IH]; simpl; [exact I|].
  destruct (f c) eqn:E; [|exact E].
  destruct (span f s) as [a b]. exact IH.
Qed.

Lemma match_tags_first (keys : list ustring) (s k : ustring) (n : nat) :
  match_tags keys s = Some (k, n) ->
  In k keys
  /\ exists r, strip_prefix k s = Some r
               /\ fst (span is_space r) <> []
               /\ n = (length k + length (fst (span is_space r)))%nat.
Proof.
  induction keys as [|k0 keys IH]; cbn [match_tags]; [discriminate|].
  intros H.
  assert (Hrec : match_tags keys s = Some (k, n) ->
                 In k (k0 :: keys)
                 /\ exists r, strip_prefix k s = Some r
                              /\ fst (span is_space r) <> []
                              /\ n = (length k + length (fst (span is_space r)))%nat).
  { intros H'. destruct (IH H') as [Hin Hr]. split; [right; exact Hin | exact Hr]. }
  destruct (strip_prefix k0 s) as [r|] eqn:Ep; [|exact (Hrec H)].
  destruct (fst (span is_space r)) as [|w ws] eqn:Es; [exact (Hrec H)|].
  injection H as <- <-. split; [left; reflexivity|].
  exists r. rewrite Es. repeat split; [exact Ep | discriminate].
Qed.

Lemma tags_prefix_free :
  forallb (fun k => forallb (fun k' => ueqb k' k || diverge k' k)
                      (map fst language_tags))
    (map fst language_tags) = true.
Proof. vm_compute. reflexivity. Qed.

Lemma match_tags_found (keys : list ustring) (s k r : ustring) :
  In k keys ->
  (forall k', In k' keys -> ueqb k' k || diverge k' k = true) ->
  strip_prefix k s = Some r -> fst (span is_space r) <> [] ->
  match_tags keys s
  = Some (k, (length k + length (fst (span is_space r)))%nat).
Proof.
  intros Hin Hfree Hp Hws.
  apply strip_prefix_Some in Hp. subst s.
  pose proof (span_spec is_space r) as [Hr Hsp].
  pose proof (span_rest is_space r) as Hrest.
  rewrite <- Hr at 1.
  apply match_tags_hit; try assumption.
  unfold starts_with_space. destruct (snd (span is_space r)); [reflexivity | exact Hrest].
Qed.

(** X13: the alternation of [language_tag_pattern] is built from
    [language_tags.keys()], whose order the dict does not promise.  No key
    is a prefix of another, so a match does not depend on the order: any
    arrangement of the keys finds the same tag and the same extent. *)
Theorem match_tags_any_order (keys : list ustring) (s : ustring) :
  Permutation keys (map fst language_tags) ->
  match_tags keys s = match_tags (map fst language_tags) s.
Proof.
  intros Hperm.
  assert (Hfree : forall k k', In k (map fst language_tags) ->
                    In k' (map fst language_tags) ->
                    ueqb k' k || diverge k' k = true).
  { intros k k' Hk Hk'. pose proof tags_prefix_free as H.
    rewrite forallb_forall in H. specialize (H k Hk).
    rewrite forallb_forall in H. exact (H k' Hk'). }
  destruct (match_tags (map fst language_tags) s) as [[k n]|] eqn:E.
  - apply match_tags_first in E. destruct E as (Hin & r & Hp & Hws & ->).
    apply match_tags_found; try assumption.
    + apply Permutation_in with (l := map fst language_tags);
        [apply Permutation_sym, Hperm | exact Hin].
    + intros k' Hk'. apply Hfree; [exact Hin|].
      apply Permutation_in with (l := keys); assumption.
  - destruct (match_tags keys s) as [[k n]|] eqn:E'; [|reflexivity].
    apply match_tags_first in E'. destruct E' as (Hin & r & Hp & Hws & ->).
    assert (Hin' : In k (map fst language_tags))
      by (apply Permutation_in with (l := keys); assumption).
    rewrite (match_tags_found (map fst language_tags) s k r) in E;
      [discriminate | exact Hin' | | exact Hp | exact Hws].
    intros k' Hk'. apply Hfree; assumption.
Qed.

Lemma match_tags_any_order_witness :
  match_tags (rev (map fst language_tags)) (ustr "thai  x")
  = match_tags (map fst language_tags) (ustr "thai  x").
Proof.
  apply match_tags_any_order. apply Permutation_sym, Permutation_rev.
Defined.

(** ** Registration: unknown names *)

Section RegistrationErrors.

Variable ud : Unicodedata.
Variable table : Type.
Variable register : table -> N -> ustring -> table.

Lemma register_entry_length (tables : list table) (uchar : N) (lts : list ustring) :
  length (register_entry table register tables uchar lts) = length tables.
Proof. unfold register_entry. apply length_map. Qed.

Lemma register_entries_ok (entries : list (string * table_value)) :
  forall tables,
  Forall (fun e => ud_lookup ud (fst e) <> None) entries ->
  exists tables', register_entries ud table register entries tables = Ok tables'
                  /\ length tables' = length tables.
Proof.
  induction entries as [|[name v] entries IH]; intros tables H; cbn [register_entries].
  - eauto.
  - inversion H as [|? ? Hn H']; subst. cbn [fst] in Hn.
    destruct (ud_lookup ud name) as [uchar|]; [|congruence].
    destruct (IH (register_entry table register tables uchar (as_list v)) H')
      as (t' & Ht & Hl).
    exists t'. split; [exact Ht|]. rewrite Hl. apply register_entry_length.
Qed.

Lemma register_entries_unknown (entries : list (string * table_value)) :
  forall tables,
  Exists (fun e => ud_lookup ud (fst e) = None) entries ->
  register_entries ud table register entries tables = Raise KeyError.
Proof.
  induction entries as [|[name v] entries IH]; intros tables H; cbn [register_entries].
  - inversion H.
  - destruct (ud_lookup ud name) as [uchar|] eqn:E; [|reflexivity].
    apply IH. inversion H as [? ? Hh|? ? Ht]; subst; [|exact Ht].
    cbn [fst] in Hh. congruence.
Qed.

End RegistrationErrors.

(** X14: the registration loop raises [KeyError] exactly when the dict has
    a name that [unicodedata.lookup] does not know, wherever the name
    stands in the dict; it raises nothing else, and when it returns, the
    tables are as many as before. *)
Theorem register_table_unknown_name (ud : Unicodedata) (table : Type)
  (register : table -> N -> ustring -> table)
  (items : list (string * table_value)) (tables : list table) :
  (register_table ud table register items tables = Raise KeyError
   <-> exists e, In e items /\ ud_lookup ud (fst e) = None)
  /\ (forall e, register_table ud table register items tables = Raise e ->
                e = KeyError)
  /\ (forall tables', register_table ud table register items tables = Ok tables' ->
                      length tables' = length tables).
Proof.
  unfold register_table.
  pose proof (sorted_reverse_perm _ items) as Hperm.
  destruct (Exists_dec (fun e : string * table_value => ud_lookup ud (fst e) = None)
              (sorted_reverse items)) as [Hex|Hno].
  { intros e. destruct (ud_lookup ud (fst e)); [right; discriminate | left; reflexivity]. }
  - rewrite (register_entries_unknown ud table register _ tables Hex).
    split; [split; [intros _|reflexivity] | split; [congruence | discriminate]].
    apply Exists_exists in Hex. destruct Hex as (e & Hin & He).
    exists e. split; [|exact He].
    apply Permutation_in with (l := sorted_reverse items); assumption.
  - assert (Hall : Forall (fun e => ud_lookup ud (fst e) <> None) (sorted_reverse items)).
    { apply Forall_forall. intros e Hin He. apply Hno.
      apply Exists_exists. exists e. split; assumption. }
    destruct (register_entries_ok ud table register _ tables Hall) as (t' & Ht & Hl).
    rewrite Ht. split; [split; [discriminate|] | split; [discriminate|]].
    + intros (e & Hin & He). exfalso. apply Hno. apply Exists_exists.
      exists e. split; [|exact He].
      apply Permutation_in with (l := items);
        [apply Permutation_sym, Hperm | exact Hin].
    + intros tables' H. injection H as <-. exact Hl.
Qed.

(** ** [latex_to_utf8] *)

Lemma braced_char_head (c : N) (t : ustring) :
  c <> 123 -> braced_char (c :: t) = None.
Proof.
  intros H. unfold braced_char.
  destruct c as [|p]; [reflexivity|].
  do 7 (destruct p; try reflexivity). congruence.
Qed.

Lemma braced_char_inert (s : ustring) :
  Forall (fun c => c <> 123) s -> re_sub braced_char (fun g => g) s = s.
Proof.
  apply re_sub_inert. intros c t. apply braced_char_head.
Qed.

(** X15: [latex_to_utf8] removes the braces around one character only, and
    not around a newline: in decoded text [pre{t}post] with no other brace
    in [t] and [post] and no opening brace in [pre], [{t}] becomes [t] when
    [t] is a single character other than a newline, and stays as it is
    otherwise.  The flag [verbose] does not
    change the result. *)
Theorem latex_to_utf8_single_char
  (latex_codec_decode : py_string -> result ustring)
  (s : py_string) (verbose : bool) (pre t post : ustring) :
  latex_codec_decode s = Ok (pre ++ 123 :: t ++ 125 :: post) ->
  Forall (fun c => c <> 123) pre ->
  Forall (fun c => c <> 123 /\ c <> 125) t ->
  Forall (fun c => c <> 123 /\ c <> 125) post ->
  latex_to_utf8 latex_codec_decode s verbose =
  Ok (pre ++
      match t with
      | [c] => if c =? 10 then 123 :: t ++ [125] else t
      | _ => 123 :: t ++ [125]
      end ++ post).
Proof.
  intros Hdec Hpre Ht Hpost. unfold latex_to_utf8. rewrite Hdec. cbn [bind].
  f_equal.
  rewrite (re_sub_prefix braced_char _ (fun c => c <> 123));
    [ | intros c r; apply braced_char_head | exact Hpre ].
  f_equal.
  assert (Hpost' : Forall (fun c => c <> 123) post).
  { eapply Forall_impl; [|exact Hpost]. intros c [H _]. exact H. }
  assert (Hrest : forall u, Forall (fun c => c <> 123 /\ c <> 125) u ->
            re_sub braced_char (fun g => g) (u ++ 125 :: post) = u ++ 125 :: post).
  { intros u Hu. apply braced_char_inert. apply Forall_app. split.
    - eapply Forall_impl; [|exact Hu]. intros c [H _]. exact H.
    - constructor; [discriminate | exact Hpost']. }
  destruct t as [|c [|c2 t]].
  - pose proof (Hrest [] Ht) as H0. cbn [app] in *.
    rewrite re_sub_miss, H0; [reflexivity|].
    cbn [braced_char]. destruct post as [|p0 post0]; [reflexivity|].
    inversion Hpost as [|? ? [_ H] _]; subst.
    destruct p0 as [|p]; [reflexivity|].
    do 7 (destruct p; try reflexivity). congruence.
  - pose proof (Hrest [c] Ht) as H0. cbn [app] in *.
    destruct (c =? 10) eqn:E.
    + rewrite re_sub_miss, H0; [reflexivity|].
      cbn [braced_char]. rewrite E. reflexivity.
    + rewrite (re_sub_hit braced_char _ _ [c] 3);
        [ | discriminate | cbn [braced_char]; rewrite E; reflexivity | lia ].
      cbn [skipn app]. rewrite braced_char_inert by exact Hpost'. reflexivity.
  - pose proof (Hrest (c :: c2 :: t) Ht) as H0.
    assert (H2 : c2 <> 125).
    { inversion Ht as [|? ? _ Ht']; subst. inversion Ht' as [|? ? [_ H] _]; subst.
      exact H. }
    cbn [app] in *. rewrite re_sub_miss, H0;
      [rewrite <- app_assoc; reflexivity|].
    cbn [braced_char].
    destruct c2 as [|p]; [reflexivity|].
    do 7 (destruct p; try reflexivity). congruence.
Qed.

Lemma latex_to_utf8_single_char_witness :
  latex_to_utf8 (fun s => Ok (py_chars s)) (PyStr (ustr "a {b} c")) true
  = Ok (ustr "a b c").
Proof.
  apply (latex_to_utf8_single_char (fun s => Ok (py_chars s))
           (PyStr (ustr "a {b} c")) true (ustr "a ") (ustr "b") (ustr " c"));
    [reflexivity | repeat constructor; discriminate ..].
Defined.

(** ** Braces *)

Lemma braced_arg_hit (op arg rest : ustring) :
  arg <> [] -> Forall (fun c => c <> 125) arg ->
  braced_arg op (op ++ arg ++ 125 :: rest)
  = Some (arg, (length op + length arg + 1)%nat).
Proof.
  intros Hne Harg. unfold braced_arg. rewrite strip_prefix_app.
  rewrite (span_app_stop (fun c => negb (c =? 125)) arg 125 rest).
  - destruct arg; [congruence | reflexivity].
  - eapply Forall_impl; [|exact Harg].
    intros c Hc. apply negb_true_iff, N.eqb_neq, Hc.
  - reflexivity.
Qed.

Lemma re_sub_braced_arg_hit (op arg rest : ustring) :
  op <> [] -> arg <> [] -> Forall (fun c => c <> 125) arg ->
  re_sub (braced_arg op) (fun g => g) (op ++ arg ++ 125 :: rest)
  = arg ++ re_sub (braced_arg op) (fun g => g) rest.
Proof.
  intros Hop Hne Harg.
  rewrite (re_sub_hit (braced_arg op) _ _ arg (length op + length arg + 1));
    [ | destruct op; [congruence | discriminate]
      | apply braced_arg_hit; assumption | lia ].
  f_equal. f_equal.
  replace (op ++ arg ++ 125 :: rest) with ((op ++ arg ++ [125]) ++ rest)
    by (rewrite <- !app_assoc; reflexivity).
  apply skipn_app_exact. rewrite !length_app. simpl. lia.
Qed.

Lemma Forall_repeat (P : N -> Prop) (c : N) (n : nat) :
  P c -> Forall P (repeat c n).
Proof. intros H. induction n; simpl; constructor; assumption. Qed.

Lemma literal_empty_group_miss (c : N) (r : ustring) :
  c <> 125 -> literal [123; 125] (123 :: c :: r) = None.
Proof.
  intros H. unfold literal. rewrite !strip_prefix_cons.
  change (123 =? 123) with true. cbv iota.
  replace (125 =? c) with false by (symmetry; apply N.eqb_neq; congruence).
  reflexivity.
Qed.

(** [s.replace('{}', '')] finds nothing in a group that is not empty. *)
Lemma str_replace_nested (pre t post : ustring) (n : nat) :
  Forall (fun c => c <> 123) pre ->
  t <> [] -> Forall (fun c => c <> 123 /\ c <> 125) t ->
  Forall (fun c => c <> 123) post ->
  str_replace [123; 125] [] (pre ++ repeat 123 n ++ t ++ post)
  = pre ++ repeat 123 n ++ t ++ post.
Proof.
  intros Hpre Hne Ht Hpost. unfold str_replace.
  rewrite (re_sub_prefix _ _ (fun c => c <> 123));
    [ | intros c r; apply literal_head | exact Hpre ].
  f_equal.
  assert (Ht' : Forall (fun c => c <> 123) (t ++ post)).
  { apply Forall_app. split; [|exact Hpost].
    eapply Forall_impl; [|exact Ht]. intros c [H _]. exact H. }
  induction n as [|n IH]; cbn [repeat app].
  - apply (str_replace_inert 123 [125] []), Ht'.
  - rewrite re_sub_miss; [f_equal; exact IH|].
    destruct n as [|n]; cbn [repeat app].
    + destruct t as [|c t]; [congruence|].
      apply literal_empty_group_miss. inversion Ht as [|? ? [_ H] _]; exact H.
    + apply literal_empty_group_miss. discriminate.
Qed.

(** One pass of [debracket] takes one level of braces off a group. *)
Lemma debracket_level (pre t post : ustring) (n : nat) :
  Forall (fun c => c <> 123) pre ->
  t <> [] -> Forall (fun c => c <> 123 /\ c <> 125) t ->
  Forall (fun c => c <> 123) post ->
  re_sub debracket (fun g => g) (pre ++ repeat 123 (S n) ++ t ++ 125 :: post)
  = pre ++ repeat 123 n ++ t ++ post.
Proof.
  intros Hpre Hne Ht Hpost. unfold debracket.
  rewrite (re_sub_prefix _ _ (fun c => c <> 123));
    [ | intros c r; apply braced_arg_head | exact Hpre ].
  f_equal. cbn [repeat app].
  change (123 :: repeat 123 n ++ t ++ 125 :: post)
    with ([123] ++ repeat 123 n ++ t ++ 125 :: post).
  rewrite (app_assoc (repeat 123 n) t (125 :: post)).
  rewrite re_sub_braced_arg_hit.
  - rewrite braced_arg_inert by exact Hpost. rewrite <- app_assoc. reflexivity.
  - discriminate.
  - destruct t; [congruence|]. destruct (repeat 123 n); discriminate.
  - apply Forall_app. split; [apply Forall_repeat; discriminate|].
    eapply Forall_impl; [|exact Ht]. intros c [_ H]. exact H.
Qed.

Lemma strip_braces_group (pre t post : ustring) :
  Forall (fun c => c <> 123) pre ->
  t <> [] -> Forall (fun c => c <> 123 /\ c <> 125) t ->
  Forall (fun c => c <> 123) post ->
  strip_braces (pre ++ 123 :: t ++ 125 :: post) = pre ++ t ++ post.
Proof.
  intros Hpre Hne Ht Hpost. unfold strip_braces.
  assert (Hp : Forall (fun c => c <> 123) (125 :: post))
    by (constructor; [discriminate | exact Hpost]).
  change (pre ++ 123 :: t ++ 125 :: post)
    with (pre ++ repeat 123 1 ++ t ++ 125 :: post).
  rewrite (str_replace_nested pre t (125 :: post) 1) by assumption.
  rewrite (debracket_level pre t post 0) by assumption.
  cbn [repeat app]. apply braced_arg_inert.
  apply Forall_app. split; [exact Hpre|]. apply Forall_app. split; [|exact Hpost].
  eapply Forall_impl; [|exact Ht]. intros c [H _]. exact H.
Qed.

(** X16: the braces are removed in two passes, so two levels go and no
    more: a group nested [k + 2] deep around a text without braces comes
    out nested [k] deep. *)
Theorem strip_braces_two_levels (pre t post : ustring) (k : nat) :
  Forall (fun c => c <> 123) pre ->
  t <> [] -> Forall (fun c => c <> 123 /\ c <> 125) t ->
  Forall (fun c => c <> 123) post ->
  strip_braces (pre ++ repeat 123 (S (S k)) ++ t ++ repeat 125 (S (S k)) ++ post)
  = pre ++ repeat 123 k ++ t ++ repeat 125 k ++ post.
Proof.
  intros Hpre Hne Ht Hpost. unfold strip_braces.
  assert (Hp : forall m, Forall (fun c => c <> 123) (repeat 125 m ++ post)).
  { intros m. apply Forall_app. split; [apply Forall_repeat; discriminate | exact Hpost]. }
  rewrite str_replace_nested by (assumption || apply Hp).
  change (repeat 125 (S (S k)) ++ post) with (125 :: repeat 125 (S k) ++ post).
  rewrite debracket_level by (assumption || apply Hp).
  change (repeat 125 (S k) ++ post) with (125 :: repeat 125 k ++ post).
  rewrite debracket_level by (assumption || apply Hp).
  reflexivity.
Qed.

Lemma strip_braces_two_levels_witness :
  strip_braces (ustr "a " ++ repeat 123 3 ++ ustr "b c" ++ repeat 125 3 ++ ustr " d}")
  = ustr "a " ++ repeat 123 1 ++ ustr "b c" ++ repeat 125 1 ++ ustr " d}".
Proof.
  apply strip_braces_two_levels;
    [ | discriminate | | ]; repeat constructor; discriminate.
Defined.

(** ** Commands with an argument *)

Lemma command_same (name arg : ustring) :
  arg <> [] -> Forall (fun c => c <> 125) arg -> Forall (fun c => c <> 92) arg ->
  re_sub (braced_arg (92 :: name ++ [32; 123])) (fun a => a)
    (92 :: name ++ [32; 123] ++ arg ++ [125])
  = arg.
Proof.
  intros Hne H125 H92.
  change (92 :: name ++ [32; 123] ++ arg ++ [125])
    with ((92 :: name) ++ [32; 123] ++ arg ++ [125]).
  rewrite (app_assoc (92 :: name)).
  change ((92 :: name) ++ [32; 123]) with (92 :: name ++ [32; 123]).
  rewrite re_sub_braced_arg_hit by (discriminate || assumption).
  apply app_nil_r.
Qed.

Lemma command_miss (name' name sep r : ustring) :
  diverge (name' ++ [32; 123]) (name ++ sep) = true ->
  Forall (fun c => c <> 92) name -> Forall (fun c => c <> 92) sep ->
  Forall (fun c => c <> 92) r ->
  re_sub (braced_arg (92 :: name' ++ [32; 123])) (fun a => a)
    (92 :: name ++ sep ++ r)
  = 92 :: name ++ sep ++ r.
Proof.
  intros Hd Hn Hs Hr. apply braced_arg_clean_tail.
  - cbn [tl]. repeat (apply Forall_app; split); assumption.
  - unfold braced_arg. rewrite strip_prefix_cons. change (92 =? 92) with true.
    cbv iota. rewrite app_assoc, (diverge_strip_prefix _ _ _ Hd). reflexivity.
Qed.

Ltac command_passes arg :=
  unfold command_patterns, command_names, command_pattern;
  cbn [map fold_left];
  repeat first
    [ rewrite command_same by assumption
    | rewrite command_miss
        by solve [reflexivity | assumption | repeat constructor; discriminate]
    | rewrite (braced_arg_inert _ _ arg) by assumption ].

Lemma command_patterns_space (name arg : ustring) :
  In name command_names ->
  arg <> [] -> Forall (fun c => c <> 125) arg -> Forall (fun c => c <> 92) arg ->
  fold_left (fun s p => re_sub p (fun a => a) s) command_patterns
    (92 :: name ++ [32; 123] ++ arg ++ [125])
  = arg.
Proof.
  intros Hin Hne H125 H92.
  assert (Hr : Forall (fun c => c <> 92) (arg ++ [125]))
    by (apply Forall_app; split; [assumption | repeat constructor; discriminate]).
  unfold command_names in Hin.
  destruct Hin as [<-|[<-|[<-|[<-|[]]]]]; command_passes arg; reflexivity.
Qed.

Lemma command_patterns_nospace (name arg : ustring) :
  In name command_names -> Forall (fun c => c <> 92) arg ->
  fold_left (fun s p => re_sub p (fun a => a) s) command_patterns
    (92 :: name ++ [123] ++ arg ++ [125])
  = 92 :: name ++ [123] ++ arg ++ [125].
Proof.
  intros Hin H92.
  assert (Hr : Forall (fun c => c <> 92) (arg ++ [125]))
    by (apply Forall_app; split; [assumption | repeat constructor; discriminate]).
  unfold command_names in Hin.
  destruct Hin as [<-|[<-|[<-|[<-|[]]]]]; command_passes arg; reflexivity.
Qed.

Lemma postprocess_after_commands (ud : Unicodedata) (s s' : ustring) :
  fold_left (fun s p => re_sub p (fun a => a) s) command_patterns s = s' ->
  Forall (fun c => is_plain c = true) s' ->
  Forall (fun c => is_combining ud c = false) s' ->
  ulatex_postprocess ud (PyUnicode s) = Ok (ud_normalize_NFC ud s').
Proof.
  intros H Hp Hc. destruct (Forall_plain s' Hp) as (H92 & H123 & H9238 & H63).
  unfold ulatex_postprocess. cbn [bind].
  rewrite H, strip_braces_inert, reorder_inert by assumption.
  rewrite resolve_numcharrefs_inert by assumption. cbn [bind].
  rewrite strip_commands_inert, recode_language_tags_inert by assumption.
  reflexivity.
Qed.

Lemma fold_strip_none (cmds : list ustring) (s : ustring) :
  (forall cmd, In cmd cmds -> strip_prefix (92 :: cmd ++ [32]) s = None) ->
  fold_left (fun s cmd =>
               match strip_prefix (92 :: cmd ++ [32]) s with
               | Some r => r
               | None => s
               end) cmds s = s.
Proof.
  induction cmds as [|cmd cmds IH]; intros H; cbn [fold_left]; [reflexivity|].
  rewrite (H cmd) by (left; reflexivity). apply IH.
  intros cmd' Hin. apply H. right. exact Hin.
Qed.

Lemma match_tags_none (keys : list ustring) (s : ustring) :
  (forall k, In k keys -> strip_prefix k s = None) -> match_tags keys s = None.
Proof.
  induction keys as [|k keys IH]; intros H; cbn [match_tags]; [reflexivity|].
  rewrite (H k) by (left; reflexivity). apply IH.
  intros k' Hin. apply H. right. exact Hin.
Qed.

(** The passes after the braces leave a command that no pattern knows,
    followed by text without markup, as it is. *)
Lemma late_stages_unknown_command (b r : ustring) :
  forallb (fun cmd => diverge (cmd ++ [32]) b) stripped_commands = true ->
  forallb (fun k => diverge k b) (map fst language_tags) = true ->
  diverge numcharref_amp b = true ->
  Forall (fun c => is_plain c = true) (b ++ r) ->
  resolve_numcharrefs (92 :: b ++ r) = Ok (92 :: b ++ r)
  /\ strip_commands (92 :: b ++ r) = 92 :: b ++ r
  /\ recode_language_tags (92 :: b ++ r) = 92 :: b ++ r.
Proof.
  intros Hcmd Htag Hamp Hp.
  destruct (Forall_plain _ Hp) as (H92 & H123 & H9238 & H63).
  rewrite forallb_forall in Hcmd, Htag.
  split; [|split].
  - unfold resolve_numcharrefs.
    rewrite re_subE_miss.
    + rewrite numcharref1_inert by exact H9238. cbn [bind].
      apply numcharref2_inert. constructor; [discriminate | exact H63].
    + cbn [numcharref_pattern1].
      rewrite (diverge_strip_prefix _ _ _ Hamp). reflexivity.
  - rewrite strip_commands_clean_tail by exact H92.
    apply fold_strip_none. intros cmd Hin.
    rewrite strip_prefix_cons. change (92 =? 92) with true. cbv iota.
    apply diverge_strip_prefix, Hcmd, Hin.
  - unfold recode_language_tags. rewrite re_sub_miss.
    + f_equal. apply (re_sub_inert _ _ (fun c => c <> 92)); [|exact H92].
      intros; apply language_tag_pattern_head; assumption.
    + cbn [language_tag_pattern]. rewrite match_tags_none; [reflexivity|].
      intros k Hin. apply diverge_strip_prefix, Htag, Hin.
Qed.

(** X17: the commands [url], [emph], [textit] and [texttt] lose their name
    only when a space stands between the name and the brace: [\name {arg}]
    becomes [arg], while [\name{arg}] keeps its name and only loses the
    braces. *)
Theorem command_argument_needs_space (ud : Unicodedata) (name arg : ustring) :
  In name command_names ->
  arg <> [] ->
  Forall (fun c => is_plain c = true /\ c <> 125) arg ->
  Forall (fun c => is_combining ud c = false) (92 :: name ++ arg) ->
  ulatex_postprocess ud (PyUnicode (92 :: name ++ [32; 123] ++ arg ++ [125]))
  = Ok (ud_normalize_NFC ud arg)
  /\ ulatex_postprocess ud (PyUnicode (92 :: name ++ [123] ++ arg ++ [125]))
     = Ok (ud_normalize_NFC ud (92 :: name ++ arg)).
Proof.
  intros Hin Hne Harg Hcomb.
  assert (Hp : Forall (fun c => is_plain c = true) arg)
    by (eapply Forall_impl; [|exact Harg]; intros c [H _]; exact H).
  assert (H125 : Forall (fun c => c <> 125) arg)
    by (eapply Forall_impl; [|exact Harg]; intros c [_ H]; exact H).
  destruct (Forall_plain _ Hp) as (H92 & H123 & _ & _).
  assert (Hcarg : Forall (fun c => is_combining ud c = false) arg).
  { inversion Hcomb as [|? ? _ H]; subst. apply Forall_app in H. apply H. }
  assert (Hname : Forall (fun c => is_plain c = true) name
                  /\ forallb (fun cmd => diverge (cmd ++ [32]) name) stripped_commands = true
                  /\ forallb (fun k => diverge k name) (map fst language_tags) = true
                  /\ diverge numcharref_amp name = true).
  { clear - Hin. unfold command_names in Hin.
    destruct Hin as [<-|[<-|[<-|[<-|[]]]]];
      (split; [repeat constructor | repeat split; vm_compute; reflexivity]). }
  destruct Hname as (Hnp & Hcmd & Htag & Hamp).
  split.
  - apply postprocess_after_commands; [|exact Hp|exact Hcarg].
    apply command_patterns_space; assumption.
  - destruct (late_stages_unknown_command name arg Hcmd Htag Hamp)
      as (Hres & Hstrip & Hrec).
    { apply Forall_app. split; assumption. }
    unfold ulatex_postprocess. cbn [bind].
    rewrite command_patterns_nospace by assumption.
    change (92 :: name ++ [123] ++ arg ++ [125])
      with ((92 :: name) ++ 123 :: arg ++ 125 :: []).
    rewrite strip_braces_group;
      [ | constructor; [discriminate|];
          destruct (Forall_plain _ Hnp) as (_ & H & _); exact H
        | exact Hne
        | apply Forall_forall; intros c Hc; split;
          [ exact (proj1 (Forall_forall _ _) H123 c Hc)
          | exact (proj1 (Forall_forall _ _) H125 c Hc) ]
        | constructor ].
    rewrite app_nil_r. cbn [app].
    rewrite reorder_inert by exact Hcomb.
    rewrite Hres. cbn [bind]. rewrite Hstrip, Hrec. reflexivity.
Qed.

Lemma command_argument_needs_space_witness :
  ulatex_postprocess ucd_excerpt
    (PyUnicode (92 :: ustr "emph" ++ [32; 123] ++ ustr "Hausa" ++ [125]))
  = Ok (ud_normalize_NFC ucd_excerpt (ustr "Hausa"))
  /\ ulatex_postprocess ucd_excerpt
       (PyUnicode (92 :: ustr "emph" ++ [123] ++ ustr "Hausa" ++ [125]))
     = Ok (ud_normalize_NFC ucd_excerpt (92 :: ustr "emph" ++ ustr "Hausa")).
Proof.
  apply command_argument_needs_space.
  - right. left. reflexivity.
  - discriminate.
  - repeat constructor; discriminate.
  - repeat constructor.
Defined.

(** ** The two passes over numeric references *)



(** ** What [ulatex_postprocess] can raise *)

Lemma subE_numcharref_raises (m : matcher) (s : ustring) : forall k e,
  subE_from m numcharref_repl k s = Raise e ->
  e = ValueError \/ e = OverflowError.
Proof.
  induction s as [|c s IH]; intros k e H; cbn [subE_from] in H; [discriminate|].
  destruct k as [|k]; [|exact (IH _ _ H)].
  destruct (m (c :: s)) as [[g len]|].
  - destruct (numcharref_repl g) as [r0|e0] eqn:Er; cbn [bind] in H.
    + destruct (subE_from m numcharref_repl (len - 1) s) as [r|e'] eqn:E;
        cbn [bind] in H; [discriminate|].
      injection H as <-. exact (IH _ _ E).
    + injection H as <-. unfold numcharref_repl, unichr in Er.
      destruct (int_of_digits g <=? maxunicode); [discriminate|].
      destruct (int_of_digits g <=? INT_MAX); injection Er as <-; auto.
  - destruct (subE_from m numcharref_repl 0 s) as [r|e'] eqn:E;
      cbn [bind] in H; [discriminate|].
    injection H as <-. exact (IH _ _ E).
Qed.

Lemma resolve_numcharrefs_raises (s : ustring) (e : exn) :
  resolve_numcharrefs s = Raise e -> e = ValueError \/ e = OverflowError.
Proof.
  unfold resolve_numcharrefs, re_subE. intros H.
  destruct (subE_from numcharref_pattern1 numcharref_repl 0 s) as [r|e'] eqn:E.
  - cbn [bind] in H. exact (subE_numcharref_raises _ _ _ _ H).
  - cbn [bind] in H. injection H as <-. exact (subE_numcharref_raises _ _ _ _ E).
Qed.

(** X19: the exceptions of [ulatex_postprocess].  A [str] with a byte above
    127 raises [UnicodeDecodeError], and nothing else raises it; every
    other exception is the [ValueError] or the [OverflowError] of [unichr]
    on a numeric reference. *)
Theorem ulatex_postprocess_exceptions (ud : Unicodedata) :
  (forall b, forallb (fun c => c <=? 127) b = false ->
             ulatex_postprocess ud (PyStr b) = Raise UnicodeDecodeError)
  /\ (forall s e, ulatex_postprocess ud s = Raise e ->
        (e = UnicodeDecodeError
         /\ exists b, s = PyStr b /\ forallb (fun c => c <=? 127) b = false)
        \/ e = ValueError \/ e = OverflowError).
Proof.
  split.
  - intros b Hb. unfold ulatex_postprocess, ascii_decode. rewrite Hb. reflexivity.
  - intros s e H. unfold ulatex_postprocess in H.
    assert (Hrest : forall u,
      (s0 <- resolve_numcharrefs
               (reorder_combining ud
                  (strip_braces
                     (fold_left (fun s1 p => re_sub p (fun arg => arg) s1)
                        command_patterns u))) ;;
       Ok (ud_normalize_NFC ud (recode_language_tags (strip_commands s0))))
      = Raise e -> e = ValueError \/ e = OverflowError).
    { intros u Hu.
      destruct (resolve_numcharrefs
                  (reorder_combining ud
                     (strip_braces
                        (fold_left (fun s1 p => re_sub p (fun arg => arg) s1)
                           command_patterns u)))) as [r|e'] eqn:E;
        cbn [bind] in Hu; [discriminate|].
      injection Hu as <-. exact (resolve_numcharrefs_raises _ _ E). }
    destruct s as [b|u]; cbn [bind] in H.
    + unfold ascii_decode in H.
      destruct (forallb (fun c => c <=? 127) b) eqn:Hb; cbn [bind] in H.
      * right. exact (Hrest _ H).
      * injection H as <-. left. split; [reflexivity|]. exists b. auto.
    + right. exact (Hrest _ H).
Qed.

(** ** Numeric references and the legacy escape *)







(** * The passes of the post-processing, in running text *)

Lemma ulatex_postprocess_passes (ud : Unicodedata) (s : ustring) :
  ulatex_postprocess ud (PyUnicode s) =
  (r <- ulatex_passes ud s ;; Ok (ud_normalize_NFC ud r)).
Proof.
  unfold ulatex_postprocess, ulatex_passes. cbn [bind].
  destruct (resolve_numcharrefs _); reflexivity.
Qed.

(** Text without markup in front of a text is passed over by every pass. *)

Lemma command_patterns_prefix (pre s : ustring) :
  Forall (fun c => c <> 92) pre ->
  fold_left (fun s p => re_sub p (fun arg => arg) s) command_patterns (pre ++ s)
  = pre ++ fold_left (fun s p => re_sub p (fun arg => arg) s) command_patterns s.
Proof.
  intros Hpre. unfold command_patterns, command_names, command_pattern.
  cbn [map fold_left].
  repeat (rewrite (re_sub_prefix _ _ (fun c => c <> 92) pre);
          [ | intros; apply braced_arg_head; assumption | exact Hpre ]).
  reflexivity.
Qed.

Lemma strip_braces_prefix (pre s : ustring) :
  Forall (fun c => c <> 123) pre ->
  strip_braces (pre ++ s) = pre ++ strip_braces s.
Proof.
  intros Hpre. unfold strip_braces, debracket, str_replace.
  rewrite (re_sub_prefix _ _ (fun c => c <> 123) pre);
    [ | intros; apply literal_head; assumption | exact Hpre ].
  repeat (rewrite (re_sub_prefix _ _ (fun c => c <> 123) pre);
          [ | intros; apply braced_arg_head; assumption | exact Hpre ]).
  reflexivity.
Qed.

Lemma reorder_prefix (ud : Unicodedata) (pre s : ustring) :
  Forall (fun c => is_combining ud c = false) pre ->
  reorder_combining ud (pre ++ s) = pre ++ reorder_combining ud s.
Proof.
  induction 1 as [|c pre Hc _ IH]; [reflexivity|].
  pose proof (reorder_base ud [] c (pre ++ s) (Forall_nil _) Hc) as E.
  cbn [rev app] in *. rewrite E, IH. reflexivity.
Qed.

Lemma resolve_numcharrefs_prefix (pre s : ustring) :
  Forall (fun c => c <> 92 /\ c <> 38) pre -> Forall (fun c => c <> 63) pre ->
  resolve_numcharrefs (pre ++ s) = (r <- resolve_numcharrefs s ;; Ok (pre ++ r)).
Proof.
  intros H1 H2. unfold resolve_numcharrefs.
  rewrite (re_subE_prefix _ _ (fun c => c <> 92 /\ c <> 38) pre);
    [ | intros c t [? ?]; apply numcharref_pattern1_head; assumption | exact H1 ].
  destruct (re_subE numcharref_pattern1 numcharref_repl s) as [s1|e]; cbn [bind];
    [|reflexivity].
  rewrite (re_subE_prefix _ _ (fun c => c <> 63) pre);
    [ | intros; apply numcharref_pattern2_head; assumption | exact H2 ].
  reflexivity.
Qed.

Lemma strip_commands_prefix (pre s : ustring) :
  Forall (fun c => c <> 92) pre ->
  strip_commands (pre ++ s) = pre ++ strip_commands s.
Proof.
  intros Hpre. unfold strip_commands, stripped_commands, str_replace.
  cbn [fold_left].
  repeat (rewrite (re_sub_prefix _ _ (fun c => c <> 92) pre);
          [ | intros; apply literal_head; assumption | exact Hpre ]).
  reflexivity.
Qed.

Lemma recode_language_tags_prefix (pre s : ustring) :
  Forall (fun c => c <> 92) pre ->
  recode_language_tags (pre ++ s) = pre ++ recode_language_tags s.
Proof.
  intros Hpre. unfold recode_language_tags.
  apply (re_sub_prefix _ _ (fun c => c <> 92)); [|exact Hpre].
  intros; apply language_tag_pattern_head; assumption.
Qed.

Lemma ulatex_passes_prefix (ud : Unicodedata) (pre s : ustring) :
  Forall (fun c => is_plain c = true) pre ->
  Forall (fun c => is_combining ud c = false) pre ->
  ulatex_passes ud (pre ++ s) = (r <- ulatex_passes ud s ;; Ok (pre ++ r)).
Proof.
  intros Hp Hc. destruct (Forall_plain pre Hp) as (H92 & H123 & H9238 & H63).
  unfold ulatex_passes.
  rewrite command_patterns_prefix, strip_braces_prefix, reorder_prefix,
    resolve_numcharrefs_prefix by assumption.
  destruct (resolve_numcharrefs _) as [r|e]; cbn [bind]; [|reflexivity].
  rewrite strip_commands_prefix, recode_language_tags_prefix by assumption.
  reflexivity.
Qed.

(** ** Numeric references in running text *)

Lemma ulatex_passes_early (ud : Unicodedata) (s : ustring) :
  fold_left (fun s p => re_sub p (fun arg => arg) s) command_patterns s = s ->
  Forall (fun c => c <> 123) s ->
  Forall (fun c => is_combining ud c = false) s ->
  ulatex_passes ud s =
  (r <- resolve_numcharrefs s ;; Ok (recode_language_tags (strip_commands r))).
Proof.
  intros H1 H2 H3. unfold ulatex_passes.
  rewrite H1, strip_braces_inert, reorder_inert by assumption. reflexivity.
Qed.

Lemma numcharref_pattern2_no_backslash (c : N) (post : ustring) :
  Forall (fun x => x <> 92) post -> numcharref_pattern2 (c :: post) = None.
Proof.
  intros H. unfold numcharref_pattern2, u_open.
  rewrite strip_prefix_cons. destruct (63 =? c); [|reflexivity].
  destruct post as [|x post]; [reflexivity|].
  rewrite strip_prefix_cons. destruct (91 =? x); [|reflexivity].
  destruct post as [|y post]; [reflexivity|].
  rewrite strip_prefix_cons.
  inversion H as [|? ? _ H']; subst. inversion H' as [|? ? Hy _]; subst.
  replace (92 =? y) with false by (symmetry; apply N.eqb_neq; congruence).
  reflexivity.
Qed.

Lemma late_stages_char (c : N) (post : ustring) :
  c <> 92 -> Forall (fun x => x <> 92) post ->
  recode_language_tags (strip_commands (c :: post)) = c :: post.
Proof.
  intros Hc Hp.
  assert (H : Forall (fun x => x <> 92) (c :: post)) by (constructor; assumption).
  rewrite strip_commands_inert, recode_language_tags_inert by exact H.
  reflexivity.
Qed.

(** A pass replaces a reference and goes on with the text after it. *)
Lemma pass1_reference (bs dec rest : ustring) :
  bs = [] \/ bs = [92] ->
  dec <> [] -> Forall (fun c => is_digit c = true) dec ->
  re_subE numcharref_pattern1 numcharref_repl (bs ++ 38 :: 35 :: dec ++ 59 :: rest)
  = (r <- numcharref_repl dec ;;
     rest' <- re_subE numcharref_pattern1 numcharref_repl rest ;;
     Ok (r ++ rest')).
Proof.
  intros Hbs Hne Hd.
  assert (Hsk : skipn (2 + length dec + 1) (38 :: 35 :: dec ++ 59 :: rest) = rest).
  { change (38 :: 35 :: dec ++ 59 :: rest) with ([38; 35] ++ dec ++ [59] ++ rest).
    rewrite !app_assoc. apply skipn_app_exact. rewrite !length_app. simpl. lia. }
  destruct Hbs as [-> | ->]; cbn [app].
  - rewrite (re_subE_hit numcharref_pattern1 _ _ dec (2 + length dec + 1));
      [ | discriminate | apply (numcharref_pattern1_amp dec rest); assumption | lia ].
    rewrite Hsk. reflexivity.
  - rewrite (re_subE_hit numcharref_pattern1 _ _ dec (S (2 + length dec + 1)));
      [ | discriminate
        | apply (numcharref_pattern1_backslash_amp dec rest); assumption | lia ].
    change (skipn (S (2 + length dec + 1)) (92 :: 38 :: 35 :: dec ++ 59 :: rest))
      with (skipn (2 + length dec + 1) (38 :: 35 :: dec ++ 59 :: rest)).
    rewrite Hsk. reflexivity.
Qed.

Lemma pass2_reference (dec rest : ustring) :
  dec <> [] -> Forall (fun c => is_digit c = true) dec ->
  re_subE numcharref_pattern2 numcharref_repl (u_open ++ dec ++ 93 :: rest)
  = (r <- numcharref_repl dec ;;
     rest' <- re_subE numcharref_pattern2 numcharref_repl rest ;;
     Ok (r ++ rest')).
Proof.
  intros Hne Hd.
  rewrite (re_subE_hit numcharref_pattern2 _ _ dec (4 + 0 + length dec + 1));
    [ | discriminate | apply (numcharref_pattern2_u dec rest); assumption | lia ].
  replace (u_open ++ dec ++ 93 :: rest) with ((u_open ++ dec ++ [93]) ++ rest)
    by (rewrite <- !app_assoc; reflexivity).
  rewrite skipn_app_exact by (unfold u_open; rewrite !length_app; simpl; lia).
  reflexivity.
Qed.

Lemma command_patterns_u (dec post : ustring) :
  dec <> [] -> Forall (fun c => is_digit c = true) dec ->
  Forall (fun c => c <> 92) post ->
  fold_left (fun s p => re_sub p (fun arg => arg) s) command_patterns
    (u_open ++ dec ++ 93 :: post)
  = u_open ++ dec ++ 93 :: post.
Proof.
  intros Hne Hd P92.
  assert (D92 := digits_avoid 92 _ Hd ltac:(lia)).
  destruct dec as [|d dec']; [congruence|].
  assert (Hd1 : is_digit d = true) by (inversion Hd; assumption).
  change (u_open ++ (d :: dec') ++ 93 :: post)
    with ([63; 91] ++ 92 :: 117 :: (d :: dec') ++ 93 :: post).
  apply command_patterns_one_backslash.
  - repeat constructor; discriminate.
  - cbn [tl]. apply Forall_cons; [discriminate|].
    apply Forall_app. split; [exact D92|].
    apply Forall_cons; [discriminate | exact P92].
  - assert (d <> 114) by (apply (is_digit_not d 114 Hd1); lia).
    unfold command_patterns, command_names, command_pattern.
    cbn [map app].
    apply Forall_cons; [|repeat constructor; reflexivity].
    unfold braced_arg. rewrite !strip_prefix_cons.
    replace (114 =? d) with false by (symmetry; apply N.eqb_neq; congruence).
    reflexivity.
Qed.

Section ReferencesInText.

Variable dec : ustring.
Hypothesis dec_nonempty : dec <> [].
Hypothesis dec_digits : Forall (fun c => is_digit c = true) dec.

Variable post : ustring.
Hypothesis post_plain : Forall (fun c => is_plain c = true) post.

Lemma post_chars :
  Forall (fun c => c <> 92) post /\ Forall (fun c => c <> 123) post
  /\ Forall (fun c => c <> 92 /\ c <> 38) post /\ Forall (fun c => c <> 63) post.
Proof using post_plain. apply Forall_plain, post_plain. Qed.

Lemma dec_chars :
  Forall (fun c => c <> 92) dec /\ Forall (fun c => c <> 123) dec
  /\ Forall (fun c => c <> 92 /\ c <> 38) dec /\ Forall (fun c => c <> 63) dec.
Proof using dec_digits.
  repeat split; eapply Forall_impl; try exact dec_digits;
    intros d H; apply is_digit_iff in H; lia.
Qed.

(** The first pass over [&#DEC;post] and [\&#DEC;post]. *)
Lemma pass1_amp (bs : ustring) :
  bs = [] \/ bs = [92] ->
  re_subE numcharref_pattern1 numcharref_repl (bs ++ 38 :: 35 :: dec ++ 59 :: post)
  = (r <- numcharref_repl dec ;; Ok (r ++ post)).
Proof using dec_nonempty dec_digits post_plain.
  intros Hbs. destruct post_chars as (_ & _ & P9238 & _).
  rewrite pass1_reference by assumption.
  rewrite numcharref1_inert by exact P9238.
  destruct (numcharref_repl dec); reflexivity.
Qed.

(** The first pass leaves [?[\uDEC]post] alone. *)
Lemma pass1_u :
  re_subE numcharref_pattern1 numcharref_repl (u_open ++ dec ++ 93 :: post)
  = Ok (u_open ++ dec ++ 93 :: post).
Proof using dec_digits post_plain.
  destruct post_chars as (_ & _ & P9238 & _).
  destruct dec_chars as (_ & _ & D9238 & _).
  change (u_open ++ dec ++ 93 :: post)
    with ([63; 91] ++ 92 :: 117 :: dec ++ 93 :: post).
  rewrite (re_subE_prefix _ _ (fun c => c <> 92 /\ c <> 38));
    [ | intros c t [? ?]; apply numcharref_pattern1_head; assumption
      | repeat constructor; discriminate ].
  rewrite re_subE_miss by reflexivity.
  rewrite numcharref1_inert; [reflexivity|].
  apply Forall_cons; [split; discriminate|].
  apply Forall_app. split; [exact D9238|].
  apply Forall_cons; [split; discriminate | exact P9238].
Qed.

(** The second pass over [?[\uDEC]post]. *)
Lemma pass2_u :
  re_subE numcharref_pattern2 numcharref_repl (u_open ++ dec ++ 93 :: post)
  = (r <- numcharref_repl dec ;; Ok (r ++ post)).
Proof using dec_nonempty dec_digits post_plain.
  destruct post_chars as (_ & _ & _ & P63).
  rewrite pass2_reference by assumption.
  rewrite numcharref2_inert by exact P63.
  destruct (numcharref_repl dec); reflexivity.
Qed.

(** The second pass over the character that the first pass has written. *)
Lemma pass2_char (c : N) :
  re_subE numcharref_pattern2 numcharref_repl (c :: post) = Ok (c :: post).
Proof using post_plain.
  destruct post_chars as (P92 & _ & _ & P63).
  rewrite re_subE_miss by (apply numcharref_pattern2_no_backslash, P92).
  rewrite numcharref2_inert by exact P63. reflexivity.
Qed.

Lemma resolve_amp_post (bs : ustring) :
  bs = [] \/ bs = [92] ->
  resolve_numcharrefs (bs ++ 38 :: 35 :: dec ++ 59 :: post)
  = (c <- unichr (int_of_digits dec) ;; Ok (c :: post)).
Proof using dec_nonempty dec_digits post_plain.
  intros Hbs. unfold resolve_numcharrefs. rewrite (pass1_amp bs Hbs).
  unfold numcharref_repl.
  destruct (unichr (int_of_digits dec)) as [c|e]; cbn [bind app]; [|reflexivity].
  apply pass2_char.
Qed.

Lemma resolve_u_post :
  resolve_numcharrefs (u_open ++ dec ++ 93 :: post)
  = (c <- unichr (int_of_digits dec) ;; Ok (c :: post)).
Proof using dec_nonempty dec_digits post_plain.
  unfold resolve_numcharrefs. rewrite pass1_u. cbn [bind]. rewrite pass2_u.
  unfold numcharref_repl.
  destruct (unichr (int_of_digits dec)) as [c|e]; reflexivity.
Qed.

Variable ud : Unicodedata.

(** The passes before the resolution leave the three spellings alone. *)
Lemma passes_amp_post (bs : ustring) :
  bs = [] \/ bs = [92] ->
  Forall (fun c => is_combining ud c = false) (bs ++ 38 :: 35 :: dec ++ 59 :: post) ->
  ulatex_passes ud (bs ++ 38 :: 35 :: dec ++ 59 :: post)
  = (c <- unichr (int_of_digits dec) ;;
     Ok (recode_language_tags (strip_commands (c :: post)))).
Proof using dec_nonempty dec_digits post_plain.
  intros Hbs Hcomb.
  destruct post_chars as (P92 & P123 & _ & _).
  destruct dec_chars as (D92 & D123 & _ & _).
  assert (T92 : Forall (fun c => c <> 92) (38 :: 35 :: dec ++ 59 :: post)).
  { repeat (apply Forall_cons; [discriminate|]).
    apply Forall_app. split; [exact D92|].
    apply Forall_cons; [discriminate | exact P92]. }
  assert (T123 : Forall (fun c => c <> 123) (38 :: 35 :: dec ++ 59 :: post)).
  { repeat (apply Forall_cons; [discriminate|]).
    apply Forall_app. split; [exact D123|].
    apply Forall_cons; [discriminate | exact P123]. }
  rewrite ulatex_passes_early; [ | | | exact Hcomb ].
  - rewrite (resolve_amp_post bs Hbs).
    destruct (unichr (int_of_digits dec)); reflexivity.
  - destruct Hbs as [-> | ->]; cbn [app].
    + apply command_patterns_inert, T92.
    + apply (command_patterns_one_backslash []);
        [constructor | exact T92 | repeat constructor].
  - destruct Hbs as [-> | ->]; cbn [app];
      [exact T123 | apply Forall_cons; [discriminate | exact T123]].
Qed.

Lemma passes_u_post :
  Forall (fun c => is_combining ud c = false) (u_open ++ dec ++ 93 :: post) ->
  ulatex_passes ud (u_open ++ dec ++ 93 :: post)
  = (c <- unichr (int_of_digits dec) ;;
     Ok (recode_language_tags (strip_commands (c :: post)))).
Proof using dec_nonempty dec_digits post_plain.
  intros Hcomb.
  destruct post_chars as (P92 & P123 & _ & _).
  destruct dec_chars as (D92 & D123 & _ & _).
  rewrite ulatex_passes_early; [ | | | exact Hcomb ].
  - rewrite resolve_u_post.
    destruct (unichr (int_of_digits dec)); reflexivity.
  - apply command_patterns_u; assumption.
  - unfold u_open. cbn [app]. repeat (apply Forall_cons; [discriminate|]).
    apply Forall_app. split; [exact D123|].
    apply Forall_cons; [discriminate | exact P123].
Qed.

End ReferencesInText.

(** The three spellings of a reference in front of [post], after the passes;
    [unichr] decides. *)
Lemma passes_references (ud : Unicodedata) (dec post : ustring) :
  dec <> [] ->
  Forall (fun c => is_digit c = true) dec ->
  Forall (fun c => is_plain c = true) post ->
  Forall (fun c => is_combining ud c = false) (ustr "\&#;?[u]" ++ dec ++ post) ->
  let after :=
    c <- unichr (int_of_digits dec) ;;
    Ok (recode_language_tags (strip_commands (c :: post))) in
  ulatex_passes ud (ustr "&#" ++ dec ++ ustr ";" ++ post) = after
  /\ ulatex_passes ud (ustr "\&#" ++ dec ++ ustr ";" ++ post) = after
  /\ ulatex_passes ud (ustr "?[\u" ++ dec ++ ustr "]" ++ post) = after.
Proof.
  intros Hne Hd Hp Hcomb after. subst after.
  change (ustr "\&#;?[u]") with [92; 38; 35; 59; 63; 91; 117; 93] in Hcomb.
  apply Forall_app in Hcomb. destruct Hcomb as [Hm Hcomb].
  apply Forall_app in Hcomb. destruct Hcomb as [Hcd Hcp].
  repeat match goal with
  | H : Forall _ (_ :: _) |- _ => inversion H; clear H; subst
  end.
  split; [|split].
  - apply (passes_amp_post dec Hne Hd post Hp ud []); [left; reflexivity|].
    cbn [app]. repeat (apply Forall_cons; [assumption|]).
    apply Forall_app. split; [exact Hcd|]. apply Forall_cons; assumption.
  - apply (passes_amp_post dec Hne Hd post Hp ud [92]); [right; reflexivity|].
    cbn [app]. repeat (apply Forall_cons; [assumption|]).
    apply Forall_app. split; [exact Hcd|]. apply Forall_cons; assumption.
  - apply (passes_u_post dec Hne Hd post Hp ud).
    unfold u_open. cbn [app]. repeat (apply Forall_cons; [assumption|]).
    apply Forall_app. split; [exact Hcd|]. apply Forall_cons; assumption.
Qed.

(** C7, as the code has it: in text without other markup a numeric
    reference spelled [&#DEC;], [\&#DEC;] or [?[\uDEC]], with any number of
    digits and [DEC] at most 1114111, is replaced by the code point [DEC],
    wherever it stands.  The character then goes through the passes that
    follow, which delete a command or rewrite a tag that a backslash
    ([DEC] = 92) starts, and through the final NFC normalisation, which may
    replace it. *)
Theorem numcharrefs_resolved (ud : Unicodedata) (pre dec post : ustring) :
  dec <> [] ->
  Forall (fun c => is_digit c = true) dec ->
  int_of_digits dec <= maxunicode ->
  Forall (fun c => is_plain c = true) pre ->
  Forall (fun c => is_plain c = true) post ->
  (resolve_numcharrefs (pre ++ ustr "&#" ++ dec ++ ustr ";" ++ post)
   = Ok (pre ++ int_of_digits dec :: post)
   /\ resolve_numcharrefs (pre ++ ustr "\&#" ++ dec ++ ustr ";" ++ post)
      = Ok (pre ++ int_of_digits dec :: post)
   /\ resolve_numcharrefs (pre ++ ustr "?[\u" ++ dec ++ ustr "]" ++ post)
      = Ok (pre ++ int_of_digits dec :: post))
  /\ (Forall (fun c => is_combining ud c = false)
        (pre ++ ustr "\&#;?[u]" ++ dec ++ post) ->
      ulatex_postprocess ud
        (PyUnicode (pre ++ ustr "&#" ++ dec ++ ustr ";" ++ post))
      = Ok (ud_normalize_NFC ud
              (pre ++ recode_language_tags
                        (strip_commands (int_of_digits dec :: post))))
      /\ ulatex_postprocess ud
           (PyUnicode (pre ++ ustr "\&#" ++ dec ++ ustr ";" ++ post))
         = Ok (ud_normalize_NFC ud
                 (pre ++ recode_language_tags
                           (strip_commands (int_of_digits dec :: post))))
      /\ ulatex_postprocess ud
           (PyUnicode (pre ++ ustr "?[\u" ++ dec ++ ustr "]" ++ post))
         = Ok (ud_normalize_NFC ud
                 (pre ++ recode_language_tags
                           (strip_commands (int_of_digits dec :: post)))))
  /\ (int_of_digits dec <> 92 ->
      recode_language_tags (strip_commands (int_of_digits dec :: post))
      = int_of_digits dec :: post)
  /\ (forall rest,
      re_subE numcharref_pattern1 numcharref_repl
        (pre ++ ustr "&#" ++ dec ++ ustr ";" ++ rest)
      = (r <- re_subE numcharref_pattern1 numcharref_repl rest ;;
         Ok (pre ++ int_of_digits dec :: r))
      /\ re_subE numcharref_pattern1 numcharref_repl
           (pre ++ ustr "\&#" ++ dec ++ ustr ";" ++ rest)
         = (r <- re_subE numcharref_pattern1 numcharref_repl rest ;;
            Ok (pre ++ int_of_digits dec :: r))
      /\ re_subE numcharref_pattern2 numcharref_repl
           (pre ++ ustr "?[\u" ++ dec ++ ustr "]" ++ rest)
         = (r <- re_subE numcharref_pattern2 numcharref_repl rest ;;
            Ok (pre ++ int_of_digits dec :: r))).
Proof.
  intros Hne Hd Hcp Hpre Hpost.
  destruct (Forall_plain pre Hpre) as (_ & _ & R9238 & R63).
  assert (Hu : unichr (int_of_digits dec) = Ok (int_of_digits dec)).
  { unfold unichr. apply N.leb_le in Hcp. rewrite Hcp. reflexivity. }
  assert (Hr : numcharref_repl dec = Ok [int_of_digits dec])
    by (apply numcharref_repl_ok, Hcp).
  split; [|split; [|split]].
  - change (pre ++ ustr "&#" ++ dec ++ ustr ";" ++ post)
      with (pre ++ [] ++ 38 :: 35 :: dec ++ 59 :: post).
    change (pre ++ ustr "\&#" ++ dec ++ ustr ";" ++ post)
      with (pre ++ [92] ++ 38 :: 35 :: dec ++ 59 :: post).
    change (pre ++ ustr "?[\u" ++ dec ++ ustr "]" ++ post)
      with (pre ++ u_open ++ dec ++ 93 :: post).
    repeat split; rewrite resolve_numcharrefs_prefix by assumption.
    + rewrite resolve_amp_post by (assumption || auto).
      rewrite Hu. reflexivity.
    + rewrite resolve_amp_post by (assumption || auto).
      rewrite Hu. reflexivity.
    + rewrite resolve_u_post by assumption. rewrite Hu. reflexivity.
  - intros Hcomb.
    apply Forall_app in Hcomb. destruct Hcomb as [Hcpre Hcomb].
    destruct (passes_references ud dec post Hne Hd Hpost Hcomb) as (E1 & E2 & E3).
    cbv zeta in E1, E2, E3. rewrite Hu in E1, E2, E3. cbn [bind] in E1, E2, E3.
    repeat split;
      rewrite ulatex_postprocess_passes, ulatex_passes_prefix by assumption;
      [rewrite E1 | rewrite E2 | rewrite E3]; reflexivity.
  - intros H92. apply late_stages_char; [exact H92|].
    apply (Forall_plain post Hpost).
  - intros rest.
    change (pre ++ ustr "&#" ++ dec ++ ustr ";" ++ rest)
      with (pre ++ [] ++ 38 :: 35 :: dec ++ 59 :: rest).
    change (pre ++ ustr "\&#" ++ dec ++ ustr ";" ++ rest)
      with (pre ++ [92] ++ 38 :: 35 :: dec ++ 59 :: rest).
    change (pre ++ ustr "?[\u" ++ dec ++ ustr "]" ++ rest)
      with (pre ++ u_open ++ dec ++ 93 :: rest).
    repeat split.
    + rewrite (re_subE_prefix _ _ (fun c => c <> 92 /\ c <> 38) pre);
        [ | intros c t [? ?]; apply numcharref_pattern1_head; assumption
          | exact R9238 ].
      rewrite pass1_reference, Hr by (assumption || auto). cbn [bind app].
      destruct (re_subE numcharref_pattern1 numcharref_repl rest); reflexivity.
    + rewrite (re_subE_prefix _ _ (fun c => c <> 92 /\ c <> 38) pre);
        [ | intros c t [? ?]; apply numcharref_pattern1_head; assumption
          | exact R9238 ].
      rewrite pass1_reference, Hr by (assumption || auto). cbn [bind app].
      destruct (re_subE numcharref_pattern1 numcharref_repl rest); reflexivity.
    + rewrite (re_subE_prefix _ _ (fun c => c <> 63) pre);
        [ | intros; apply numcharref_pattern2_head; assumption | exact R63 ].
      rewrite pass2_reference, Hr by assumption. cbn [bind app].
      destruct (re_subE numcharref_pattern2 numcharref_repl rest); reflexivity.
Qed.

Lemma numcharrefs_resolved_witness :
  (resolve_numcharrefs (ustr "caf" ++ ustr "&#" ++ ustr "233" ++ ustr ";" ++ ustr " ok")
   = Ok (ustr "caf" ++ int_of_digits (ustr "233") :: ustr " ok")
   /\ resolve_numcharrefs (ustr "caf" ++ ustr "\&#" ++ ustr "233" ++ ustr ";" ++ ustr " ok")
      = Ok (ustr "caf" ++ int_of_digits (ustr "233") :: ustr " ok")
   /\ resolve_numcharrefs (ustr "caf" ++ ustr "?[\u" ++ ustr "233" ++ ustr "]" ++ ustr " ok")
      = Ok (ustr "caf" ++ int_of_digits (ustr "233") :: ustr " ok"))
  /\ (ulatex_postprocess ucd_excerpt
        (PyUnicode (ustr "caf" ++ ustr "&#" ++ ustr "233" ++ ustr ";" ++ ustr " ok"))
      = Ok (ustr "caf" ++ [233] ++ ustr " ok")
      /\ ulatex_postprocess ucd_excerpt
           (PyUnicode (ustr "caf" ++ ustr "\&#" ++ ustr "233" ++ ustr ";" ++ ustr " ok"))
         = Ok (ustr "caf" ++ [233] ++ ustr " ok")
      /\ ulatex_postprocess ucd_excerpt
           (PyUnicode (ustr "caf" ++ ustr "?[\u" ++ ustr "233" ++ ustr "]" ++ ustr " ok"))
         = Ok (ustr "caf" ++ [233] ++ ustr " ok"))
  /\ recode_language_tags (strip_commands (int_of_digits (ustr "233") :: ustr " ok"))
     = int_of_digits (ustr "233") :: ustr " ok".
Proof.
  destruct (numcharrefs_resolved ucd_excerpt (ustr "caf") (ustr "233") (ustr " ok"))
    as (Hres & Hpost & Hlate & _).
  - discriminate.
  - repeat constructor.
  - vm_compute. discriminate.
  - repeat constructor.
  - repeat constructor.
  - split; [exact Hres|]. split.
    + apply Hpost. repeat constructor.
    + apply Hlate. vm_compute. discriminate.
Defined.

(** C7 as stated fails: the code point is not always what comes out.
    [&#8486;] (OHM SIGN) gives U+03A9, which NFC puts in its place, and a
    number above 1114111 raises instead of being resolved. *)
Lemma numcharrefs_resolved_counterexample :
  ulatex_postprocess ucd_excerpt (PyUnicode (ustr "&#8486;")) = Ok [937]
  /\ ulatex_postprocess ucd_excerpt (PyUnicode (ustr "&#1114112;"))
     = Raise ValueError.
Proof. split; reflexivity. Qed.



(** ** Language tags in running text *)




(** ** The order of the passes *)

(** A deleted command after a backslash of its own. *)

Lemma literal_second_backslash (c0 : N) (p r : ustring) :
  c0 <> 92 -> literal (92 :: c0 :: p) (92 :: 92 :: r) = None.
Proof.
  intros H. unfold literal. rewrite !strip_prefix_cons.
  change (92 =? 92) with true. cbv iota.
  replace (c0 =? 92) with false by (symmetry; apply N.eqb_neq; exact H).
  reflexivity.
Qed.

Lemma str_replace_other (c0 : N) (cmd' cmd rest : ustring) :
  c0 <> 92 ->
  diverge (c0 :: cmd' ++ [32]) (cmd ++ [32]) = true ->
  Forall (fun c => c <> 92) (cmd ++ 32 :: rest) ->
  str_replace (92 :: (c0 :: cmd') ++ [32]) [] (92 :: 92 :: cmd ++ 32 :: rest)
  = 92 :: 92 :: cmd ++ 32 :: rest.
Proof.
  intros Hc Hd H92.
  pose proof (str_replace_clean_tail ((c0 :: cmd') ++ [32])
                (92 :: cmd ++ 32 :: rest) H92) as E.
  unfold str_replace in *.
  rewrite re_sub_miss by (apply literal_second_backslash, Hc).
  rewrite E. rewrite strip_prefix_cons. change (92 =? 92) with true. cbv iota.
  replace (cmd ++ 32 :: rest) with ((cmd ++ [32]) ++ rest)
    by (rewrite <- app_assoc; reflexivity).
  rewrite (diverge_strip_prefix _ _ _ Hd). reflexivity.
Qed.

Lemma str_replace_second (c0 : N) (cmd rest : ustring) :
  c0 <> 92 ->
  Forall (fun c => c <> 92) ((c0 :: cmd) ++ 32 :: rest) ->
  str_replace (92 :: (c0 :: cmd) ++ [32]) [] (92 :: 92 :: (c0 :: cmd) ++ 32 :: rest)
  = 92 :: rest.
Proof.
  intros Hc H92.
  pose proof (str_replace_clean_tail ((c0 :: cmd) ++ [32])
                (92 :: (c0 :: cmd) ++ 32 :: rest) H92) as E.
  unfold str_replace in *.
  rewrite re_sub_miss by (apply literal_second_backslash, Hc).
  rewrite E. rewrite strip_prefix_cons. change (92 =? 92) with true. cbv iota.
  replace ((c0 :: cmd) ++ 32 :: rest) with (((c0 :: cmd) ++ [32]) ++ rest)
    by (rewrite <- app_assoc; reflexivity).
  rewrite strip_prefix_app. reflexivity.
Qed.

Lemma str_replace_tag (cmd k rest : ustring) :
  diverge (cmd ++ [32]) k = true ->
  Forall (fun c => c <> 92) (k ++ rest) ->
  str_replace (92 :: cmd ++ [32]) [] (92 :: k ++ rest) = 92 :: k ++ rest.
Proof.
  intros Hd H92. rewrite str_replace_clean_tail by exact H92.
  rewrite strip_prefix_cons. change (92 =? 92) with true. cbv iota.
  rewrite (diverge_strip_prefix _ _ _ Hd). reflexivity.
Qed.

Lemma strip_commands_second_backslash (cmd k rest : ustring) :
  In cmd stripped_commands ->
  forallb (fun cmd => diverge (cmd ++ [32]) k) stripped_commands = true ->
  Forall (fun c => c <> 92) (k ++ rest) ->
  strip_commands (92 :: 92 :: cmd ++ 32 :: k ++ rest) = 92 :: k ++ rest.
Proof.
  intros Hin Hk H92.
  unfold stripped_commands in Hk. cbn [forallb] in Hk.
  rewrite !andb_true_iff in Hk.
  destruct Hk as (K1 & K2 & K3 & K4 & K5 & K6 & _).
  unfold strip_commands, stripped_commands. cbn [fold_left].
  unfold stripped_commands in Hin.
  destruct Hin as [<-|[<-|[<-|[<-|[<-|[<-|[]]]]]]];
    repeat first
      [ rewrite str_replace_second
          by (try discriminate;
              cbn [app]; repeat (apply Forall_cons; [discriminate|]); exact H92)
      | rewrite str_replace_other
          by (try discriminate; try reflexivity;
              cbn [app]; repeat (apply Forall_cons; [discriminate|]); exact H92)
      | rewrite (str_replace_tag _ k rest) by assumption ];
    reflexivity.
Qed.

Lemma command_patterns_second_backslash (s : ustring) :
  Forall (fun c => c <> 92) (tl s) ->
  Forall (fun p : matcher => p (92 :: s) = None) command_patterns ->
  Forall (fun p : matcher => p s = None) command_patterns ->
  fold_left (fun s p => re_sub p (fun arg => arg) s) command_patterns (92 :: s)
  = 92 :: s.
Proof.
  intros Htl H0 H1. unfold command_patterns, command_names, command_pattern in *.
  cbn [map fold_left] in *.
  repeat match goal with
  | H : Forall _ (_ :: _) |- _ => inversion H; clear H; subst
  end.
  repeat (rewrite (re_sub_miss _ _ 92 s) by assumption;
          rewrite (braced_arg_clean_tail _ s) by assumption).
  reflexivity.
Qed.

Lemma passes_deleted_command_tag (ud : Unicodedata) (cmd k v ws t : ustring) :
  In cmd stripped_commands -> In (k, v) language_tags ->
  Forall (fun c => is_space c = true) ws -> ws <> [] ->
  starts_with_space t = false ->
  Forall (fun c => is_plain c = true) t ->
  Forall (fun c => is_combining ud c = false) (92 :: 92 :: cmd ++ 32 :: k ++ ws ++ t) ->
  ulatex_passes ud (92 :: 92 :: cmd ++ 32 :: k ++ ws ++ t)
  = Ok (91 :: v ++ 93 :: 32 :: t).
Proof.
  intros Hcmd Hin Hws Hne Hstart Ht Hcomb.
  pose proof language_tags_ok as Hok. rewrite forallb_forall in Hok.
  specialize (Hok _ Hin). unfold tag_entry_ok in Hok. simpl fst in Hok.
  rewrite !andb_true_iff in Hok.
  destruct Hok as (((((_ & _) & Hcmds) & _) & Hk) & _).
  rewrite forallb_forall in Hk.
  assert (Hplain : Forall (fun c => is_plain c = true) (k ++ ws ++ t)).
  { apply Forall_app. split; [apply Forall_forall; exact Hk|].
    apply Forall_app. split; [|exact Ht].
    eapply Forall_impl; [|exact Hws]. apply is_space_plain. }
  assert (Hc : Forall (fun c => is_plain c = true) cmd).
  { clear - Hcmd. unfold stripped_commands in Hcmd.
    destruct Hcmd as [<-|[<-|[<-|[<-|[<-|[<-|[]]]]]]]; repeat constructor. }
  assert (Htail : Forall (fun c => is_plain c = true) (cmd ++ 32 :: k ++ ws ++ t)).
  { apply Forall_app. split; [exact Hc|]. constructor; [reflexivity | exact Hplain]. }
  destruct (Forall_plain _ Htail) as (T92 & T123 & T9238 & T63).
  destruct (Forall_plain _ Hplain) as (H92 & _ & _ & _).
  rewrite ulatex_passes_early; [ | | | exact Hcomb ].
  - unfold resolve_numcharrefs.
    rewrite re_subE_miss by reflexivity.
    rewrite re_subE_miss.
    2:{ clear - Hcmd. unfold stripped_commands in Hcmd.
        destruct Hcmd as [<-|[<-|[<-|[<-|[<-|[<-|[]]]]]]]; reflexivity. }
    rewrite numcharref1_inert by exact T9238. cbn [bind].
    rewrite numcharref2_inert
      by (repeat (apply Forall_cons; [discriminate|]); exact T63).
    cbn [bind].
    rewrite (strip_commands_second_backslash cmd k (ws ++ t)) by assumption.
    rewrite (language_tag_hit k v ws t) by assumption.
    rewrite recode_language_tags_inert; [reflexivity|].
    apply (Forall_plain t Ht).
  - apply command_patterns_second_backslash.
    + exact T92.
    + repeat constructor.
    + clear - Hcmd. unfold stripped_commands in Hcmd.
      destruct Hcmd as [<-|[<-|[<-|[<-|[<-|[<-|[]]]]]]]; repeat constructor.
  - repeat (apply Forall_cons; [discriminate|]). exact T123.
Qed.

Lemma passes_reference_command (ud : Unicodedata) (cmd t : ustring) :
  In cmd stripped_commands ->
  Forall (fun c => is_plain c = true) t ->
  Forall (fun c => is_combining ud c = false) (ustr "&#92;" ++ cmd ++ 32 :: t) ->
  ulatex_passes ud (ustr "&#92;" ++ cmd ++ 32 :: t) = Ok t.
Proof.
  intros Hcmd Ht Hcomb.
  destruct (Forall_plain t Ht) as (H92 & _ & _ & _).
  assert (Hc : Forall (fun c => is_plain c = true) cmd).
  { clear - Hcmd. unfold stripped_commands in Hcmd.
    destruct Hcmd as [<-|[<-|[<-|[<-|[<-|[<-|[]]]]]]]; repeat constructor. }
  assert (Hpost : Forall (fun c => is_plain c = true) (cmd ++ 32 :: t)).
  { apply Forall_app. split; [exact Hc|]. constructor; [reflexivity | exact Ht]. }
  destruct (Forall_plain _ Hpost) as (T92 & _ & _ & _).
  change (ustr "&#92;" ++ cmd ++ 32 :: t)
    with ([] ++ 38 :: 35 :: [57; 50] ++ 59 :: cmd ++ 32 :: t).
  rewrite (passes_amp_post [57; 50]);
    [ | discriminate | repeat constructor | exact Hpost | left; reflexivity
      | exact Hcomb ].
  change (unichr (int_of_digits [57; 50])) with (Ok 92 : result N). cbn [bind].
  rewrite strip_commands_clean_tail by exact T92.
  assert (Hstrip :
    fold_left (fun s cmd0 =>
               match strip_prefix (92 :: cmd0 ++ [32]) s with
               | Some r => r
               | None => s
               end) stripped_commands (92 :: cmd ++ 32 :: t) = t).
  { unfold stripped_commands in Hcmd.
    destruct Hcmd as [<-|[<-|[<-|[<-|[<-|[<-|[]]]]]]];
      cbn [fold_left stripped_commands app]; strip_prefixes t H92; reflexivity. }
  rewrite Hstrip, recode_language_tags_inert by exact H92. reflexivity.
Qed.

(** C5, as the code has it.  [ulatex_postprocess] runs its passes in this
    order: the commands with a braced argument, the braces, the combining
    marks, the numeric references, the deletion of [\relax], [\it], [\em],
    [\textsc], [\cite] and [\citet], the language tags, NFC.  Three texts
    show where the deletion and the unwrapping stand: [\name {arg}] gives
    [arg], so the commands with an argument are unwrapped before the braces
    go; [&#92;cmd t] gives [t], so a command whose backslash a numeric
    reference spells is deleted, after the references; [\\cmd tag t], in
    which the deletion of [\cmd ] leaves the first backslash before the tag
    name, gives the bracketed code, so the deletion is done before the tags
    are rewritten. *)
Theorem strip_commands_follows_numcharref (ud : Unicodedata)
  (name arg cmd k v ws t : ustring) :
  In name command_names ->
  arg <> [] ->
  Forall (fun c => is_plain c = true /\ c <> 125) arg ->
  In cmd stripped_commands ->
  In (k, v) language_tags ->
  Forall (fun c => is_space c = true) ws -> ws <> [] ->
  starts_with_space t = false ->
  Forall (fun c => is_plain c = true) t ->
  Forall (fun c => is_combining ud c = false)
    (ustr "\&#92; " ++ arg ++ cmd ++ k ++ ws ++ t) ->
  (forall s,
     ulatex_postprocess ud (PyUnicode s) =
     (r <- resolve_numcharrefs
             (reorder_combining ud
                (strip_braces
                   (fold_left (fun s p => re_sub p (fun a => a) s)
                      command_patterns s))) ;;
      Ok (ud_normalize_NFC ud (recode_language_tags (strip_commands r)))))
  /\ ulatex_postprocess ud (PyUnicode (92 :: name ++ [32; 123] ++ arg ++ [125]))
     = Ok (ud_normalize_NFC ud arg)
  /\ ulatex_postprocess ud (PyUnicode (ustr "&#92;" ++ cmd ++ 32 :: t))
     = Ok (ud_normalize_NFC ud t)
  /\ ulatex_postprocess ud (PyUnicode (92 :: 92 :: cmd ++ 32 :: k ++ ws ++ t))
     = Ok (ud_normalize_NFC ud (91 :: v ++ 93 :: 32 :: t)).
Proof.
  intros Hname Hne Harg Hcmd Hin Hws Hwne Hstart Ht Hcomb.
  change (ustr "\&#92; ") with [92; 38; 35; 57; 50; 59; 32] in Hcomb.
  apply Forall_app in Hcomb. destruct Hcomb as [Hm Hcomb].
  apply Forall_app in Hcomb. destruct Hcomb as [Carg Hcomb].
  apply Forall_app in Hcomb. destruct Hcomb as [Ccmd Hcomb].
  apply Forall_app in Hcomb. destruct Hcomb as [Ck Hcomb].
  apply Forall_app in Hcomb. destruct Hcomb as [Cws Ct].
  repeat match goal with
  | H : Forall _ (_ :: _) |- _ => inversion H; clear H; subst
  end.
  split; [|split; [|split]].
  - intros s. reflexivity.
  - apply postprocess_after_commands.
    + apply command_patterns_space; try assumption.
      * eapply Forall_impl; [|exact Harg]. intros c [_ H]. exact H.
      * eapply Forall_impl; [|exact Harg]. intros c [H _].
        apply is_plain_spec in H. tauto.
    + eapply Forall_impl; [|exact Harg]. intros c [H _]. exact H.
    + exact Carg.
  - rewrite ulatex_postprocess_passes, passes_reference_command;
      [reflexivity | exact Hcmd | exact Ht |].
    cbn [ustr map list_ascii_of_string app].
    repeat (apply Forall_cons; [assumption|]).
    apply Forall_app. split; [exact Ccmd|]. apply Forall_cons; assumption.
  - rewrite ulatex_postprocess_passes,
      (passes_deleted_command_tag ud cmd k v ws t);
      [reflexivity | assumption ..|].
    repeat (apply Forall_cons; [assumption|]).
    apply Forall_app. split; [exact Ccmd|]. apply Forall_cons; [assumption|].
    apply Forall_app. split; [exact Ck|].
    apply Forall_app. split; assumption.
Qed.

Lemma strip_commands_follows_numcharref_witness :
  (forall s,
     ulatex_postprocess ucd_excerpt (PyUnicode s) =
     (r <- resolve_numcharrefs
             (reorder_combining ucd_excerpt
                (strip_braces
                   (fold_left (fun s p => re_sub p (fun a => a) s)
                      command_patterns s))) ;;
      Ok (ud_normalize_NFC ucd_excerpt (recode_language_tags (strip_commands r)))))
  /\ ulatex_postprocess ucd_excerpt (PyUnicode (ustr "\emph {a e}"))
     = Ok (ustr "a e")
  /\ ulatex_postprocess ucd_excerpt (PyUnicode (ustr "&#92;it a e"))
     = Ok (ustr "a e")
  /\ ulatex_postprocess ucd_excerpt (PyUnicode (ustr "\\it latin a e"))
     = Ok (ustr "[lat] a e").
Proof.
  apply (strip_commands_follows_numcharref ucd_excerpt (ustr "emph") (ustr "a e")
           (ustr "it") (ustr "latin") (ustr "lat") [32] (ustr "a e")).
  - right. left. reflexivity.
  - discriminate.
  - repeat constructor; discriminate.
  - right. left. reflexivity.
  - left. reflexivity.
  - repeat constructor.
  - discriminate.
  - reflexivity.
  - repeat constructor.
  - repeat constructor.
Defined.

(** ** The calls that the registration loop makes *)

Lemma replay_app {table : Type} (register : table -> N -> ustring -> table)
  (c1 c2 : list (N * ustring)) (t : table) :
  replay register (c1 ++ c2) t = replay register c2 (replay register c1 t).
Proof. unfold replay. apply fold_left_app. Qed.

Lemma replay_entry {table : Type} (register : table -> N -> ustring -> table)
  (u : N) (lts : list ustring) (t : table) :
  replay register (map (pair u) lts) t
  = fold_left (fun t lt => register t u lt) lts t.
Proof.
  unfold replay. revert t. induction lts as [|l lts IH]; intros t; [reflexivity|].
  cbn [map fold_left fst snd]. apply IH.
Qed.

Lemma register_entries_replay (ud : Unicodedata) (table : Type)
  (register : table -> N -> ustring -> table)
  (entries : list (string * table_value)) :
  Forall (fun e => ud_lookup ud (fst e) <> None) entries ->
  forall ts,
  register_entries ud table register entries ts
  = Ok (map (replay register (registration_calls ud entries)) ts).
Proof.
  induction 1 as [|[n v] entries Hn _ IH]; intros ts;
    cbn [register_entries registration_calls].
  - unfold replay. cbn [fold_left]. rewrite map_id. reflexivity.
  - cbn [fst] in Hn. destruct (ud_lookup ud n) as [u|]; [|congruence].
    rewrite IH. unfold register_entry. rewrite map_map. f_equal.
    apply map_ext. intros t. rewrite replay_app, replay_entry. reflexivity.
Qed.

Lemma register_entries_known (ud : Unicodedata) (table : Type)
  (register : table -> N -> ustring -> table)
  (entries : list (string * table_value)) :
  forall ts ts', register_entries ud table register entries ts = Ok ts' ->
  Forall (fun e => ud_lookup ud (fst e) <> None) entries.
Proof.
  induction entries as [|[n v] entries IH]; intros ts ts' H; [constructor|].
  cbn [register_entries] in H.
  destruct (ud_lookup ud n) as [u|] eqn:E; [|discriminate].
  constructor; [cbn [fst]; congruence | exact (IH _ _ H)].
Qed.

Lemma registration_calls_app (ud : Unicodedata)
  (l1 l2 : list (string * table_value)) :
  Forall (fun e => ud_lookup ud (fst e) <> None) l1 ->
  registration_calls ud (l1 ++ l2)
  = registration_calls ud l1 ++ registration_calls ud l2.
Proof.
  induction 1 as [|[n v] l1 Hn _ IH]; [reflexivity|].
  cbn [app registration_calls]. cbn [fst] in Hn.
  destruct (ud_lookup ud n); [|congruence].
  rewrite IH, app_assoc. reflexivity.
Qed.

Lemma registration_calls_spellings (ud : Unicodedata)
  (entries : list (string * table_value)) (c : N * ustring) :
  In c (registration_calls ud entries) ->
  exists e, In e entries /\ In (snd c) (as_list (snd e)).
Proof.
  induction entries as [|[n v] entries IH]; cbn [registration_calls]; [contradiction|].
  destruct (ud_lookup ud n) as [u|]; [|contradiction].
  intros H. apply in_app_or in H. destruct H as [H|H].
  - apply in_map_iff in H. destruct H as (l & <- & Hl).
    exists (n, v). split; [left; reflexivity | exact Hl].
  - destruct (IH H) as (e & He & Hs). exists e. split; [right; exact He | exact Hs].
Qed.

Lemma in_split_last (x : ustring) (l : list ustring) :
  In x l -> exists a b, l = a ++ x :: b /\ ~ In x b.
Proof.
  induction l as [|y l IH]; [contradiction|].
  intros Hin. destruct (in_dec (list_eq_dec N.eq_dec) x l) as [Hl|Hl].
  - destruct (IH Hl) as (a & b & -> & Hb). exists (y :: a), b. split; [reflexivity | exact Hb].
  - destruct Hin as [->|Hin]; [|contradiction].
    exists [], l. split; [reflexivity | exact Hl].
Qed.

(** With a table that a registration overwrites, the last call for a
    spelling decides, and a spelling that no call names keeps its slot. *)
Lemma replay_spec_untouched (calls : list (N * ustring)) (sp : ustring) :
  Forall (fun c => snd c <> sp) calls ->
  forall t : inverse_table, replay spec_register calls t sp = t sp.
Proof.
  induction 1 as [|c calls Hc _ IH]; intros t; [reflexivity|].
  unfold replay in *. cbn [fold_left]. rewrite IH.
  unfold spec_register. destruct (ueqb sp (snd c)) eqn:E; [|reflexivity].
  apply ueqb_eq in E. congruence.
Qed.

Lemma replay_spec_last (before after : list (N * ustring)) (u : N) (lt : ustring) :
  Forall (fun c => snd c <> lt) after ->
  forall t : inverse_table,
  replay spec_register (before ++ (u, lt) :: after) t lt = Some u.
Proof.
  intros Hafter t. rewrite replay_app.
  change ((u, lt) :: after) with ([(u, lt)] ++ after).
  rewrite replay_app, replay_spec_untouched by exact Hafter.
  unfold replay. cbn [fold_left fst snd]. unfold spec_register.
  replace (ueqb lt lt) with true; [reflexivity|].
  symmetry. apply ueqb_eq. reflexivity.
Qed.

(** C6: the loop takes the entries of the dict from the largest Unicode
    name down and calls [register] for each spelling of each entry, on
    every table; whatever [register] does, a table ends as it is after
    these calls in this order.  The last call for a spelling listed by
    several names is the one for the lexicographically smallest of them.
    With a [register] that overwrites the slot of a spelling (the inverse
    mapping of section 3 of the specification), every table therefore ends
    with the code point of that name in the slot, and the slots of
    spellings that the dict does not list are as before. *)
Theorem registration_order_and_winner (ud : Unicodedata)
  (items : list (string * table_value)) (tables tables' : list inverse_table)
  (lt : ustring) (name : string) (v : table_value) (uchar : N) :
  NoDup (map fst items) ->
  register_table ud inverse_table spec_register items tables = Ok tables' ->
  In (name, v) items -> In lt (as_list v) ->
  ud_lookup ud name = Some uchar ->
  (forall name' v', In (name', v') items -> In lt (as_list v') ->
                    String.ltb name' name = false) ->
  StronglySorted (fun a b => String.ltb (fst b) (fst a) = true) (sorted_reverse items)
  /\ Permutation (sorted_reverse items) items
  /\ (exists before after,
        registration_calls ud (sorted_reverse items) = before ++ (uchar, lt) :: after
        /\ Forall (fun c => snd c <> lt) after
        /\ forall (table : Type) (register : table -> N -> ustring -> table)
                  (ts : list table),
             register_table ud table register items ts
             = Ok (map (replay register (before ++ (uchar, lt) :: after)) ts))
  /\ Forall2 (fun t t' : inverse_table =>
                t' lt = Some uchar
                /\ forall sp, (forall e, In e items -> ~ In sp (as_list (snd e))) ->
                              t' sp = t sp)
       tables tables'.
Proof.
  intros Hnd Hreg Hin Hlt Hlook Hleast.
  pose proof (sorted_reverse_strict _ items Hnd) as Hsorted.
  pose proof (sorted_reverse_perm _ items) as Hperm.
  unfold register_table in *.
  pose proof (register_entries_known _ _ _ _ _ _ Hreg) as Hknown.
  assert (Hin' : In (name, v) (sorted_reverse items))
    by (eapply Permutation_in; [symmetry; exact Hperm | exact Hin]).
  apply in_split in Hin'. destruct Hin' as (l1 & l2 & Hsplit).
  assert (Hl2 : Forall (fun e => ~ In lt (as_list (snd e))) l2).
  { rewrite Hsplit in Hsorted. apply StronglySorted_app_r in Hsorted.
    inversion Hsorted as [|? ? _ Hall]; subst.
    rewrite Forall_forall in *. intros [n' v'] Hn' Hlists.
    specialize (Hall _ Hn'). simpl in Hall, Hlists.
    rewrite (Hleast n' v') in Hall; [discriminate| |exact Hlists].
    eapply Permutation_in; [exact Hperm|].
    rewrite Hsplit. apply in_or_app. right. right. exact Hn'. }
  destruct (in_split_last lt (as_list v) Hlt) as (a & b & Hv & Hb).
  assert (Hk1 : Forall (fun e => ud_lookup ud (fst e) <> None) l1).
  { rewrite Hsplit in Hknown. apply Forall_app in Hknown. tauto. }
  set (before := registration_calls ud l1 ++ map (pair uchar) a).
  set (after := map (pair uchar) b ++ registration_calls ud l2).
  assert (Hcalls : registration_calls ud (sorted_reverse items)
                   = before ++ (uchar, lt) :: after).
  { rewrite Hsplit, registration_calls_app by exact Hk1.
    cbn [registration_calls]. rewrite Hlook, Hv, map_app. cbn [map].
    subst before after. rewrite <- !app_assoc. reflexivity. }
  assert (Hafter : Forall (fun c => snd c <> lt) after).
  { subst after. apply Forall_app. split.
    - apply Forall_forall. intros c Hc. apply in_map_iff in Hc.
      destruct Hc as (l & <- & Hl). cbn [snd]. intros ->. contradiction.
    - apply Forall_forall. intros c Hc Heq.
      destruct (registration_calls_spellings ud l2 c Hc) as (e & He & Hs).
      rewrite Forall_forall in Hl2. apply (Hl2 e He). rewrite <- Heq. exact Hs. }
  assert (Hgen : forall (table : Type) (register : table -> N -> ustring -> table)
                        (ts : list table),
             register_entries ud table register (sorted_reverse items) ts
             = Ok (map (replay register (before ++ (uchar, lt) :: after)) ts)).
  { intros table register ts. rewrite <- Hcalls.
    apply register_entries_replay, Hknown. }
  split; [exact Hsorted|]. split; [exact Hperm|]. split.
  - exists before, after. split; [exact Hcalls|]. split; [exact Hafter | exact Hgen].
  - rewrite Hgen in Hreg. injection Hreg as <-.
    clear Hgen. induction tables as [|t tables IHt]; cbn [map]; constructor;
      [|exact IHt].
    split; [apply replay_spec_last, Hafter|].
    intros sp Hsp. rewrite <- Hcalls. apply replay_spec_untouched.
    apply Forall_forall. intros c Hc Heq.
    destruct (registration_calls_spellings ud _ c Hc) as (e & He & Hs).
    apply (Hsp e).
    + eapply Permutation_in; [exact Hperm | exact He].
    + rewrite <- Heq. exact Hs.
Qed.

Lemma registration_order_and_winner_witness :
  StronglySorted (fun a b => String.ltb (fst b) (fst a) = true)
    (sorted_reverse colliding_items)
  /\ Permutation (sorted_reverse colliding_items) colliding_items
  /\ (exists before after,
        registration_calls ucd_excerpt (sorted_reverse colliding_items)
        = before ++ (776, ustr "\:") :: after
        /\ Forall (fun c => snd c <> ustr "\:") after
        /\ forall (table : Type) (register : table -> N -> ustring -> table)
                  (ts : list table),
             register_table ucd_excerpt table register colliding_items ts
             = Ok (map (replay register (before ++ (776, ustr "\:") :: after)) ts))
  /\ Forall2 (fun t t' : inverse_table =>
                t' (ustr "\:") = Some 776
                /\ forall sp, (forall e, In e colliding_items ->
                                         ~ In sp (as_list (snd e))) ->
                              t' sp = t sp)
       [empty_table; empty_table]
       (map (replay spec_register
               [(775, ustr "\."); (775, ustr "\:"); (776, ustr "\:")])
          [empty_table; empty_table]).
Proof.
  apply (registration_order_and_winner ucd_excerpt colliding_items
           [empty_table; empty_table] _ (ustr "\:")
           "COMBINING DIAERESIS"%string (One (ustr "\:")) 776).
  - repeat constructor; simpl; intuition discriminate.
  - reflexivity.
  - left. reflexivity.
  - left. reflexivity.
  - reflexivity.
  - intros name' v' [E|[E|[]]] _; injection E as <- _; reflexivity.
Defined.

(** ** [u_unescape] on a [str] *)

(** The chunks for a [str] hold the same characters as those for a
    [unicode]. *)
Lemma u_iterchunks_str_chars (s : list N) (ms : list re_match) :
  forall pos seq,
  items (u_iterchunks_str s pos ms) = Ok seq ->
  join (u_iterchunks s pos ms) = Ok (concat (map py_chars seq)).
Proof.
  induction ms as [|m ms IH]; intros pos seq H.
  - cbn in H. injection H as <-. reflexivity.
  - cbn [u_iterchunks_str items bind] in H. cbn [u_iterchunks join bind].
    destruct (unichr (int_of_digits (m_group m))) as [c|e]; cbn [bind] in *;
      [|discriminate].
    destruct (items (u_iterchunks_str s (m_end m) ms)) as [seq'|e] eqn:E;
      cbn [bind] in H; [|discriminate].
    injection H as <-. rewrite (IH _ _ E). reflexivity.
Qed.

Lemma join_unicode_ascii (seq : list py_string) :
  join_unicode seq =
  if forallb (fun x => negb (raises (coerce_unicode x))) seq
  then Ok (concat (map py_chars seq))
  else Raise UnicodeDecodeError.
Proof.
  induction seq as [|x seq IH]; [reflexivity|].
  cbn [join_unicode forallb map concat].
  destruct x as [b|u]; cbn [coerce_unicode py_chars].
  - unfold ascii_decode. destruct (forallb (fun c => c <=? 127) b); cbn [bind raises negb andb];
      [|reflexivity].
    rewrite IH. destruct (forallb _ seq); reflexivity.
  - cbn [bind raises negb andb]. rewrite IH. destruct (forallb _ seq); reflexivity.
Qed.

Lemma u_pattern_match_ascii (s g : ustring) (len : nat) :
  u_pattern s = Some (g, len) ->
  forallb (fun c => c <=? 127) s = forallb (fun c => c <=? 127) (skipn len s).
Proof.
  intros H. apply u_pattern_Some in H. destruct H as (rest & -> & Hd & _ & ->).
  replace (u_open ++ g ++ 93 :: rest) with ((u_open ++ g ++ [93]) ++ rest)
    by (rewrite <- !app_assoc; reflexivity).
  rewrite skipn_app_exact by (unfold u_open; rewrite !length_app; simpl; lia).
  rewrite forallb_app.
  replace (forallb (fun c => c <=? 127) (u_open ++ g ++ [93])) with true;
    [reflexivity|].
  symmetry. apply forallb_ascii. apply Forall_app. split;
    [unfold u_open; repeat constructor; lia|].
  apply Forall_app. split; [|repeat constructor; lia].
  eapply Forall_impl; [|exact Hd]. intros d Hdd. apply is_digit_iff in Hdd. lia.
Qed.

Lemma u_pattern_unichr (s g : ustring) (len : nat) :
  u_pattern s = Some (g, len) -> unichr (int_of_digits g) = Ok (int_of_digits g).
Proof.
  intros H. apply u_pattern_repl_ok in H. unfold numcharref_repl in H.
  destruct (unichr (int_of_digits g)) as [c|e]; [|discriminate].
  cbn [bind] in H. congruence.
Qed.

Lemma u_iterchunks_str_finditer (s : list N) :
  forall suf pre k pos p0,
    s = pre ++ suf -> pos = length pre ->
    (p0 <= pos + k)%nat -> (0 < k -> p0 = pos + k)%nat -> (k <= length suf)%nat ->
    exists seq,
      items (u_iterchunks_str s p0 (finditer_from u_pattern k pos suf)) = Ok seq
      /\ forallb (fun x => negb (raises (coerce_unicode x))) seq
         = forallb (fun c => c <=? 127) (slice s p0 (pos + k))
           && forallb (fun c => c <=? 127) (skipn k suf)
      /\ existsb is_unicode seq = has_escape (skipn k suf).
Proof.
  induction suf as [|c tl IH]; intros pre k pos p0 Hs Hpos Hp0 Hk Hlen.
  - simpl in Hlen. assert (k = 0)%nat by lia. subst k.
    cbn [finditer_from u_iterchunks_str items bind].
    eexists. split; [reflexivity|].
    cbn [forallb existsb is_unicode coerce_unicode skipn has_escape].
    rewrite slice_to_end, Hs, app_nil_r, Nat.add_0_r, Hpos.
    unfold ascii_decode.
    destruct (forallb (fun c => c <=? 127) (slice pre p0 (length pre)));
      split; reflexivity.
  - destruct k as [|k].
    + cbn [finditer_from]. destruct (u_pattern (c :: tl)) as [[g len]|] eqn:Hm.
      * destruct (u_pattern_wf _ _ _ Hm) as [H1 H2]. simpl in H2.
        destruct (IH (pre ++ [c]) (len - 1)%nat (S pos) (pos + len)%nat)
          as (seq & Hseq & Hasc & Huni);
          [ rewrite Hs, <- app_assoc; reflexivity
          | rewrite length_app; simpl; lia | lia | lia | lia | ].
        cbn [u_iterchunks_str items bind m_start m_end m_group].
        rewrite (u_pattern_unichr _ _ _ Hm). cbn [bind]. rewrite Hseq. cbn [bind].
        eexists. split; [reflexivity|].
        cbn [forallb existsb is_unicode coerce_unicode raises negb andb orb].
        rewrite Hasc. replace (S pos + (len - 1))%nat with (pos + len)%nat by lia.
        rewrite slice_empty. cbn [forallb andb].
        rewrite Nat.add_0_r. cbn [skipn has_escape]. rewrite Hm. cbn [orb].
        rewrite (u_pattern_match_ascii _ _ _ Hm).
        replace (skipn len (c :: tl)) with (skipn (len - 1) tl)
          by (destruct len; [lia | simpl; rewrite Nat.sub_0_r; reflexivity]).
        unfold ascii_decode.
        destruct (forallb (fun c0 => c0 <=? 127) (slice s p0 pos));
          split; reflexivity.
      * destruct (IH (pre ++ [c]) 0%nat (S pos) p0)
          as (seq & Hseq & Hasc & Huni);
          [ rewrite Hs, <- app_assoc; reflexivity
          | rewrite length_app; simpl; lia | lia | lia | lia | ].
        exists seq. split; [exact Hseq|]. rewrite Hasc, Huni.
        rewrite !Nat.add_0_r. cbn [skipn has_escape forallb]. rewrite Hm.
        cbn [orb]. split; [|reflexivity].
        subst pos s. rewrite slice_snoc by lia.
        rewrite forallb_app. cbn [forallb]. rewrite andb_true_r.
        rewrite andb_assoc. reflexivity.
    + cbn [finditer_from].
      destruct (IH (pre ++ [c]) k (S pos) p0)
        as (seq & Hseq & Hasc & Huni);
        [ rewrite Hs, <- app_assoc; reflexivity
        | rewrite length_app; simpl; lia | lia | lia | simpl in Hlen; lia | ].
      exists seq. split; [exact Hseq|]. rewrite Hasc, Huni.
      replace (S pos + k)%nat with (pos + S k)%nat by lia.
      split; reflexivity.
Qed.

(** X1: what [u_unescape] raises.  On a [unicode] it never raises: the 3 to
    5 digits of an escape spell a number of at most 99999, which [unichr]
    accepts.  On a [str] without escape it returns the [str] as it is; on a
    [str] with an escape the chunks are joined as a [unicode], which raises
    [UnicodeDecodeError] exactly when the [str] has a byte above 127, and
    gives the same text as for a [unicode] otherwise. *)
Theorem u_unescape_raises (s : ustring) :
  (exists r, u_unescape s = Ok r)
  /\ u_unescape_str s =
     if has_escape s
     then if forallb (fun c => c <=? 127) s
          then r <- u_unescape s ;; Ok (PyUnicode r)
          else Raise UnicodeDecodeError
     else Ok (PyStr s).
Proof.
  assert (Htot : exists r, u_unescape s = Ok r).
  { rewrite u_unescape_sub. unfold re_subE. apply subE_u_pattern_total. }
  split; [exact Htot|]. destruct Htot as [r Hr].
  destruct (u_iterchunks_str_finditer s s [] 0 0 0)%nat
    as (seq & Hseq & Hasc & Huni); try reflexivity; try lia.
  rewrite slice_empty in Hasc. cbn [forallb andb skipn] in Hasc, Huni.
  pose proof (u_iterchunks_str_chars s _ _ _ Hseq) as Hchars.
  fold (finditer u_pattern s) in Hseq, Hchars.
  change (join (u_iterchunks s 0 (finditer u_pattern s))) with (u_unescape s) in Hchars.
  rewrite Hr in Hchars. injection Hchars as Hchars.
  unfold u_unescape_str. rewrite Hseq. cbn [bind]. unfold py_join.
  rewrite Huni, Hr. cbn [bind].
  destruct (has_escape s) eqn:He.
  - rewrite join_unicode_ascii, Hasc.
    destruct (forallb (fun c => c <=? 127) s); cbn [bind]; [|reflexivity].
    rewrite Hchars. reflexivity.
  - rewrite <- Hchars. f_equal. f_equal.
    rewrite u_unescape_sub, re_subE_no_escape in Hr by exact He. congruence.
Qed.

Example u_unescape_str_ex :
  u_unescape_str (ustr "a?[\u233]") = Ok (PyUnicode [97; 233])
  /\ u_unescape_str ([233] ++ ustr " a") = Ok (PyStr ([233] ++ ustr " a"))
  /\ u_unescape_str ([233] ++ ustr " ?[\u233]") = Raise UnicodeDecodeError.
Proof. repeat split. Qed.
